(** * dotbit.js avatar plugin: shallow embedding and verification

    The development follows [BitPluginAvatar] (the avatar resolution
    plugin): the IPFS link translator [getIpfsLink], the ABI dynamic
    decoder [_parseBytes] / [_parseString], and the [avatar] pipeline that
    [onInitAccount] installs on an account.

    JavaScript strings are sequences of UTF-16 code units, modelled as
    [list N].  Functions that may throw return a [result]; the [avatar]
    body runs in a small state-and-completion monad that records the
    linkage array and the provider calls made so far. *)

From Stdlib Require Import String Ascii DecimalString.
From Stdlib Require Import ZArith NArith Lia Bool List.
Import ListNotations.

Local Open Scope list_scope.

(* ===================================================================== *)
(** ** JavaScript strings *)
(* ===================================================================== *)

Module JS.

(** A UTF-16 code unit. *)
Definition jschar := N.
Definition jsstring := list jschar.

(** String literal: every character of the literal is one code unit. *)
Definition js (s : string) : jsstring :=
  map N_of_ascii (list_ascii_of_string s).
Arguments js s%_string.

Definition char_eqb (a b : jschar) : bool := N.eqb a b.

Fixpoint str_eqb (a b : jsstring) : bool :=
  match a, b with
  | [], [] => true
  | x :: a', y :: b' => char_eqb x y && str_eqb a' b'
  | _, _ => false
  end.

(** Outcome of a call that may throw. *)
Inductive result (A : Type) : Type :=
| Ok (a : A)
| Err (msg : string).
Arguments Ok {A} a.
Arguments Err {A} msg.

Definition rbind {A B} (r : result A) (k : A -> result B) : result B :=
  match r with
  | Ok a => k a
  | Err m => Err m
  end.

(** [String.prototype.substring(start, end)]: both indices are clamped to
    [0, length] and swapped when [start > end]. *)
Definition clamp (len : nat) (i : Z) : nat :=
  Z.to_nat (Z.min (Z.max i 0) (Z.of_nat len)).

Definition substring (s : jsstring) (a b : Z) : jsstring :=
  let a' := clamp (length s) a in
  let b' := clamp (length s) b in
  let from := Nat.min a' b' in
  let to := Nat.max a' b' in
  firstn (to - from) (skipn from s).

(** [String.prototype.substring(start)]. *)
Definition substring_from (s : jsstring) (a : Z) : jsstring :=
  skipn (clamp (length s) a) s.

(** ASCII letters. *)
Definition is_upper (c : jschar) : bool := (65 <=? c)%N && (c <=? 90)%N.
Definition is_digit (c : jschar) : bool := (48 <=? c)%N && (c <=? 57)%N.

(** [toLowerCase] on the code units it is applied to here: the captured
    scheme, which the matchers restrict to ASCII letters and digits. *)
Definition lower_char (c : jschar) : jschar :=
  if is_upper c then (c + 32)%N else c.
Definition toLowerCase (s : jsstring) : jsstring := map lower_char s.

(** Character comparison of a regular expression with the [i] flag and
    without the [u] flag, against an ASCII pattern character [p]: both
    sides are canonicalised to upper case, and a code unit of 128 or above
    never canonicalises to an ASCII one, so only the two ASCII cases of a
    letter match it. *)
Definition ci_char (p c : jschar) : bool :=
  char_eqb (lower_char p) (lower_char c).

(** [strip_ci p s]: [s] starts with the pattern text [p] up to ASCII case;
    returns the matched text and what follows. *)
Fixpoint strip_ci (p s : jsstring) : option (jsstring * jsstring) :=
  match p with
  | [] => Some ([], s)
  | pc :: p' =>
      match s with
      | [] => None
      | c :: s' =>
          if ci_char pc c then
            match strip_ci p' s' with
            | Some (m, rest) => Some (c :: m, rest)
            | None => None
            end
          else None
      end
  end.

Definition starts_ci (p s : jsstring) : bool :=
  match strip_ci p s with Some _ => true | None => false end.

(** Longest prefix of decimal digits. *)
Fixpoint span_digits (s : jsstring) : jsstring * jsstring :=
  match s with
  | c :: s' =>
      if is_digit c then
        let (d, rest) := span_digits s' in (c :: d, rest)
      else ([], s)
  | [] => ([], [])
  end.

(** Line terminators, which [.] does not match: LF, CR, LS, PS. *)
Definition is_line_terminator (c : jschar) : bool :=
  (c =? 10)%N || (c =? 13)%N || (c =? 8232)%N || (c =? 8233)%N.

(** A trailing "any characters, then end of input" group: the rest of the
    input, which must hold no line terminator. *)
Definition dot_star_end (s : jsstring) : option jsstring :=
  if forallb (fun c => negb (is_line_terminator c)) s then Some s else None.

(** [String.prototype.split(sep)] for a one-character separator. *)
Fixpoint split (sep : jschar) (s : jsstring) : list jsstring :=
  match s with
  | [] => [[]]
  | c :: s' =>
      if char_eqb c sep then [] :: split sep s'
      else match split sep s' with
           | piece :: pieces => (c :: piece) :: pieces
           | [] => [[c]]
           end
  end.

(** Case-sensitive prefix removal. *)
Fixpoint strip_prefix (p s : jsstring) : option jsstring :=
  match p with
  | [] => Some s
  | pc :: p' =>
      match s with
      | [] => None
      | c :: s' => if char_eqb pc c then strip_prefix p' s' else None
      end
  end.

(** [String.prototype.replace(pattern, replacement)] with a string
    pattern: the first occurrence only.  The replacement texts used here
    hold no dollar sign, so no replacement pattern is expanded. *)
Fixpoint replace_first (pat rep s : jsstring) : jsstring :=
  match strip_prefix pat s with
  | Some rest => rep ++ rest
  | None =>
      match s with
      | [] => []
      | c :: s' => c :: replace_first pat rep s'
      end
  end.

End JS.

(* ===================================================================== *)
(** ** The ethers (v5) helpers the plugin imports

    [hexDataSlice], [hexZeroPad], [hexConcat] (package bytes), [BigNumber]
    (package bignumber, over bn.js) and [toUtf8String] (package strings),
    written after the library functions of the same names, restricted to
    the string arguments the plugin passes. *)
(* ===================================================================== *)

Module Ethers.
Import JS.

Definition is_hex_digit (c : jschar) : bool :=
  is_digit c || ((65 <=? c)%N && (c <=? 70)%N) || ((97 <=? c)%N && (c <=? 102)%N).

(** [isHexString(value)]: the text 0x followed by hexadecimal digits of
    either case. *)
Definition isHexString (value : jsstring) : bool :=
  match strip_prefix (js "0x") value with
  | Some ds => forallb is_hex_digit ds
  | None => false
  end.

(** [hexDataSlice(data, offset, endOffset)].  The offsets are integers
    here; JavaScript rounds them only above 2^53, far beyond the length
    of any string, where [substring] clamps them alike. *)
Definition hexDataSlice (data : jsstring) (offset endOffset : Z)
  : result jsstring :=
  if negb (isHexString data) || Nat.odd (length data)
  then Err "invalid hexData"
  else Ok (js "0x" ++ substring data (2 + 2 * offset) (2 + 2 * endOffset)).

(** [hexZeroPad(value, length)]: the loop that prepends one zero digit
    until the text has [2 * length + 2] characters, in closed form. *)
Definition hexZeroPad (value : jsstring) (len : nat) : result jsstring :=
  if negb (isHexString value) then Err "invalid hex string"
  else if (2 * len + 2 <? length value)%nat then Err "value out of range"
  else Ok (js "0x" ++ repeat 48%N (2 * len + 2 - length value)
                   ++ substring_from value 2).

(** [hexlify(value)] on a string. *)
Definition hexlify (value : jsstring) : result jsstring :=
  if isHexString value then
    if Nat.odd (length value) then Err "hex data is odd-length"
    else Ok (toLowerCase value)
  else Err "invalid hexlify value".

(** [hexConcat(items)]. *)
Fixpoint hexConcat_from (acc : jsstring) (items : list jsstring)
  : result jsstring :=
  match items with
  | [] => Ok acc
  | item :: items' =>
      rbind (hexlify item) (fun h =>
        hexConcat_from (acc ++ substring_from h 2) items')
  end.

Definition hexConcat (items : list jsstring) : result jsstring :=
  hexConcat_from (js "0x") items.

(** *** Numerals *)

Definition hex_digit_value (c : jschar) : option N :=
  if is_digit c then Some (c - 48)%N
  else if ((65 <=? c)%N && (c <=? 70)%N) then Some (c - 55)%N
  else if ((97 <=? c)%N && (c <=? 102)%N) then Some (c - 87)%N
  else None.

(** bn.js, base 16: any other character fails its assertion. *)
Fixpoint hex_value_from (acc : N) (ds : jsstring) : option N :=
  match ds with
  | [] => Some acc
  | c :: ds' =>
      match hex_digit_value c with
      | Some d => hex_value_from (16 * acc + d)%N ds'
      | None => None
      end
  end.

Definition hex_value (ds : jsstring) : option N := hex_value_from 0%N ds.

(** bn.js, base 10, on a text of decimal digits. *)
Fixpoint dec_value_from (acc : N) (ds : jsstring) : N :=
  match ds with
  | [] => acc
  | c :: ds' => dec_value_from (10 * acc + (c - 48))%N ds'
  end.

Definition dec_value (ds : jsstring) : N := dec_value_from 0%N ds.

(** Lower-case digit, as bn.js prints base 16. *)
Definition hex_digit (d : N) : jschar :=
  if (d <? 10)%N then (48 + d)%N else (87 + d)%N.

Fixpoint hex_of_N_from (fuel : nat) (n : N) (acc : jsstring) : jsstring :=
  match fuel with
  | O => acc
  | S fuel' =>
      if (n =? 0)%N then acc
      else hex_of_N_from fuel' (n / 16)%N (hex_digit (n mod 16)%N :: acc)
  end.

(** [BN.prototype.toString(16)] of a natural number. *)
Definition hex_of_N (n : N) : jsstring :=
  if (n =? 0)%N then js "0"
  else hex_of_N_from (N.to_nat (N.size n)) n [].

(** [BN.prototype.toString(10)] of a natural number. *)
Definition dec_of_N (n : N) : jsstring :=
  js (NilZero.string_of_uint (N.to_uint n)).

Definition minus_sign : jschar := 45%N.

(** [BN.prototype.toString(base)] of an integer. *)
Definition BN_toString (base16 : bool) (z : Z) : jsstring :=
  let digits := if base16 then hex_of_N (Z.abs_N z) else dec_of_N (Z.abs_N z) in
  if (z <? 0)%Z then minus_sign :: digits else digits.

(** The loop of [toHex] that drops leading 00 pairs while more than one
    pair is left. *)
Fixpoint trim00 (ds : jsstring) : jsstring :=
  match ds with
  | c1 :: c2 :: rest =>
      if char_eqb c1 48%N && char_eqb c2 48%N
         && negb (Nat.eqb (length rest) 0)
      then trim00 rest
      else ds
  | _ => ds
  end.

(** [toHex(value)] of package bignumber on a text without sign: add the
    prefix when the text does not begin with a lower-case 0x, normalise
    zero, make the length even, trim leading zero pairs.  The case of the
    digits is kept. *)
Definition toHex_unsigned (value : jsstring) : jsstring :=
  let value :=
    if str_eqb (substring value 0 2) (js "0x") then value
    else js "0x" ++ value in
  if str_eqb value (js "0x") then js "0x00"
  else
    let value :=
      if Nat.odd (length value) then js "0x0" ++ substring_from value 2
      else value in
    js "0x" ++ trim00 (substring_from value 2).

(** [value[0] === "-"]. *)
Definition starts_with_minus (value : jsstring) : bool :=
  match value with
  | c :: _ => char_eqb c minus_sign
  | [] => false
  end.

(** [toHex(value)] on a text. *)
Definition toHex (value : jsstring) : result jsstring :=
  if starts_with_minus value then
    let value := substring_from value 1 in
    if starts_with_minus value then Err "invalid hex"
    else
      let h := toHex_unsigned value in
      if str_eqb h (js "0x00") then Ok h else Ok (minus_sign :: h)
  else Ok (toHex_unsigned value).

(** A [BigNumber] holds its normalised hexadecimal text. *)
Record BigNumber : Type := mkBigNumber { _hex : jsstring }.

(** An optional leading minus sign. *)
Definition strip_minus (s : jsstring) : bool * jsstring :=
  if starts_with_minus s then (true, substring_from s 1) else (false, s).

(** The hexadecimal pattern of [BigNumber.from]: optional minus, 0x of
    either case, one hexadecimal digit or more, end of input. *)
Definition is_hex_literal (value : jsstring) : bool :=
  match strip_ci (js "0x") (snd (strip_minus value)) with
  | Some (_, ds) => negb (Nat.eqb (length ds) 0) && forallb is_hex_digit ds
  | None => false
  end.

(** The decimal pattern of [BigNumber.from]: optional minus, one decimal
    digit or more, end of input. *)
Definition is_dec_literal (value : jsstring) : bool :=
  let ds := snd (strip_minus value) in
  negb (Nat.eqb (length ds) 0) && forallb is_digit ds.

(** [BigNumber.from(value)] on a string. *)
Definition BigNumber_from (value : jsstring) : result BigNumber :=
  if is_hex_literal value then
    rbind (toHex value) (fun h => Ok (mkBigNumber h))
  else if is_dec_literal value then
    let (neg, ds) := strip_minus value in
    let n := Z.of_N (dec_value ds) in
    rbind (toHex (BN_toString true (if neg then (- n)%Z else n)))
          (fun h => Ok (mkBigNumber h))
  else Err "invalid BigNumber string".

Definition toHexString (b : BigNumber) : jsstring := _hex b.

(** [toBN(value)]: the bn.js number of the hexadecimal text. *)
Definition toBN (b : BigNumber) : result Z :=
  let (neg, h) := strip_minus (_hex b) in
  match hex_value (substring_from h 2) with
  | Some n => Ok (if neg then (- Z.of_N n)%Z else Z.of_N n)
  | None => Err "Invalid character"
  end.

(** [BigNumber.prototype.toNumber()]: bn.js refuses more than 53 bits. *)
Definition toNumber (b : BigNumber) : result Z :=
  rbind (toBN b) (fun z =>
    if (Z.abs z <? 2 ^ 53)%Z then Ok z else Err "overflow").

Definition isZero (b : BigNumber) : result bool :=
  rbind (toBN b) (fun z => Ok (z =? 0)%Z).

Definition BigNumber_toString (b : BigNumber) : result jsstring :=
  rbind (toBN b) (fun z => Ok (BN_toString false z)).

(** *** Bytes and UTF-8 *)

(** [arrayify(value)] on a string: one byte for each pair of digits. *)
Fixpoint bytes_of_hex (ds : jsstring) : option (list N) :=
  match ds with
  | [] => Some []
  | c1 :: c2 :: ds' =>
      match hex_digit_value c1, hex_digit_value c2, bytes_of_hex ds' with
      | Some h, Some l, Some bs => Some ((16 * h + l)%N :: bs)
      | _, _, _ => None
      end
  | _ => None
  end.

Definition arrayify (value : jsstring) : result (list N) :=
  if isHexString value then
    match bytes_of_hex (substring_from value 2) with
    | Some bs => Ok bs
    | None => Err "hex data is odd-length"
    end
  else Err "invalid arrayify value".

Definition is_continuation (b : N) : bool := (N.land b 192 =? 128)%N.

(** The checks [getUtf8CodePoints] makes on an assembled code point. *)
Definition check_code_point (res overlongMask : N) : result N :=
  if (1114111 <? res)%N then Err "invalid codepoint; out of range"
  else if (55296 <=? res)%N && (res <=? 57343)%N
       then Err "invalid codepoint; UTF-16 surrogate"
  else if (res <=? overlongMask)%N then Err "invalid codepoint; overlong"
  else Ok res.

Definition add_bits (res next : N) : N :=
  N.lor (N.shiftl res 6) (N.land next 63).

(** [getUtf8CodePoints(bytes)] with the default error function, which
    throws at the first invalid byte. *)
Fixpoint getUtf8CodePoints (bytes : list N) : result (list N) :=
  match bytes with
  | [] => Ok []
  | c :: rest =>
      if (N.shiftr c 7 =? 0)%N then
        rbind (getUtf8CodePoints rest) (fun cps => Ok (c :: cps))
      else if (N.land c 224 =? 192)%N then
        match rest with
        | b1 :: rest1 =>
            if is_continuation b1 then
              rbind (check_code_point (add_bits (N.land c 31) b1) 127)
                (fun cp =>
                   rbind (getUtf8CodePoints rest1) (fun cps => Ok (cp :: cps)))
            else Err "invalid codepoint; missing continuation byte"
        | _ => Err "invalid codepoint; unexpected end of data"
        end
      else if (N.land c 240 =? 224)%N then
        match rest with
        | b1 :: b2 :: rest2 =>
            if is_continuation b1 && is_continuation b2 then
              rbind (check_code_point
                       (add_bits (add_bits (N.land c 15) b1) b2) 2047)
                (fun cp =>
                   rbind (getUtf8CodePoints rest2) (fun cps => Ok (cp :: cps)))
            else Err "invalid codepoint; missing continuation byte"
        | _ => Err "invalid codepoint; unexpected end of data"
        end
      else if (N.land c 248 =? 240)%N then
        match rest with
        | b1 :: b2 :: b3 :: rest3 =>
            if is_continuation b1 && is_continuation b2 && is_continuation b3
            then
              rbind (check_code_point
                       (add_bits (add_bits (add_bits (N.land c 7) b1) b2) b3)
                       65535)
                (fun cp =>
                   rbind (getUtf8CodePoints rest3) (fun cps => Ok (cp :: cps)))
            else Err "invalid codepoint; missing continuation byte"
        | _ => Err "invalid codepoint; unexpected end of data"
        end
      else if is_continuation c
           then Err "invalid codepoint; unexpected continuation byte"
      else Err "invalid codepoint; bad codepoint prefix"
  end.

(** One code point as UTF-16 code units. *)
Definition utf16_of_code_point (cp : N) : jsstring :=
  if (cp <=? 65535)%N then [cp]
  else
    let cp' := (cp - 65536)%N in
    [ (N.land (N.shiftr cp' 10) 1023 + 55296)%N;
      (N.land cp' 1023 + 56320)%N ].

(** [toUtf8String(bytes)]; the argument may be [null], which [arrayify]
    refuses. *)
Definition toUtf8String (bytes : option jsstring) : result jsstring :=
  match bytes with
  | None => Err "invalid arrayify value"
  | Some hex =>
      rbind (arrayify hex) (fun bs =>
        rbind (getUtf8CodePoints bs) (fun cps =>
          Ok (flat_map utf16_of_code_point cps)))
  end.

End Ethers.

(* ===================================================================== *)
(** ** The avatar plugin *)
(* ===================================================================== *)

Module Avatar.
Import JS Ethers.

Declare Scope result_scope.
Delimit Scope result_scope with result.
Notation "x <- c ;; k" := (rbind c (fun x => k))
  (at level 61, c at next level, right associativity) : result_scope.

(** *** The scheme matchers *)

Definition obind {A B} (o : option A) (k : A -> option B) : option B :=
  match o with Some a => k a | None => None end.

(** A scheme name of either case, a separator, and a rest without line
    terminator up to the end of the input; the captures are the scheme
    as written and the rest. *)
Definition match_scheme (scheme sep s : jsstring)
  : option (jsstring * jsstring) :=
  obind (strip_ci scheme s) (fun '(g1, r) =>
  obind (strip_prefix sep r) (fun r' =>
  obind (dot_star_end r') (fun g2 => Some (g1, g2)))).

(** One digit or more. *)
Definition digits1 (s : jsstring) : option (jsstring * jsstring) :=
  let (d, rest) := span_digits s in
  match d with [] => None | _ => Some (d, rest) end.

(** The token reference pattern: eip155, colon, a chain number, a slash,
    erc and a number (first capture), colon, the rest (second capture). *)
Definition match_eip155 (s : jsstring) : option (jsstring * jsstring) :=
  obind (strip_ci (js "eip155:") s) (fun '(_, r) =>
  obind (digits1 r) (fun '(_, r) =>
  obind (strip_prefix (js "/") r) (fun r =>
  obind (strip_ci (js "erc") r) (fun '(e, r) =>
  obind (digits1 r) (fun '(d, r) =>
  obind (strip_prefix (js ":") r) (fun r =>
  obind (dot_star_end r) (fun g2 => Some (e ++ d, g2)))))))).

Inductive matcher : Type :=
| matcherHttps
| matcherData
| matcherIpfs
| matcherEip155.

(** [s.match(m)]: the two captures, or [None] for [null]. *)
Definition exec (m : matcher) (s : jsstring) : option (jsstring * jsstring) :=
  match m with
  | matcherHttps => match_scheme (js "https") (js "://") s
  | matcherData => match_scheme (js "data") (js ":") s
  | matcherIpfs => match_scheme (js "ipfs") (js "://") s
  | matcherEip155 => match_eip155 s
  end.

Definition matchers : list matcher :=
  [matcherHttps; matcherData; matcherIpfs; matcherEip155].

(** *** getIpfsLink *)

Definition default_gateway : jsstring := js "https://gateway.ipfs.io".

(** [getIpfsLink(link, gateway)]; [None] is an omitted [gateway], which
    takes the default. *)
Definition getIpfsLink (link : jsstring) (gateway : option jsstring)
  : result jsstring :=
  let gateway :=
    match gateway with Some g => g | None => default_gateway end in
  if starts_ci (js "ipfs://ipfs/") link then
    Ok (gateway ++ js "/ipfs/" ++ substring_from link 12)
  else if starts_ci (js "ipfs://") link then
    Ok (gateway ++ js "/ipfs/" ++ substring_from link 7)
  else Err "unsupported IPFS format".

(** *** The ABI dynamic decoder *)

Local Open Scope result_scope.

Definition _parseBytes (res : jsstring) (start : Z)
  : result (option jsstring) :=
  if str_eqb res (js "0x") then Ok None
  else
    w <- hexDataSlice res start (start + 32) ;;
    b <- BigNumber_from w ;;
    offset <- toNumber b ;;
    w' <- hexDataSlice res offset (offset + 32) ;;
    b' <- BigNumber_from w' ;;
    length <- toNumber b' ;;
    bytes <- hexDataSlice res (offset + 32) (offset + 32 + length) ;;
    Ok (Some bytes).

Definition try_catch {A} (body : result A) (handler : string -> result A)
  : result A :=
  match body with
  | Ok a => Ok a
  | Err msg => handler msg
  end.

Definition _parseString (res : jsstring) (start : Z)
  : result (option jsstring) :=
  try_catch
    (bytes <- _parseBytes res start ;;
     s <- toUtf8String bytes ;;
     Ok (Some s))
    (fun _ => Ok None).

Local Close Scope result_scope.

(** *** Plugin configuration *)

Record BitPluginAvatarOptions : Type :=
  { ipfsGateway : option jsstring }.

Record BitPluginAvatar : Type := { ipfs : jsstring }.

Definition truthy_string (s : jsstring) : bool :=
  negb (Nat.eqb (length s) 0).

(** The constructor. *)
Definition new_BitPluginAvatar (options : option BitPluginAvatarOptions)
  : BitPluginAvatar :=
  match options with
  | Some {| ipfsGateway := Some g |} =>
      if truthy_string g then {| ipfs := g |}
      else {| ipfs := default_gateway |}
  | _ => {| ipfs := default_gateway |}
  end.

(** *** The account and the outside world *)

Record AccountInfo : Type := { owner_key : option jsstring }.

Record BitAccountRecord : Type := { value : jsstring }.

Record BitAccount : Type :=
  { account : jsstring;
    info : result (option AccountInfo);
    records : jsstring -> result (list BitAccountRecord) }.

(** Parsed JSON documents; a number is kept as a fraction. *)
#[warnings="-register-all"]
Inductive json : Type :=
| JNull
| JBool (b : bool)
| JNumber (num den : Z)
| JString (s : jsstring)
| JArray (items : list json)
| JObject (fields : list (jsstring * json)).

Record Tx : Type := { tx_to : jsstring; tx_data : jsstring }.

(** The provider, its formatter, the HTTP fetch and [JSON.stringify]. *)
Record World : Type :=
  { provider_call : Tx -> result jsstring;
    formatter_address : jsstring -> result jsstring;
    formatter_callAddress : jsstring -> result (option jsstring);
    fetchJson : jsstring -> result json;
    JSON_stringify : json -> jsstring }.

(** [!metadata]. *)
Definition falsy (v : json) : bool :=
  match v with
  | JNull => true
  | JBool b => negb b
  | JNumber num _ => (num =? 0)%Z
  | JString s => negb (truthy_string s)
  | JArray _ => false
  | JObject _ => false
  end.

(** [metadata.image]: only an object document can hold the property. *)
Definition get_property (v : json) (key : jsstring) : option json :=
  match v with
  | JObject fields =>
      match find (fun kv => str_eqb (fst kv) key) fields with
      | Some kv => Some (snd kv)
      | None => None
      end
  | _ => None
  end.

(** *** Linkage, results and the monad of the [avatar] body *)

Record LinkageStep : Type := { type : jsstring; content : jsstring }.

Record ResolvedAvatar : Type :=
  { linkage : list LinkageStep; url : jsstring }.

(** What a run has done so far: the linkage array and the provider calls. *)
Record state : Type :=
  { st_linkage : list LinkageStep; st_calls : list Tx }.

Inductive completion (A : Type) : Type :=
| Normal (a : A)
| Return (r : option ResolvedAvatar)
| Throw (msg : string).
Arguments Normal {A} a.
Arguments Return {A} r.
Arguments Throw {A} msg.

Definition M (A : Type) : Type := state -> completion A * state.

Definition ret {A} (a : A) : M A := fun st => (Normal a, st).

Definition bind {A B} (c : M A) (k : A -> M B) : M B :=
  fun st =>
    match c st with
    | (Normal a, st') => k a st'
    | (Return r, st') => (Return r, st')
    | (Throw msg, st') => (Throw msg, st')
    end.

Definition return_ {A} (r : option ResolvedAvatar) : M A :=
  fun st => (Return r, st).

Definition lift {A} (r : result A) : M A :=
  fun st =>
    match r with
    | Ok a => (Normal a, st)
    | Err msg => (Throw msg, st)
    end.

(** [linkage.push({ type, content })]. *)
Definition push (ty c : jsstring) : M unit :=
  fun st =>
    (Normal tt,
     {| st_linkage := st_linkage st ++ [{| type := ty; content := c |}];
        st_calls := st_calls st |}).

Definition get_linkage : M (list LinkageStep) :=
  fun st => (Normal (st_linkage st), st).

(** [await provider.call(tx)]. *)
Definition call (w : World) (tx : Tx) : M jsstring :=
  fun st =>
    let st' := {| st_linkage := st_linkage st;
                  st_calls := st_calls st ++ [tx] |} in
    match provider_call w tx with
    | Ok r => (Normal r, st')
    | Err msg => (Throw msg, st')
    end.

Declare Scope avatar_scope.
Delimit Scope avatar_scope with avatar.
Notation "x <- c ;; k" := (bind c (fun x => k))
  (at level 61, c at next level, right associativity) : avatar_scope.
Notation "c ;;; k" := (bind c (fun _ => k))
  (at level 61, right associativity) : avatar_scope.

Local Open Scope avatar_scope.

(** *** The body of [avatar] *)

Definition selector_ownerOf : jsstring := js "0x6352211e".
Definition selector_balanceOf : jsstring := js "0x00fdd58e".
Definition selector_tokenURI : jsstring := js "0xc87b56dd".
Definition selector_uri : jsstring := js "0x0e89341c".

Definition is_erc721 (scheme : jsstring) : bool := str_eqb scheme (js "erc721").
Definition is_erc1155 (scheme : jsstring) : bool := str_eqb scheme (js "erc1155").

(** The check that the account owns the token. *)
Definition check_ownership (w : World) (scheme owner addr tokenId : jsstring)
  : M unit :=
  if is_erc721 scheme then
    data <- lift (hexConcat [selector_ownerOf; tokenId]) ;;
    r <- call w {| tx_to := addr; tx_data := data |} ;;
    tokenOwner <- lift (formatter_callAddress w r) ;;
    match tokenOwner with
    | Some t =>
        if negb (str_eqb owner t) then return_ None
        else push (js "owner") t
    | None => return_ None
    end
  else if is_erc1155 scheme then
    o <- lift (hexZeroPad owner 32) ;;
    data <- lift (hexConcat [selector_balanceOf; o; tokenId]) ;;
    r <- call w {| tx_to := addr; tx_data := data |} ;;
    balance <- lift (BigNumber_from r) ;;
    z <- lift (isZero balance) ;;
    if (z : bool) then return_ None
    else
      s <- lift (BigNumber_toString balance) ;;
      push (js "balance") s
  else ret tt.

(** The call for the metadata URL, its expansion and its translation. *)
Definition metadata_url (plugin : BitPluginAvatar) (w : World)
  (scheme selector comp0 tokenId : jsstring) : M jsstring :=
  to <- lift (formatter_address w comp0) ;;
  data <- lift (hexConcat [selector; tokenId]) ;;
  r <- call w {| tx_to := to; tx_data := data |} ;;
  parsed <- lift (_parseString r 0) ;;
  match parsed with
  | None => return_ None
  | Some metadataUrl =>
      push (js "metadata-url-base") metadataUrl ;;;
      metadataUrl <-
        (if is_erc1155 scheme then
           let expanded :=
             replace_first (js "{id}") (substring_from tokenId 2) metadataUrl in
           push (js "metadata-url-expanded") expanded ;;;
           ret expanded
         else ret metadataUrl) ;;
      metadataUrl <-
        (if starts_ci (js "ipfs:") metadataUrl then
           lift (getIpfsLink metadataUrl (Some (ipfs plugin)))
         else ret metadataUrl) ;;
      push (js "metadata-url") metadataUrl ;;;
      ret metadataUrl
  end.

(** The metadata document and its image. *)
Definition image_url (w : World) (metadataUrl : jsstring) : M jsstring :=
  metadata <- lift (fetchJson w metadataUrl) ;;
  if falsy metadata then return_ None
  else
    push (js "metadata") (JSON_stringify w metadata) ;;;
    match get_property metadata (js "image") with
    | Some (JString imageUrl) =>
        if starts_ci (js "https://") imageUrl || starts_ci (js "data:") imageUrl
        then ret imageUrl
        else
          match exec matcherIpfs imageUrl with
          | None => return_ None
          | Some _ =>
              push (js "url-ipfs") imageUrl ;;;
              lift (getIpfsLink imageUrl None)
          end
    | _ => return_ None
    end.

(** From the metadata call to the returned result. *)
Definition resolve_metadata (plugin : BitPluginAvatar) (w : World)
  (scheme selector comp0 tokenId : jsstring) : M unit :=
  metadataUrl <- metadata_url plugin w scheme selector comp0 tokenId ;;
  imageUrl <- image_url w metadataUrl ;;
  push (js "url") imageUrl ;;;
  l <- get_linkage ;;
  return_ (Some {| linkage := l; url := imageUrl |}).

(** The case of the two token schemes. *)
Definition resolve_token (plugin : BitPluginAvatar) (w : World)
  (scheme avatar match2 owner : jsstring) : M unit :=
  let selector :=
    if is_erc721 scheme then selector_tokenURI else selector_uri in
  push scheme avatar ;;;
  match split 47%N match2 with
  | [comp0; comp1] =>
      addr <- lift (formatter_address w comp0) ;;
      bn <- lift (BigNumber_from comp1) ;;
      tokenId <- lift (hexZeroPad (toHexString bn) 32) ;;
      check_ownership w scheme owner addr tokenId ;;;
      resolve_metadata plugin w scheme selector comp0 tokenId
  | _ => return_ None
  end.

(** The [switch] on the scheme; a scheme without case falls out of it. *)
Definition switch_scheme (plugin : BitPluginAvatar) (w : World)
  (owner avatar scheme match2 : jsstring) : M unit :=
  if str_eqb scheme (js "https") then
    push (js "url") avatar ;;;
    l <- get_linkage ;;
    return_ (Some {| linkage := l; url := avatar |})
  else if str_eqb scheme (js "data") then
    push (js "data") avatar ;;;
    l <- get_linkage ;;
    return_ (Some {| linkage := l; url := avatar |})
  else if str_eqb scheme (js "ipfs") then
    push (js "ipfs") avatar ;;;
    l <- get_linkage ;;
    u <- lift (getIpfsLink avatar (Some (ipfs plugin))) ;;
    return_ (Some {| linkage := l; url := u |})
  else if is_erc721 scheme || is_erc1155 scheme then
    resolve_token plugin w scheme avatar match2 owner
  else ret tt.

(** The loop over the matchers. *)
Fixpoint for_matchers (plugin : BitPluginAvatar) (w : World)
  (owner avatar : jsstring) (ms : list matcher) : M unit :=
  match ms with
  | [] => ret tt
  | m :: ms' =>
      match exec m avatar with
      | None => for_matchers plugin w owner avatar ms'
      | Some (match1, match2) =>
          switch_scheme plugin w owner avatar (toLowerCase match1) match2 ;;;
          for_matchers plugin w owner avatar ms'
      end
  end.

(** The block under [try]. *)
Definition avatar_try (plugin : BitPluginAvatar) (w : World)
  (this : BitAccount) : M unit :=
  acc <- lift (info this) ;;
  match acc with
  | Some {| owner_key := Some owner |} =>
      if negb (truthy_string owner) then return_ None
      else
        avatarRecord <- lift (records this (js "profile.avatar")) ;;
        match avatarRecord with
        | r :: _ =>
            if negb (truthy_string (value r)) then return_ None
            else for_matchers plugin w owner (value r) matchers
        | [] => return_ None
        end
  | _ => return_ None
  end.

Definition try_ {A} (body : M A) (handler : string -> M A) : M A :=
  fun st =>
    match body st with
    | (Throw msg, st') => handler msg st'
    | other => other
    end.

Definition initial_state : state := {| st_linkage := []; st_calls := [] |}.

(** [bitAccount.avatar], with the final state of the run.  The provider
    is built before the [try]; it is the [World] here. *)
Definition run_avatar (plugin : BitPluginAvatar) (w : World)
  (this : BitAccount) : completion unit * state :=
  (push (js "account") (account this) ;;;
   try_ (avatar_try plugin w this) (fun _ => return_ None) ;;;
   return_ None) initial_state.

(** What the caller of [avatar] gets. *)
Definition avatar (plugin : BitPluginAvatar) (w : World) (this : BitAccount)
  : completion unit :=
  fst (run_avatar plugin w this).

Local Close Scope avatar_scope.

End Avatar.

(* ===================================================================== *)
(** ** Vocabulary of the statements *)
(* ===================================================================== *)

Module Spec.
Import JS Ethers Avatar.

(** [m] is the pattern text [p] up to the case of ASCII letters. *)
Definition eq_ci (p m : jsstring) : Prop :=
  Forall2 (fun pc c => ci_char pc c = true) p m.

(** The gateway a call of [getIpfsLink] uses. *)
Definition gateway_of (gateway : option jsstring) : jsstring :=
  match gateway with Some g => g | None => default_gateway end.

(** *** The dynamic-value convention of the ABI

    Modelled from the spec: a 32-byte offset word, then, at that offset, a
    32-byte length word, then the raw bytes at offset + 32.  [gap] is what
    lies between the offset word and the length word (nothing in the
    canonical encoding of one value) and [tail] is what follows the bytes
    (the zero padding). *)

Definition hex_of_byte (b : N) : jsstring :=
  [hex_digit (b / 16)%N; hex_digit (b mod 16)%N].

Definition hex_of_bytes (bs : list N) : jsstring := flat_map hex_of_byte bs.

(** [k] bytes, big-endian. *)
Fixpoint be_bytes (k : nat) (n : N) : list N :=
  match k with
  | O => []
  | S k' => be_bytes k' (n / 256)%N ++ [(n mod 256)%N]
  end.

Definition word (n : N) : list N := be_bytes 32 n.

Definition abi_encode_dynamic (gap bytes tail : list N) : jsstring :=
  js "0x" ++
  hex_of_bytes (word (32 + N.of_nat (length gap)) ++ gap ++
                word (N.of_nat (length bytes)) ++ bytes ++ tail).

(** A Unicode scalar value: a code point that is not a surrogate. *)
Definition is_scalar (cp : N) : Prop :=
  (cp < 55296)%N \/ ((57343 < cp)%N /\ (cp < 1114112)%N).

(** The UTF-8 bytes of a code point. *)
Definition utf8_of_code_point (cp : N) : list N :=
  if (cp <? 128)%N then [cp]
  else if (cp <? 2048)%N then
    [(192 + cp / 64)%N; (128 + cp mod 64)%N]
  else if (cp <? 65536)%N then
    [(224 + cp / 4096)%N; (128 + (cp / 64) mod 64)%N; (128 + cp mod 64)%N]
  else
    [(240 + cp / 262144)%N; (128 + (cp / 4096) mod 64)%N;
     (128 + (cp / 64) mod 64)%N; (128 + cp mod 64)%N].

(** A text given by its code points: its UTF-8 bytes and the JavaScript
    string it is. *)
Definition utf8_bytes (cps : list N) : list N :=
  flat_map utf8_of_code_point cps.

(** The UTF-16 code units of a code point, after the Unicode standard:
    the code point itself below 65536; from there on the surrogate pair
    of the number [cp - 65536], its quotient by 1024 after 55296 and its
    remainder after 56320. *)
Definition utf16_units (cp : N) : jsstring :=
  if (cp <? 65536)%N then [cp]
  else [(55296 + (cp - 65536) / 1024)%N; (56320 + (cp - 65536) mod 1024)%N].

Definition string_of_code_points (cps : list N) : jsstring :=
  flat_map utf16_units cps.

(** The code points of a JavaScript string: a high surrogate followed by
    a low one is one code point, every other code unit is a code point
    of its own. *)
Definition is_high_surrogate (c : jschar) : bool :=
  (55296 <=? c)%N && (c <=? 56319)%N.
Definition is_low_surrogate (c : jschar) : bool :=
  (56320 <=? c)%N && (c <=? 57343)%N.

Fixpoint code_points (s : jsstring) : list N :=
  match s with
  | [] => []
  | hi :: rest =>
      match rest with
      | lo :: rest' =>
          if is_high_surrogate hi && is_low_surrogate lo
          then (65536 + (hi - 55296) * 1024 + (lo - 56320))%N
                 :: code_points rest'
          else hi :: code_points rest
      | [] => [hi]
      end
  end.

(** A JavaScript string: 16-bit code units. *)
Definition code_units (s : jsstring) : Prop :=
  Forall (fun c => (c < 65536)%N) s.

(** A string without lone surrogate: the strings that have an encoding
    in UTF-8. *)
Definition well_formed (s : jsstring) : Prop :=
  code_units s /\ Forall is_scalar (code_points s).

(** A string encoded in UTF-8 as a dynamic value. *)
Definition abi_encode_text (gap : list N) (s : jsstring) (tail : list N)
  : jsstring :=
  abi_encode_dynamic gap (utf8_bytes (code_points s)) tail.

(** What follows ipfs:// in a link, less one leading ipfs/ (letters of
    either case): the path that the gateway translation keeps. *)
Definition ipfs_path (cid : jsstring) : jsstring :=
  if starts_ci (js "ipfs/") cid then skipn 5 cid else cid.

(** The canonical encoding of one string: offset 32 and zero padding up
    to a multiple of 32 bytes. *)
Definition abi_encode_string (cps : list N) : jsstring :=
  let bytes := utf8_bytes cps in
  abi_encode_dynamic [] bytes
    (repeat 0%N ((32 - length bytes mod 32) mod 32)).

Definition are_bytes (bs : list N) : Prop := Forall (fun b => (b < 256)%N) bs.

(** *** Runs of the pipeline *)

Definition step (ty : string) (c : jsstring) : LinkageStep :=
  {| type := js ty; content := c |}.

Definition with_step (st : state) (s : LinkageStep) : state :=
  {| st_linkage := st_linkage st ++ [s]; st_calls := st_calls st |}.

Definition with_call (st : state) (tx : Tx) : state :=
  {| st_linkage := st_linkage st; st_calls := st_calls st ++ [tx] |}.

(** The state in which the [try] block starts. *)
Definition entry_state (this : BitAccount) : state :=
  {| st_linkage := [step "account" (account this)]; st_calls := [] |}.

(** What [avatar] makes of the completion of its [try] block. *)
Definition settle (r : completion unit * state) : completion unit * state :=
  match r with
  | (Return o, st) => (Return o, st)
  | (_, st) => (Return None, st)
  end.

(** The account has an owner key and a first avatar record. *)
Definition has_avatar (this : BitAccount) (owner avatar : jsstring) : Prop :=
  info this = Ok (Some {| owner_key := Some owner |})
  /\ truthy_string owner = true
  /\ exists r rs,
       records this (js "profile.avatar") = Ok (r :: rs) /\ value r = avatar.

(** The avatar record is a token reference of the given scheme with the
    two components [comp0] (contract) and [comp1] (token). *)
Definition token_reference (avatar scheme comp0 comp1 : jsstring) : Prop :=
  exists match1 match2,
    exec matcherEip155 avatar = Some (match1, match2)
    /\ toLowerCase match1 = scheme
    /\ split 47%N match2 = [comp0; comp1].

(** The first letter of the scheme a matcher accepts, in lower case. *)
Definition initial (m : matcher) : jschar :=
  match m with
  | matcherHttps => 104%N
  | matcherData => 100%N
  | matcherIpfs => 105%N
  | matcherEip155 => 101%N
  end.

(** The 32-byte word of the token number. *)
Definition token_word (comp1 : jsstring) : result jsstring :=
  rbind (BigNumber_from comp1) (fun bn => hexZeroPad (toHexString bn) 32).

(** Call data: a selector followed by the digits of the argument words,
    in lower case. *)
Definition calldata (selector : jsstring) (words : list jsstring) : jsstring :=
  selector ++ flat_map (fun w => skipn 2 (toLowerCase w)) words.

(** The selector of the metadata call. *)
Definition selector_of (scheme : jsstring) : jsstring :=
  if is_erc721 scheme then selector_tokenURI else selector_uri.

Definition ownerOf_tx (addr tokenId : jsstring) : Tx :=
  {| tx_to := addr; tx_data := calldata selector_ownerOf [tokenId] |}.

Definition balanceOf_tx (addr owner32 tokenId : jsstring) : Tx :=
  {| tx_to := addr; tx_data := calldata selector_balanceOf [owner32; tokenId] |}.

Definition metadata_tx (scheme addr tokenId : jsstring) : Tx :=
  {| tx_to := addr; tx_data := calldata (selector_of scheme) [tokenId] |}.

(** The metadata URL after the [{id}] expansion of ERC-1155. *)
Definition expand (scheme tokenId u : jsstring) : jsstring :=
  if is_erc1155 scheme
  then replace_first (js "{id}") (substring_from tokenId 2) u
  else u.

(** The metadata URL after the translation of IPFS links. *)
Definition translate (plugin : BitPluginAvatar) (u : jsstring)
  : result jsstring :=
  if starts_ci (js "ipfs:") u then getIpfsLink u (Some (ipfs plugin))
  else Ok u.

(** The state in which the token branch checks the ownership. *)
Definition token_state (this : BitAccount) (scheme avatar : jsstring) : state :=
  with_step (entry_state this) {| type := scheme; content := avatar |}.

(** The account's avatar record is a well-formed token reference: the
    run reaches the ownership check with the contract address [addr] and
    the token word [tokenId]. *)
Definition token_avatar (w : World) (this : BitAccount)
  (owner avatar scheme comp0 comp1 addr tokenId : jsstring) : Prop :=
  has_avatar this owner avatar
  /\ token_reference avatar scheme comp0 comp1
  /\ is_erc721 scheme || is_erc1155 scheme = true
  /\ formatter_address w comp0 = Ok addr
  /\ token_word comp1 = Ok tokenId.

(** A computation only appends to the linkage. *)
Definition grows {A} (c : M A) : Prop :=
  forall st, exists l, st_linkage (snd (c st)) = st_linkage st ++ l.

(** A hexadecimal digit in lower case. *)
Definition is_lower_hex_digit (c : jschar) : bool :=
  is_digit c || ((97 <=? c)%N && (c <=? 102)%N).

(** The token number [n] written without upper-case letters: in decimal,
    or in hexadecimal after 0x. *)
Definition lower_numeral (comp1 : jsstring) (n : N) : Prop :=
  (comp1 <> [] /\ forallb is_digit comp1 = true /\ dec_value comp1 = n)
  \/ (exists ds,
        comp1 = js "0x" ++ ds /\ ds <> []
        /\ forallb is_lower_hex_digit ds = true /\ hex_value ds = Some n).

(** [pat] does not occur in [u] before position [n]. *)
Definition first_at (pat u : jsstring) (n : nat) : Prop :=
  forall i, (i < n)%nat -> strip_prefix pat (skipn i u) = None.

(** The ownership check of a token avatar has passed, leaving the run in
    state [st]. *)
Definition verified (w : World) (this : BitAccount)
  (owner avatar scheme comp0 comp1 addr tokenId : jsstring) (st : state)
  : Prop :=
  token_avatar w this owner avatar scheme comp0 comp1 addr tokenId
  /\ check_ownership w scheme owner addr tokenId
       (token_state this scheme avatar) = (Normal tt, st).

(** The metadata URL of a verified token avatar has been obtained. *)
Definition located (plugin : BitPluginAvatar) (w : World) (this : BitAccount)
  (owner avatar scheme comp0 comp1 addr tokenId metadataUrl : jsstring)
  (st : state) : Prop :=
  exists st0,
    verified w this owner avatar scheme comp0 comp1 addr tokenId st0
    /\ metadata_url plugin w scheme (selector_of scheme) comp0 tokenId st0
       = (Normal metadataUrl, st).

(** The failure conditions of a resolution. *)
Inductive failure (plugin : BitPluginAvatar) (w : World) (this : BitAccount)
  : Prop :=
| MissingOwnerKey :
    info this = Ok None
    \/ info this = Ok (Some {| owner_key := None |})
    \/ info this = Ok (Some {| owner_key := Some [] |}) ->
    failure plugin w this
| AbsentAvatarRecord owner :
    info this = Ok (Some {| owner_key := Some owner |}) ->
    records this (js "profile.avatar") = Ok []
    \/ (exists r rs, records this (js "profile.avatar") = Ok (r :: rs)
                     /\ value r = []) ->
    failure plugin w this
| UnmatchedScheme owner avatar :
    has_avatar this owner avatar ->
    (forall m, exec m avatar = None) ->
    failure plugin w this
| UnknownTokenStandard owner avatar match1 match2 :
    has_avatar this owner avatar ->
    exec matcherEip155 avatar = Some (match1, match2) ->
    is_erc721 (toLowerCase match1) || is_erc1155 (toLowerCase match1) = false ->
    failure plugin w this
| MalformedTokenReference owner avatar match1 match2 :
    has_avatar this owner avatar ->
    exec matcherEip155 avatar = Some (match1, match2) ->
    is_erc721 (toLowerCase match1) || is_erc1155 (toLowerCase match1) = true ->
    length (split 47%N match2) <> 2%nat
    \/ (exists comp0 comp1,
          split 47%N match2 = [comp0; comp1]
          /\ ((exists msg, formatter_address w comp0 = Err msg)
              \/ (exists msg, token_word comp1 = Err msg))) ->
    failure plugin w this
| OwnershipMismatch owner avatar comp0 comp1 addr tokenId r t :
    token_avatar w this owner avatar (js "erc721") comp0 comp1 addr tokenId ->
    provider_call w (ownerOf_tx addr tokenId) = Ok r ->
    formatter_callAddress w r = Ok t ->
    t <> Some owner ->
    failure plugin w this
| ZeroBalance owner avatar comp0 comp1 addr tokenId owner32 r balance :
    token_avatar w this owner avatar (js "erc1155") comp0 comp1 addr tokenId ->
    hexZeroPad owner 32 = Ok owner32 ->
    provider_call w (balanceOf_tx addr owner32 tokenId) = Ok r ->
    BigNumber_from r = Ok balance ->
    toBN balance = Ok 0%Z ->
    failure plugin w this
| AbiDecodeFailure owner avatar scheme comp0 comp1 addr tokenId st r :
    verified w this owner avatar scheme comp0 comp1 addr tokenId st ->
    provider_call w (metadata_tx scheme addr tokenId) = Ok r ->
    _parseString r 0 = Ok None ->
    failure plugin w this
| UnsupportedIpfsMetadata owner avatar scheme comp0 comp1 addr tokenId st r u msg :
    verified w this owner avatar scheme comp0 comp1 addr tokenId st ->
    provider_call w (metadata_tx scheme addr tokenId) = Ok r ->
    _parseString r 0 = Ok (Some u) ->
    translate plugin (expand scheme tokenId u) = Err msg ->
    failure plugin w this
| MetadataFetchFailure owner avatar scheme comp0 comp1 addr tokenId murl st :
    located plugin w this owner avatar scheme comp0 comp1 addr tokenId murl st ->
    (exists msg, fetchJson w murl = Err msg)
    \/ (exists md, fetchJson w murl = Ok md /\ falsy md = true) ->
    failure plugin w this
| MissingImageField owner avatar scheme comp0 comp1 addr tokenId murl st md :
    located plugin w this owner avatar scheme comp0 comp1 addr tokenId murl st ->
    fetchJson w murl = Ok md ->
    (forall img, get_property md (js "image") <> Some (JString img)) ->
    failure plugin w this
| UnsupportedIpfsFormat owner avatar scheme comp0 comp1 addr tokenId murl st
    md img :
    located plugin w this owner avatar scheme comp0 comp1 addr tokenId murl st ->
    fetchJson w murl = Ok md ->
    get_property md (js "image") = Some (JString img) ->
    starts_ci (js "https://") img = false ->
    starts_ci (js "data:") img = false ->
    exec matcherIpfs img = None ->
    failure plugin w this
| TransportFailure :
    (exists msg, info this = Err msg)
    \/ (exists owner msg,
          info this = Ok (Some {| owner_key := Some owner |})
          /\ records this (js "profile.avatar") = Err msg) ->
    failure plugin w this
| CallFailure owner avatar comp0 comp1 addr tokenId msg :
    token_avatar w this owner avatar (js "erc721") comp0 comp1 addr tokenId ->
    provider_call w (ownerOf_tx addr tokenId) = Err msg ->
    failure plugin w this
| MetadataCallFailure owner avatar scheme comp0 comp1 addr tokenId st msg :
    verified w this owner avatar scheme comp0 comp1 addr tokenId st ->
    provider_call w (metadata_tx scheme addr tokenId) = Err msg ->
    failure plugin w this
| ThrownError msg st :
    avatar_try plugin w this (entry_state this) = (Throw msg, st) ->
    failure plugin w this.

(** The completion of [avatar], through its [try] block. *)
Definition outcome_of (plugin : BitPluginAvatar) (w : World)
  (this : BitAccount) : completion unit :=
  fst (settle (avatar_try plugin w this (entry_state this))).

(** A computation that returns a result returns the whole linkage. *)
Definition whole {A} (c : M A) : Prop :=
  forall st r st',
    c st = (Return (Some r), st') -> linkage r = st_linkage st'.

(** A hexadecimal text of whole bytes. *)
Definition hex_data (h : jsstring) : Prop :=
  isHexString h = true /\ Nat.even (length h) = true.

End Spec.

(* ===================================================================== *)
(** ** Sample accounts and a sample world *)
(* ===================================================================== *)

Module Samples.
Import JS Ethers Avatar Spec.

Definition quote : jschar := 34%N.

(** [JSON.stringify] on sample documents: no escapes, the numerator of a
    number only. *)
Fixpoint stringify (v : json) : jsstring :=
  match v with
  | JNull => js "null"
  | JBool b => if b then js "true" else js "false"
  | JNumber num _ => BN_toString false num
  | JString s => quote :: s ++ [quote]
  | JArray items =>
      js "[" ++
      (fix go (l : list json) : jsstring :=
         match l with
         | [] => []
         | x :: l' =>
             stringify x ++ match l' with [] => [] | _ => js "," ++ go l' end
         end) items ++ js "]"
  | JObject fields =>
      js "{" ++
      (fix go (l : list (jsstring * json)) : jsstring :=
         match l with
         | [] => []
         | (k, x) :: l' =>
             quote :: k ++ [quote] ++ js ":" ++ stringify x ++
             match l' with [] => [] | _ => js "," ++ go l' end
         end) fields ++ js "}"
  end.

(** The contract of the test data quoted in the plugin, and an owner
    address in its checksum spelling and as the indexer reports keys, in
    lower case. *)
Definition contract : jsstring :=
  js "0x265385c7f4132228A0d54EB1A9e7460b91c0cC68".
Definition owner_checksum : jsstring :=
  js "0x8ba1f109551bD432803012645Ac136ddd64DBA72".
Definition owner_indexed : jsstring :=
  js "0x8ba1f109551bd432803012645ac136ddd64dba72".

(** The 32-byte word a contract returns for that owner. *)
Definition owner_word : jsstring :=
  js "0x000000000000000000000000" ++ skipn 2 owner_indexed.

(** A 32-byte word for a number. *)
Definition number_word (n : N) : jsstring := js "0x" ++ hex_of_bytes (word n).

(** [formatter.callAddress] on the sample chain: the checksum spelling of
    the one address it knows. *)
Definition sample_callAddress (r : jsstring) : result (option jsstring) :=
  if isHexString r && Nat.eqb (length r) 66
     && str_eqb (toLowerCase (skipn 26 r)) (skipn 2 owner_indexed)
  then Ok (Some owner_checksum)
  else Ok None.

(** A chain where every token belongs to the sample owner, with the given
    balance and metadata URI. *)
Definition sample_call (balance : N) (uri : jsstring) (tx : Tx)
  : result jsstring :=
  let selector := firstn 10 (tx_data tx) in
  if str_eqb selector selector_ownerOf then Ok owner_word
  else if str_eqb selector selector_balanceOf then Ok (number_word balance)
  else if str_eqb selector selector_tokenURI || str_eqb selector selector_uri
       then Ok (abi_encode_string uri)
  else Err "call revert exception".

(** A web that serves one document at one address. *)
Definition sample_fetch (address : jsstring) (document : json)
  (target : jsstring) : result json :=
  if str_eqb target address then Ok document else Err "missing response".

Definition sample_world (balance : N) (uri address : jsstring)
  (document : json) : World :=
  {| provider_call := sample_call balance uri;
     formatter_address := fun a => Ok a;
     formatter_callAddress := sample_callAddress;
     fetchJson := sample_fetch address document;
     JSON_stringify := stringify |}.

Definition sample_account (name owner avatar : jsstring) : BitAccount :=
  {| account := name;
     info := Ok (Some {| owner_key := Some owner |});
     records := fun key =>
       if str_eqb key (js "profile.avatar") then Ok [{| value := avatar |}]
       else Ok [] |}.

Definition default_plugin : BitPluginAvatar := new_BitPluginAvatar None.

Definition custom_plugin : BitPluginAvatar :=
  new_BitPluginAvatar (Some {| ipfsGateway := Some (js "https://ipfs.example") |}).

(** An ERC-721 avatar: token 7, metadata on IPFS, image on IPFS. *)
Definition avatar721 : jsstring :=
  js "eip155:1/erc721:0x265385c7f4132228A0d54EB1A9e7460b91c0cC68/7".
Definition image_document : json :=
  JObject [(js "image", JString (js "ipfs://QmImg"))].
Definition token7 : jsstring := number_word 7.

Definition world721 (gateway : jsstring) : World :=
  sample_world 0 (js "ipfs://Qm123") (gateway ++ js "/ipfs/Qm123")
    image_document.

(** An ERC-1155 avatar with a templated metadata URI. *)
Definition avatar1155 (token : jsstring) : jsstring :=
  js "eip155:1/erc1155:0x265385c7f4132228A0d54EB1A9e7460b91c0cC68/" ++ token.
Definition template : jsstring := js "https://token.example/{id}.json".

Definition world1155 (balance : N) : World :=
  sample_world balance template (js "https://token.example/none")
    image_document.

(** The sample owner padded to 32 bytes. *)
Definition owner32 : jsstring :=
  js "0x000000000000000000000000" ++ skipn 2 owner_checksum.

Definition jeffx (owner avatar : jsstring) : BitAccount :=
  sample_account (js "jeffx.bit") owner avatar.

(** An account without owner key. *)
Definition keyless : BitAccount :=
  {| account := js "nobody.bit";
     info := Ok (Some {| owner_key := None |});
     records := fun _ => Ok [] |}.

End Samples.

(* ===================================================================== *)
(** ** Further vocabulary *)
(* ===================================================================== *)

Module Further.
Import JS Ethers Avatar Spec.

(** A computation makes at most [k] provider calls. *)
Definition calls_within (k : nat) {A} (c : M A) : Prop :=
  forall st, exists l,
    st_calls (snd (c st)) = st_calls st ++ l /\ (length l <= k)%nat.

(** The last step of a returned linkage: of kind url or data and holding
    the returned url, or of kind ipfs and holding the link that
    [getIpfsLink] turns into the returned url with the gateway. *)
Definition closing_step (gateway : jsstring) (r : ResolvedAvatar) : Prop :=
  exists l s,
    linkage r = l ++ [s]
    /\ (((type s = js "url" \/ type s = js "data") /\ content s = url r)
        \/ (type s = js "ipfs"
            /\ getIpfsLink (content s) (Some gateway) = Ok (url r))).

(** A computation that returns a result ends its linkage with a closing
    step. *)
Definition closes (gateway : jsstring) {A} (c : M A) : Prop :=
  forall st r st', c st = (Return (Some r), st') -> closing_step gateway r.

(** [pat] occurs nowhere in [u]. *)
Definition absent (pat u : jsstring) : Prop :=
  forall i, strip_prefix pat (skipn i u) = None.

(** A token number written in decimal with a minus sign. *)
Definition negative_numeral (comp1 : jsstring) (n : N) : Prop :=
  exists ds,
    comp1 = minus_sign :: ds /\ ds <> []
    /\ forallb is_digit ds = true /\ dec_value ds = n /\ n <> 0%N.

(** No line terminator occurs in [s]. *)
Definition one_line (s : jsstring) : Prop :=
  Forall (fun c => is_line_terminator c = false) s.


(** The text an even number of digits long that [toHex] trims: one zero
    is put before an odd number of digits. *)
Definition even_digits (h : jsstring) : jsstring :=
  if Nat.odd (length h) then 48%N :: h else h.

(** A dynamic value whose length word declares [len] bytes, followed by
    [rest], whatever its length. *)
Definition abi_layout (gap : list N) (len : N) (rest : list N) : jsstring :=
  js "0x" ++
  hex_of_bytes (word (32 + N.of_nat (length gap)) ++ gap ++ word len ++ rest).

(** A byte that cannot begin a character in UTF-8: a continuation byte,
    or a byte from 248 on. *)
Definition stray_byte (b : N) : Prop :=
  ((128 <= b)%N /\ (b < 192)%N) \/ ((248 <= b)%N /\ (b < 256)%N).

(** What a returned url can be: an https or data link, or a link made
    by [getIpfsLink] with the plugin's gateway or with the default one. *)
Definition web_url (gateway u : jsstring) : Prop :=
  starts_ci (js "https://") u = true
  \/ starts_ci (js "data:") u = true
  \/ (exists rest, u = gateway ++ js "/ipfs/" ++ rest)
  \/ (exists rest, u = default_gateway ++ js "/ipfs/" ++ rest).

(** A computation that never returns a result itself. *)
Definition never_results {A} (c : M A) : Prop :=
  forall st r st', c st <> (Return (Some r), st').

(** The url of a result that a computation returns satisfies [P]. *)
Definition returns (P : jsstring -> Prop) {A} (c : M A) : Prop :=
  forall st r st', c st = (Return (Some r), st') -> P (url r).

(** The value a computation completes with satisfies [Q]. *)
Definition yields {A} (Q : A -> Prop) (c : M A) : Prop :=
  forall st a st', c st = (Normal a, st') -> Q a.

(** The kinds of linkage steps. *)
Definition kinds : list jsstring :=
  [js "account"; js "url"; js "data"; js "ipfs"; js "erc721"; js "erc1155";
   js "owner"; js "balance"; js "metadata-url-base";
   js "metadata-url-expanded"; js "metadata-url"; js "metadata";
   js "url-ipfs"].

Definition known_kind (s : LinkageStep) : bool :=
  existsb (str_eqb (type s)) kinds.

(** A computation appends at most [k] steps to the linkage, all of
    known kinds. *)
Definition adds (k : nat) {A} (c : M A) : Prop :=
  forall st, exists l,
    st_linkage (snd (c st)) = st_linkage st ++ l
    /\ (length l <= k)%nat /\ forallb known_kind l = true.

End Further.

(* ===================================================================== *)
(** ** Further samples *)
(* ===================================================================== *)

Module MoreSamples.
Import JS Ethers Avatar Spec Samples.

(** A metadata document whose image is an https link. *)
Definition picture : jsstring := js "https://img.example/a.png".
Definition picture_document : json :=
  JObject [(js "name", JString (js "five")); (js "image", JString picture)].

(** The metadata address of token 5 under the sample template. *)
Definition expanded5 : jsstring :=
  js "https://token.example/" ++ skipn 2 (number_word 5) ++ js ".json".

(** The ERC-1155 chain of the samples, serving the document of token 5. *)
Definition world1155_picture (balance : N) : World :=
  sample_world balance template expanded5 picture_document.



End MoreSamples.

(* ===================================================================== *)
(** ** Account names (tools/account.ts) *)
(* ===================================================================== *)

Module Account.
Import JS.

Definition dot : jschar := 46%N.
Definition hash : jschar := 35%N.
Definition dot_bit : jsstring := js ".bit".

(** The test of the pattern "one character or more, then .bit", which
    is not anchored.  The search succeeds when at some position a run of
    characters other than line terminators is followed by the text
    .bit; such a run exists exactly when the one character before an
    occurrence of .bit is no line terminator, which is what is looked
    for at each position. *)
Fixpoint test_some_dot_bit (s : jsstring) : bool :=
  match s with
  | [] => false
  | c :: s' =>
      (negb (is_line_terminator c)
       && match strip_prefix dot_bit s' with Some _ => true | None => false end)
      || test_some_dot_bit s'
  end.

(** [String.prototype.split] with the pattern "any character, then #":
    the input is scanned from the left; where a character other than a
    line terminator is followed by #, the piece read so far ends and the
    two characters are dropped; the rest after the last match is the
    last piece. *)
Fixpoint split_char_hash (s : jsstring) : list jsstring :=
  match s with
  | [] => [[]]
  | c :: s' =>
      match s' with
      | h :: s'' =>
          if negb (is_line_terminator c) && char_eqb h hash
          then [] :: split_char_hash s''
          else match split_char_hash s' with
               | piece :: pieces => (c :: piece) :: pieces
               | [] => [[c]]
               end
      | [] => [[c]]
      end
  end.

(** [Boolean(v.length)]. *)
Definition nonempty (v : jsstring) : bool := negb (Nat.eqb (length v) 0).

Definition isSupportedAccount (account : jsstring) : bool :=
  test_some_dot_bit account && forallb nonempty (split_char_hash account).

(** [String.prototype.includes] with a one-character text. *)
Definition includes (c : jschar) (s : jsstring) : bool :=
  existsb (fun x => char_eqb x c) s.

(** An element of a destructured array inside a template literal: a
    missing element is [undefined] and prints as that word. *)
Definition template_part (o : option jsstring) : jsstring :=
  match o with Some s => s | None => js "undefined" end.

(** [toDottedStyle].  [split] returns one piece at least, so the first
    element of the destructuring is always there. *)
Definition toDottedStyle (inputAccount : jsstring) : jsstring :=
  if negb (isSupportedAccount inputAccount) then inputAccount
  else if negb (includes hash inputAccount) then inputAccount
  else
    let parts := split dot inputAccount in
    let account := hd [] parts in
    let suffix := nth_error parts 1 in
    let names := split hash account in
    let main := nth_error names 0 in
    let sub := nth_error names 1 in
    template_part sub ++ js "." ++ template_part main ++ js "."
      ++ template_part suffix.

Definition toHashedStyle (inputAccount : jsstring) : jsstring :=
  if negb (isSupportedAccount inputAccount) then inputAccount
  else if includes hash inputAccount then inputAccount
  else
    match split dot inputAccount with
    | [sub; main; suffix] => main ++ js "#" ++ sub ++ js "." ++ suffix
    | _ => inputAccount
    end.

Definition isSubAccount (account : jsstring) : bool :=
  (3 <=? length (split dot account))%nat.

(** [account.replace] with the pattern ".bit at the end of the input"
    and the empty replacement: the first position where the rest of the
    input is exactly .bit is where the text is cut. *)
Fixpoint trimAccountSuffix (account : jsstring) : jsstring :=
  if str_eqb account dot_bit then []
  else match account with
       | [] => []
       | c :: rest => c :: trimAccountSuffix rest
       end.

(** The number of dots of a name. *)
Definition dots (s : jsstring) : nat :=
  length (filter (fun c => char_eqb c dot) s).

(** A character of a label: no dot, no #, no line terminator. *)
Definition label_char (c : jschar) : bool :=
  negb (char_eqb c dot) && negb (char_eqb c hash)
  && negb (is_line_terminator c).

(** A label: one character or more, all of them label characters. *)
Definition label (s : jsstring) : Prop :=
  s <> [] /\ forallb label_char s = true.

End Account.

(* ===================================================================== *)
(** ** Strings: prefixes and slices *)
(* ===================================================================== *)

Module StringFacts.
Import JS Spec.

Lemma eq_ci_length p m : eq_ci p m -> length m = length p.
Proof.
  intros H. induction H; simpl; congruence.
Qed.

Lemma strip_ci_app p m rest :
  eq_ci p m -> strip_ci p (m ++ rest) = Some (m, rest).
Proof.
  intros H. induction H as [|pc c p m Hc _ IH]; simpl.
  - reflexivity.
  - rewrite Hc, IH. reflexivity.
Qed.

Lemma strip_ci_inv p : forall s m rest,
  strip_ci p s = Some (m, rest) -> s = m ++ rest /\ eq_ci p m.
Proof.
  induction p as [|pc p IH]; intros s m rest H; simpl in H.
  - inversion H; subst. split; [reflexivity | constructor].
  - destruct s as [|c s]; [discriminate|].
    destruct (ci_char pc c) eqn:Hc; [|discriminate].
    destruct (strip_ci p s) as [[m' rest']|] eqn:Hs; [|discriminate].
    inversion H; subst. destruct (IH _ _ _ Hs) as [-> Hm].
    split; [reflexivity | constructor; assumption].
Qed.

Lemma strip_ci_pattern_app a b s :
  strip_ci (a ++ b) s =
  match strip_ci a s with
  | Some (m, r) =>
      match strip_ci b r with
      | Some (m', r') => Some (m ++ m', r')
      | None => None
      end
  | None => None
  end.
Proof.
  revert s. induction a as [|pc a IH]; intros s; simpl.
  - destruct (strip_ci b s) as [[m' r']|]; reflexivity.
  - destruct s as [|c s]; [reflexivity|].
    destruct (ci_char pc c); [|reflexivity].
    rewrite IH. destruct (strip_ci a s) as [[m r]|]; [|reflexivity].
    destruct (strip_ci b r) as [[m' r']|]; reflexivity.
Qed.

Lemma starts_ci_app p m rest : eq_ci p m -> starts_ci p (m ++ rest) = true.
Proof.
  intros H. unfold starts_ci. rewrite (strip_ci_app _ _ _ H). reflexivity.
Qed.

Lemma starts_ci_pattern_app a b m rest :
  eq_ci a m -> starts_ci (a ++ b) (m ++ rest) = starts_ci b rest.
Proof.
  intros H. unfold starts_ci. rewrite strip_ci_pattern_app.
  rewrite (strip_ci_app _ _ _ H).
  destruct (strip_ci b rest) as [[m' r']|]; reflexivity.
Qed.

Lemma starts_ci_false_iff p s :
  starts_ci p s = false <-> (forall m rest, s = m ++ rest -> ~ eq_ci p m).
Proof.
  unfold starts_ci. split.
  - intros H m rest -> Hm. rewrite (strip_ci_app _ _ _ Hm) in H. discriminate.
  - intros H. destruct (strip_ci p s) as [[m rest]|] eqn:Hs; [|reflexivity].
    destruct (strip_ci_inv _ _ _ _ Hs) as [E Hm]. exfalso. exact (H _ _ E Hm).
Qed.

Lemma clamp_inside len i :
  (0 <= i <= Z.of_nat len)%Z -> clamp len i = Z.to_nat i.
Proof.
  intros H. unfold clamp. f_equal. lia.
Qed.

Lemma substring_from_app (m rest : jsstring) :
  substring_from (m ++ rest) (Z.of_nat (length m)) = rest.
Proof.
  unfold substring_from. rewrite clamp_inside.
  - rewrite Nat2Z.id. rewrite skipn_app, skipn_all, Nat.sub_diag. reflexivity.
  - rewrite length_app. lia.
Qed.

Lemma substring_middle (a b c : jsstring) :
  substring (a ++ b ++ c) (Z.of_nat (length a))
            (Z.of_nat (length a + length b)) = b.
Proof.
  unfold substring.
  rewrite !clamp_inside by (rewrite !length_app; lia).
  rewrite !Nat2Z.id.
  rewrite Nat.min_l, Nat.max_r by lia.
  rewrite skipn_app, skipn_all, Nat.sub_diag. simpl.
  replace (length a + length b - length a)%nat with (length b) by lia.
  rewrite firstn_app, firstn_all, Nat.sub_diag. simpl. apply app_nil_r.
Qed.

Lemma str_eqb_refl s : str_eqb s s = true.
Proof.
  induction s as [|c s IH]; simpl; [reflexivity|].
  unfold char_eqb. rewrite N.eqb_refl. exact IH.
Qed.

Lemma str_eqb_eq a : forall b, str_eqb a b = true <-> a = b.
Proof.
  induction a as [|x a IH]; intros [|y b]; simpl; split; intros H;
    try reflexivity; try discriminate.
  - apply andb_true_iff in H. destruct H as [H1 H2].
    apply N.eqb_eq in H1. apply IH in H2. congruence.
  - inversion H; subst. unfold char_eqb. rewrite N.eqb_refl.
    apply IH. reflexivity.
Qed.

Lemma Ok_inj {A} (a b : A) : Ok a = Ok b -> a = b.
Proof. intros H. injection H. auto. Qed.

Lemma rbind_ok_inv {A B} (r : result A) (k : A -> result B) v :
  rbind r k = Ok v -> exists a, r = Ok a /\ k a = Ok v.
Proof.
  destruct r as [a|msg]; simpl; intros H; [eauto | discriminate].
Qed.

End StringFacts.

(* ===================================================================== *)
(** ** The IPFS link translator *)
(* ===================================================================== *)

Module IpfsLink.
Import JS Avatar Spec StringFacts.

Lemma getIpfsLink_long_prefix link gateway p cid :
  link = p ++ cid -> eq_ci (js "ipfs://ipfs/") p ->
  getIpfsLink link gateway = Ok (gateway_of gateway ++ js "/ipfs/" ++ cid).
Proof.
  intros -> Hp. unfold getIpfsLink.
  rewrite (starts_ci_app _ _ _ Hp).
  replace 12%Z with (Z.of_nat (length p))
    by (rewrite (eq_ci_length _ _ Hp); reflexivity).
  rewrite substring_from_app. reflexivity.
Qed.

Lemma getIpfsLink_short_prefix link gateway p cid :
  link = p ++ cid -> eq_ci (js "ipfs://") p ->
  starts_ci (js "ipfs/") cid = false ->
  getIpfsLink link gateway = Ok (gateway_of gateway ++ js "/ipfs/" ++ cid).
Proof.
  intros -> Hp Hcid. unfold getIpfsLink.
  change (js "ipfs://ipfs/") with (js "ipfs://" ++ js "ipfs/").
  rewrite (starts_ci_pattern_app _ _ _ _ Hp), Hcid.
  rewrite (starts_ci_app _ _ _ Hp).
  replace 7%Z with (Z.of_nat (length p))
    by (rewrite (eq_ci_length _ _ Hp); reflexivity).
  rewrite substring_from_app. reflexivity.
Qed.

Lemma getIpfsLink_no_prefix link gateway :
  starts_ci (js "ipfs://") link = false ->
  getIpfsLink link gateway = Err "unsupported IPFS format".
Proof.
  intros H. unfold getIpfsLink.
  assert (H' : starts_ci (js "ipfs://ipfs/") link = false).
  { apply starts_ci_false_iff. intros m rest -> Hm.
    change (js "ipfs://ipfs/") with (js "ipfs://" ++ js "ipfs/") in Hm.
    apply Forall2_app_inv_l in Hm. destruct Hm as (m1 & m2 & H1 & _ & ->).
    rewrite <- app_assoc in H.
    rewrite (starts_ci_app _ _ _ H1) in H. discriminate. }
  rewrite H', H. reflexivity.
Qed.

(** C6. [getIpfsLink] strips one accepted prefix, the longer
    [ipfs://ipfs/] first or else [ipfs://] (letters of either case), and
    returns the gateway, [/ipfs/] and the remainder; an input with neither
    prefix throws the unsupported-format error. *)
Theorem getIpfsLink_strips_one_prefix (link : jsstring)
  (gateway : option jsstring) :
  (forall p cid, link = p ++ cid -> eq_ci (js "ipfs://ipfs/") p ->
     getIpfsLink link gateway
     = Ok (gateway_of gateway ++ js "/ipfs/" ++ cid))
  /\ (forall p cid, link = p ++ cid -> eq_ci (js "ipfs://") p ->
        starts_ci (js "ipfs/") cid = false ->
        getIpfsLink link gateway
        = Ok (gateway_of gateway ++ js "/ipfs/" ++ cid))
  /\ ((forall p cid, link = p ++ cid -> ~ eq_ci (js "ipfs://") p) ->
        getIpfsLink link gateway = Err "unsupported IPFS format").
Proof.
  split; [|split].
  - intros p cid. apply getIpfsLink_long_prefix.
  - intros p cid. apply getIpfsLink_short_prefix.
  - intros H. apply getIpfsLink_no_prefix. apply starts_ci_false_iff. exact H.
Qed.

End IpfsLink.

(* ===================================================================== *)
(** ** The ABI dynamic decoder *)
(* ===================================================================== *)

Module Abi.
Import JS Ethers Avatar Spec StringFacts.

Local Open Scope N_scope.

Lemma hex_digit_ok d :
  d < 16 ->
  is_hex_digit (hex_digit d) = true /\ hex_digit_value (hex_digit d) = Some d.
Proof.
  intros H. destruct d as [|p]; [split; reflexivity|].
  do 5 (try (destruct p as [p|p|])); try lia; split; reflexivity.
Qed.

Lemma hex_of_bytes_app a b :
  hex_of_bytes (a ++ b) = hex_of_bytes a ++ hex_of_bytes b.
Proof. apply flat_map_app. Qed.

Lemma hex_of_bytes_length bs :
  length (hex_of_bytes bs) = (2 * length bs)%nat.
Proof.
  induction bs as [|b bs IH]; simpl; [reflexivity|]. rewrite IH. lia.
Qed.

Lemma hex_of_bytes_digits bs :
  are_bytes bs -> forallb is_hex_digit (hex_of_bytes bs) = true.
Proof.
  intros H. induction H as [|b bs Hb _ IH]; [reflexivity|].
  cbn [hex_of_bytes flat_map hex_of_byte app forallb].
  fold (hex_of_bytes bs). rewrite IH.
  destruct (hex_digit_ok (b / 16)) as [-> _].
  { apply N.Div0.div_lt_upper_bound. lia. }
  destruct (hex_digit_ok (b mod 16)) as [-> _].
  { apply N.mod_lt. lia. }
  reflexivity.
Qed.

Lemma bytes_of_hex_of_bytes bs :
  are_bytes bs -> bytes_of_hex (hex_of_bytes bs) = Some bs.
Proof.
  intros H. induction H as [|b bs Hb _ IH]; [reflexivity|].
  cbn [hex_of_bytes flat_map hex_of_byte app bytes_of_hex].
  fold (hex_of_bytes bs). rewrite IH.
  destruct (hex_digit_ok (b / 16)) as [_ ->].
  { apply N.Div0.div_lt_upper_bound. lia. }
  destruct (hex_digit_ok (b mod 16)) as [_ ->].
  { apply N.mod_lt. lia. }
  rewrite <- N.div_mod by lia. reflexivity.
Qed.

Lemma hex_value_from_app ds1 : forall acc ds2,
  hex_value_from acc (ds1 ++ ds2) =
  match hex_value_from acc ds1 with
  | Some a => hex_value_from a ds2
  | None => None
  end.
Proof.
  induction ds1 as [|c ds1 IH]; intros acc ds2; simpl; [reflexivity|].
  destruct (hex_digit_value c); [apply IH | reflexivity].
Qed.

Lemma hex_value_from_byte acc b :
  b < 256 -> hex_value_from acc (hex_of_byte b) = Some (256 * acc + b).
Proof.
  intros Hb. cbn [hex_of_byte hex_value_from].
  destruct (hex_digit_ok (b / 16)) as [_ ->].
  { apply N.Div0.div_lt_upper_bound. lia. }
  destruct (hex_digit_ok (b mod 16)) as [_ ->].
  { apply N.mod_lt. lia. }
  f_equal. pose proof (N.div_mod b 16). lia.
Qed.

Lemma be_bytes_are_bytes k : forall n, are_bytes (be_bytes k n).
Proof.
  induction k as [|k IH]; intros n; simpl; [constructor|].
  apply Forall_app. split; [apply IH|].
  constructor; [|constructor]. apply N.mod_lt. lia.
Qed.

Lemma be_bytes_length k : forall n, length (be_bytes k n) = k.
Proof.
  induction k as [|k IH]; intros n; simpl; [reflexivity|].
  rewrite length_app, IH. simpl. lia.
Qed.

Lemma hex_value_from_be_bytes k : forall n acc,
  n < 256 ^ N.of_nat k ->
  hex_value_from acc (hex_of_bytes (be_bytes k n))
  = Some (acc * 256 ^ N.of_nat k + n).
Proof.
  induction k as [|k IH]; intros n acc Hn.
  - simpl in *. f_equal. lia.
  - cbn [be_bytes]. rewrite hex_of_bytes_app, hex_value_from_app.
    assert (Hpow : 256 ^ N.of_nat (S k) = 256 * 256 ^ N.of_nat k).
    { rewrite Nat2N.inj_succ, N.pow_succ_r'. reflexivity. }
    rewrite IH.
    + cbn [hex_of_bytes flat_map]. rewrite app_nil_r.
      rewrite hex_value_from_byte by (apply N.mod_lt; lia).
      f_equal. rewrite Hpow. pose proof (N.div_mod n 256). lia.
    + apply N.Div0.div_lt_upper_bound. lia.
Qed.

Lemma trim00_value : forall k ds,
  (length ds <= k)%nat -> hex_value (trim00 ds) = hex_value ds.
Proof.
  induction k as [|k IH]; intros ds Hk.
  - destruct ds; [reflexivity | simpl in Hk; lia].
  - destruct ds as [|c1 [|c2 rest]]; try reflexivity.
    cbn [trim00].
    destruct (char_eqb c1 48) eqn:H1; [|reflexivity].
    destruct (char_eqb c2 48) eqn:H2; [|reflexivity].
    destruct (Nat.eqb (length rest) 0); [reflexivity|].
    cbn [andb negb]. rewrite IH by (simpl in Hk; lia).
    apply N.eqb_eq in H1, H2. subst. reflexivity.
Qed.

Local Close Scope N_scope.

Lemma isHexString_0x ds :
  isHexString (js "0x" ++ ds) = forallb is_hex_digit ds.
Proof. reflexivity. Qed.

(** A word of hexadecimal digits read back as a number. *)
Lemma number_of_hex_word ds n :
  ds <> [] -> forallb is_hex_digit ds = true ->
  Nat.even (length ds) = true ->
  hex_value ds = Some n -> (n < 2 ^ 53)%N ->
  rbind (BigNumber_from (js "0x" ++ ds)) toNumber = Ok (Z.of_N n).
Proof.
  intros Hne Hhex Heven Hval Hn.
  unfold BigNumber_from.
  assert (Hlit : is_hex_literal (js "0x" ++ ds) = true).
  { unfold is_hex_literal. cbn. rewrite Hhex.
    destruct ds; [congruence | reflexivity]. }
  rewrite Hlit.
  assert (Hhexed : toHex (js "0x" ++ ds) = Ok (js "0x" ++ trim00 ds)).
  { change (toHex (js "0x" ++ ds)) with (Ok (toHex_unsigned (js "0x" ++ ds))).
    f_equal. unfold toHex_unsigned.
    replace (substring (js "0x" ++ ds) 0 2) with (js "0x")
      by (symmetry; exact (substring_middle [] (js "0x") ds)).
    rewrite str_eqb_refl.
    replace (str_eqb (js "0x" ++ ds) (js "0x")) with false
      by (destruct ds; [congruence | reflexivity]).
    replace (Nat.odd (length (js "0x" ++ ds))) with false.
    2:{ rewrite length_app. change (length (js "0x")) with 2%nat.
        cbn [Nat.add]. rewrite Nat.odd_succ, Nat.even_succ.
        rewrite <- Nat.negb_even, Heven. reflexivity. }
    f_equal. f_equal. apply (substring_from_app (js "0x")). }
  rewrite Hhexed. cbn [rbind]. unfold toNumber, toBN. cbn [_hex].
  change (strip_minus (js "0x" ++ trim00 ds)) with (false, js "0x" ++ trim00 ds).
  cbv beta iota.
  replace (substring_from (js "0x" ++ trim00 ds) 2) with (trim00 ds).
  2:{ symmetry. apply (substring_from_app (js "0x")). }
  rewrite (trim00_value (length ds)) by lia. rewrite Hval. cbn [rbind].
  replace (Z.abs (Z.of_N n) <? 2 ^ 53)%Z with true; [reflexivity|].
  symmetry. apply Z.ltb_lt. rewrite Z.abs_eq by lia.
  change (2 ^ 53)%Z with (Z.of_N (2 ^ 53)). lia.
Qed.

Lemma number_of_word n :
  (n < 2 ^ 53)%N ->
  exists b, BigNumber_from (js "0x" ++ hex_of_bytes (word n)) = Ok b
            /\ toNumber b = Ok (Z.of_N n).
Proof.
  intros Hn. apply rbind_ok_inv. apply number_of_hex_word.
  - intros E. apply (f_equal (@length _)) in E.
    rewrite hex_of_bytes_length in E. unfold word in E.
    rewrite be_bytes_length in E. discriminate.
  - apply hex_of_bytes_digits, be_bytes_are_bytes.
  - rewrite hex_of_bytes_length. unfold word. rewrite be_bytes_length.
    reflexivity.
  - unfold hex_value, word. rewrite hex_value_from_be_bytes.
    + reflexivity.
    + eapply N.lt_trans; [exact Hn | reflexivity].
  - exact Hn.
Qed.

Lemma hexDataSlice_middle a b c i j :
  are_bytes (a ++ b ++ c) ->
  i = Z.of_nat (length a) -> j = Z.of_nat (length a + length b) ->
  hexDataSlice (js "0x" ++ hex_of_bytes (a ++ b ++ c)) i j
  = Ok (js "0x" ++ hex_of_bytes b).
Proof.
  intros Hb -> ->. unfold hexDataSlice.
  rewrite isHexString_0x, (hex_of_bytes_digits _ Hb).
  replace (Nat.odd (length (js "0x" ++ hex_of_bytes (a ++ b ++ c))))
    with false.
  2:{ rewrite length_app, hex_of_bytes_length.
      change (length (js "0x")) with 2%nat.
      rewrite Nat.odd_add_mul_2. reflexivity. }
  cbn [negb orb]. f_equal. f_equal.
  rewrite !hex_of_bytes_app, app_assoc.
  replace (2 + 2 * Z.of_nat (length a))%Z
    with (Z.of_nat (length (js "0x" ++ hex_of_bytes a))).
  2:{ rewrite length_app, hex_of_bytes_length.
      change (length (js "0x")) with 2%nat. lia. }
  replace (2 + 2 * Z.of_nat (length a + length b))%Z
    with (Z.of_nat (length (js "0x" ++ hex_of_bytes a)
                    + length (hex_of_bytes b))).
  2:{ rewrite length_app, !hex_of_bytes_length.
      change (length (js "0x")) with 2%nat. lia. }
  apply substring_middle.
Qed.

Lemma parseBytes_dynamic gap bytes tail :
  are_bytes gap -> are_bytes bytes -> are_bytes tail ->
  (32 + N.of_nat (length gap) < 2 ^ 53)%N ->
  (N.of_nat (length bytes) < 2 ^ 53)%N ->
  _parseBytes (abi_encode_dynamic gap bytes tail) 0
  = Ok (Some (js "0x" ++ hex_of_bytes bytes)).
Proof.
  intros Hgap Hbytes Htail Hoff Hlen.
  set (w1 := word (32 + N.of_nat (length gap))).
  set (w2 := word (N.of_nat (length bytes))).
  assert (Hw1 : length w1 = 32%nat) by apply be_bytes_length.
  assert (Hw2 : length w2 = 32%nat) by apply be_bytes_length.
  assert (Hall : are_bytes (w1 ++ gap ++ w2 ++ bytes ++ tail)).
  { unfold are_bytes. rewrite !Forall_app.
    repeat split; try assumption; apply be_bytes_are_bytes. }
  unfold _parseBytes, abi_encode_dynamic. fold w1 w2.
  destruct (str_eqb _ (js "0x")) eqn:E.
  { apply str_eqb_eq in E. apply (f_equal (@length _)) in E.
    rewrite length_app, hex_of_bytes_length, length_app, Hw1 in E.
    simpl in E. lia. }
  rewrite (hexDataSlice_middle [] w1 (gap ++ w2 ++ bytes ++ tail));
    [| exact Hall | reflexivity | rewrite Hw1; reflexivity].
  cbn [rbind].
  destruct (number_of_word _ Hoff) as (b1 & Hb1 & Hn1). fold w1 in Hb1.
  rewrite Hb1. cbn [rbind]. rewrite Hn1. cbn [rbind].
  replace (w1 ++ gap ++ w2 ++ bytes ++ tail)
    with ((w1 ++ gap) ++ w2 ++ bytes ++ tail) by (rewrite <- app_assoc; reflexivity).
  rewrite (hexDataSlice_middle (w1 ++ gap) w2 (bytes ++ tail));
    [| rewrite <- app_assoc; exact Hall
     | rewrite length_app, Hw1; lia
     | rewrite length_app, Hw1, Hw2; lia].
  cbn [rbind].
  destruct (number_of_word _ Hlen) as (b2 & Hb2 & Hn2). fold w2 in Hb2.
  rewrite Hb2. cbn [rbind]. rewrite Hn2. cbn [rbind].
  replace ((w1 ++ gap) ++ w2 ++ bytes ++ tail)
    with ((w1 ++ gap ++ w2) ++ bytes ++ tail)
    by (rewrite <- !app_assoc; reflexivity).
  rewrite (hexDataSlice_middle (w1 ++ gap ++ w2) bytes tail);
    [| rewrite <- !app_assoc; exact Hall
     | rewrite !length_app, Hw1, Hw2; lia
     | rewrite !length_app, Hw1, Hw2; lia].
  reflexivity.
Qed.

(** *** UTF-8 *)

Local Open Scope N_scope.

Lemma below_cases (k : nat) (P : N -> bool) :
  forallb P (map N.of_nat (seq 0 k)) = true ->
  forall b, b < N.of_nat k -> P b = true.
Proof.
  intros H b Hb. rewrite forallb_forall in H. apply H.
  apply in_map_iff. exists (N.to_nat b). split; [apply N2Nat.id|].
  apply in_seq. lia.
Qed.

Lemma lead2 h :
  h < 32 ->
  (N.shiftr (192 + h) 7 =? 0) = false
  /\ (N.land (192 + h) 224 =? 192) = true
  /\ N.land (192 + h) 31 = h.
Proof.
  intros Hh.
  pose proof (below_cases 32
    (fun h => negb (N.shiftr (192 + h) 7 =? 0)
              && (N.land (192 + h) 224 =? 192)
              && (N.land (192 + h) 31 =? h)) eq_refl h Hh) as H.
  cbv beta in H. apply andb_true_iff in H. destruct H as [H H3].
  apply andb_true_iff in H. destruct H as [H1 H2].
  apply negb_true_iff in H1. apply N.eqb_eq in H3. auto.
Qed.

Lemma lead3 h :
  h < 16 ->
  (N.shiftr (224 + h) 7 =? 0) = false
  /\ (N.land (224 + h) 224 =? 192) = false
  /\ (N.land (224 + h) 240 =? 224) = true
  /\ N.land (224 + h) 15 = h.
Proof.
  intros Hh.
  pose proof (below_cases 16
    (fun h => negb (N.shiftr (224 + h) 7 =? 0)
              && negb (N.land (224 + h) 224 =? 192)
              && (N.land (224 + h) 240 =? 224)
              && (N.land (224 + h) 15 =? h)) eq_refl h Hh) as H.
  cbv beta in H. apply andb_true_iff in H. destruct H as [H H4].
  apply andb_true_iff in H. destruct H as [H H3].
  apply andb_true_iff in H. destruct H as [H1 H2].
  apply negb_true_iff in H1, H2. apply N.eqb_eq in H4. auto.
Qed.

Lemma lead4 h :
  h < 8 ->
  (N.shiftr (240 + h) 7 =? 0) = false
  /\ (N.land (240 + h) 224 =? 192) = false
  /\ (N.land (240 + h) 240 =? 224) = false
  /\ (N.land (240 + h) 248 =? 240) = true
  /\ N.land (240 + h) 7 = h.
Proof.
  intros Hh.
  pose proof (below_cases 8
    (fun h => negb (N.shiftr (240 + h) 7 =? 0)
              && negb (N.land (240 + h) 224 =? 192)
              && negb (N.land (240 + h) 240 =? 224)
              && (N.land (240 + h) 248 =? 240)
              && (N.land (240 + h) 7 =? h)) eq_refl h Hh) as H.
  cbv beta in H. apply andb_true_iff in H. destruct H as [H H5].
  apply andb_true_iff in H. destruct H as [H H4].
  apply andb_true_iff in H. destruct H as [H H3].
  apply andb_true_iff in H. destruct H as [H1 H2].
  apply negb_true_iff in H1, H2, H3. apply N.eqb_eq in H5. auto.
Qed.

Lemma continuation l :
  l < 64 -> is_continuation (128 + l) = true /\ N.land (128 + l) 63 = l.
Proof.
  intros Hl.
  pose proof (below_cases 64
    (fun l => is_continuation (128 + l) && (N.land (128 + l) 63 =? l))
    eq_refl l Hl) as H.
  cbv beta in H. apply andb_true_iff in H. destruct H as [H1 H2].
  apply N.eqb_eq in H2. auto.
Qed.

Lemma lor_shiftl_add a l k :
  l < 2 ^ k -> N.lor (N.shiftl a k) l = a * 2 ^ k + l.
Proof.
  intros Hl. rewrite N.shiftl_mul_pow2.
  assert (Hland : N.land (a * 2 ^ k) l = 0).
  { apply N.bits_inj_0. intros m. rewrite N.land_spec.
    destruct (N.lt_ge_cases m k) as [Hm|Hm].
    - rewrite N.mul_pow2_bits_low by exact Hm. reflexivity.
    - destruct (N.eq_dec l 0) as [->|Hl0].
      + rewrite N.bits_0. apply andb_false_r.
      + rewrite (N.bits_above_log2 l m), andb_false_r; [reflexivity|].
        apply N.lt_le_trans with k; [|exact Hm].
        apply N.log2_lt_pow2; [lia | exact Hl]. }
  rewrite <- N.lxor_lor, <- N.add_nocarry_lxor by exact Hland. reflexivity.
Qed.

Lemma add_bits_continuation res l :
  l < 64 -> add_bits res (128 + l) = res * 64 + l.
Proof.
  intros Hl. unfold add_bits. rewrite (proj2 (continuation l Hl)).
  exact (lor_shiftl_add res l 6 Hl).
Qed.

Lemma check_code_point_ok cp mask :
  is_scalar cp -> mask < cp -> check_code_point cp mask = Ok cp.
Proof.
  intros Hs Hm. unfold check_code_point.
  replace (1114111 <? cp) with false
    by (symmetry; apply N.ltb_ge; destruct Hs; lia).
  replace ((55296 <=? cp) && (cp <=? 57343))%bool with false.
  2:{ symmetry. apply andb_false_iff. destruct Hs as [Hs|[Hs _]].
      - left. apply N.leb_gt. exact Hs.
      - right. apply N.leb_gt. exact Hs. }
  replace (cp <=? mask) with false by (symmetry; apply N.leb_gt; exact Hm).
  reflexivity.
Qed.

Lemma mod_lt_64 a : a mod 64 < 64.
Proof. apply N.mod_lt. lia. Qed.

(** One code point decoded. *)
Lemma decode_code_point cp rest :
  is_scalar cp ->
  getUtf8CodePoints (utf8_of_code_point cp ++ rest)
  = rbind (getUtf8CodePoints rest) (fun cps => Ok (cp :: cps)).
Proof.
  intros Hs. unfold utf8_of_code_point.
  assert (Hcp : cp < 1114112) by (destruct Hs; lia).
  pose proof (N.div_mod cp 64) as D1.
  pose proof (N.div_mod (cp / 64) 64) as D2.
  pose proof (N.div_mod (cp / 4096) 64) as D3.
  pose proof (mod_lt_64 cp) as M1.
  pose proof (mod_lt_64 (cp / 64)) as M2.
  pose proof (mod_lt_64 (cp / 4096)) as M3.
  assert (E2 : cp / 64 / 64 = cp / 4096) by (rewrite N.Div0.div_div; reflexivity).
  assert (E3 : cp / 4096 / 64 = cp / 262144)
    by (rewrite N.Div0.div_div; reflexivity).
  destruct (cp <? 128) eqn:R1.
  { apply N.ltb_lt in R1. cbn [app getUtf8CodePoints].
    replace (N.shiftr cp 7 =? 0) with true; [reflexivity|].
    symmetry. apply N.eqb_eq. rewrite N.shiftr_div_pow2.
    apply N.div_small. exact R1. }
  apply N.ltb_ge in R1.
  destruct (cp <? 2048) eqn:R2.
  { apply N.ltb_lt in R2.
    assert (Hh : cp / 64 < 32) by (apply N.Div0.div_lt_upper_bound; lia).
    destruct (lead2 _ Hh) as (L1 & L2 & L3).
    cbn [app getUtf8CodePoints]. rewrite L1, L2.
    rewrite (proj1 (continuation _ M1)), L3.
    rewrite (add_bits_continuation _ _ M1).
    replace (cp / 64 * 64 + cp mod 64) with cp by lia.
    rewrite (check_code_point_ok cp 127 Hs) by lia. reflexivity. }
  apply N.ltb_ge in R2.
  destruct (cp <? 65536) eqn:R3.
  { apply N.ltb_lt in R3.
    assert (Hh : cp / 4096 < 16) by (apply N.Div0.div_lt_upper_bound; lia).
    destruct (lead3 _ Hh) as (L1 & L2 & L3 & L4).
    cbn [app getUtf8CodePoints]. rewrite L1, L2, L3.
    rewrite (proj1 (continuation _ M1)), (proj1 (continuation _ M2)), L4.
    cbn [andb].
    rewrite (add_bits_continuation _ _ M2), (add_bits_continuation _ _ M1).
    replace ((cp / 4096 * 64 + (cp / 64) mod 64) * 64 + cp mod 64) with cp
      by lia.
    rewrite (check_code_point_ok cp 2047 Hs) by lia. reflexivity. }
  apply N.ltb_ge in R3.
  assert (Hh : cp / 262144 < 8) by (apply N.Div0.div_lt_upper_bound; lia).
  destruct (lead4 _ Hh) as (L1 & L2 & L3 & L4 & L5).
  cbn [app getUtf8CodePoints]. rewrite L1, L2, L3, L4.
  rewrite (proj1 (continuation _ M1)), (proj1 (continuation _ M2)),
    (proj1 (continuation _ M3)), L5.
  cbn [andb].
  rewrite (add_bits_continuation _ _ M3), (add_bits_continuation _ _ M2),
    (add_bits_continuation _ _ M1).
  replace (((cp / 262144 * 64 + (cp / 4096) mod 64) * 64 + (cp / 64) mod 64)
           * 64 + cp mod 64) with cp by lia.
  rewrite (check_code_point_ok cp 65535 Hs) by lia. reflexivity.
Qed.

Lemma utf8_of_code_point_bytes cp :
  cp < 1114112 -> are_bytes (utf8_of_code_point cp).
Proof.
  intros Hcp. unfold utf8_of_code_point.
  pose proof (mod_lt_64 cp). pose proof (mod_lt_64 (cp / 64)).
  pose proof (mod_lt_64 (cp / 4096)).
  destruct (cp <? 128) eqn:R1.
  { apply N.ltb_lt in R1. repeat constructor. lia. }
  destruct (cp <? 2048) eqn:R2.
  { apply N.ltb_lt in R2.
    assert (cp / 64 < 32) by (apply N.Div0.div_lt_upper_bound; lia).
    repeat constructor; lia. }
  destruct (cp <? 65536) eqn:R3.
  { apply N.ltb_lt in R3.
    assert (cp / 4096 < 16) by (apply N.Div0.div_lt_upper_bound; lia).
    repeat constructor; lia. }
  assert (cp / 262144 < 8) by (apply N.Div0.div_lt_upper_bound; lia).
  repeat constructor; lia.
Qed.

Local Close Scope N_scope.

Lemma getUtf8CodePoints_utf8 cps :
  Forall is_scalar cps -> getUtf8CodePoints (utf8_bytes cps) = Ok cps.
Proof.
  intros H. induction H as [|cp cps Hcp _ IH]; [reflexivity|].
  unfold utf8_bytes in *. cbn [flat_map].
  rewrite (decode_code_point _ _ Hcp), IH. reflexivity.
Qed.

Lemma utf8_bytes_are_bytes cps :
  Forall is_scalar cps -> are_bytes (utf8_bytes cps).
Proof.
  intros H. induction H as [|cp cps Hcp _ IH]; [constructor|].
  unfold utf8_bytes in *. cbn [flat_map]. apply Forall_app. split; [|exact IH].
  apply utf8_of_code_point_bytes. destruct Hcp; lia.
Qed.

(** The last step of [toUtf8String] gives the code units that the
    Unicode standard assigns to a code point. *)
Lemma utf16_of_code_point_units cp :
  (cp < 1114112)%N -> utf16_of_code_point cp = utf16_units cp.
Proof.
  intros Hcp. unfold utf16_of_code_point, utf16_units.
  destruct (cp <=? 65535)%N eqn:E.
  - apply N.leb_le in E.
    replace (cp <? 65536)%N with true by (symmetry; apply N.ltb_lt; lia).
    reflexivity.
  - apply N.leb_gt in E.
    replace (cp <? 65536)%N with false by (symmetry; apply N.ltb_ge; lia).
    cbv zeta. set (v := (cp - 65536)%N).
    assert (Hv : (v < 1048576)%N) by (unfold v; lia).
    change 1023%N with (N.ones 10). rewrite !N.land_ones, N.shiftr_div_pow2.
    change (2 ^ 10)%N with 1024%N.
    rewrite (N.mod_small (v / 1024) 1024)
      by (apply N.Div0.div_lt_upper_bound; lia).
    rewrite (N.add_comm (v / 1024)), (N.add_comm (v mod 1024)). reflexivity.
Qed.

Lemma utf16_of_code_points_units cps :
  Forall is_scalar cps ->
  flat_map utf16_of_code_point cps = string_of_code_points cps.
Proof.
  intros H. unfold string_of_code_points.
  induction H as [|cp cps Hcp _ IH]; [reflexivity|].
  cbn [flat_map]. rewrite IH, utf16_of_code_point_units; [reflexivity|].
  destruct Hcp; lia.
Qed.

Lemma toUtf8String_utf8 cps :
  Forall is_scalar cps ->
  toUtf8String (Some (js "0x" ++ hex_of_bytes (utf8_bytes cps)))
  = Ok (string_of_code_points cps).
Proof.
  intros H. unfold toUtf8String, arrayify.
  rewrite isHexString_0x, (hex_of_bytes_digits _ (utf8_bytes_are_bytes _ H)).
  replace (substring_from (js "0x" ++ hex_of_bytes (utf8_bytes cps)) 2)
    with (hex_of_bytes (utf8_bytes cps))
    by (symmetry; apply (substring_from_app (js "0x"))).
  rewrite (bytes_of_hex_of_bytes _ (utf8_bytes_are_bytes _ H)). cbn [rbind].
  rewrite (getUtf8CodePoints_utf8 _ H). cbn [rbind].
  rewrite (utf16_of_code_points_units _ H). reflexivity.
Qed.

(** The text of given code points is decoded to their code units. *)
Lemma parseString_code_points (cps : list N) (gap tail : list N) :
  Forall is_scalar cps -> are_bytes gap -> are_bytes tail ->
  (32 + N.of_nat (length gap) < 2 ^ 53)%N ->
  (N.of_nat (length (utf8_bytes cps)) < 2 ^ 53)%N ->
  _parseString (abi_encode_dynamic gap (utf8_bytes cps) tail) 0
  = Ok (Some (string_of_code_points cps)).
Proof.
  intros Hs Hgap Htail Hoff Hlen. unfold _parseString.
  rewrite (parseBytes_dynamic gap (utf8_bytes cps) tail Hgap
             (utf8_bytes_are_bytes _ Hs));
    [| assumption ..].
  cbn [rbind]. rewrite (toUtf8String_utf8 _ Hs). reflexivity.
Qed.

Lemma surrogate_pair_units hi lo :
  is_high_surrogate hi = true -> is_low_surrogate lo = true ->
  utf16_units (65536 + (hi - 55296) * 1024 + (lo - 56320))%N = [hi; lo].
Proof.
  unfold is_high_surrogate, is_low_surrogate, utf16_units. intros Hhi Hlo.
  apply andb_true_iff in Hhi, Hlo. destruct Hhi as [H1 H2], Hlo as [L1 L2].
  apply N.leb_le in H1, H2, L1, L2.
  replace (65536 + (hi - 55296) * 1024 + (lo - 56320) <? 65536)%N with false
    by (symmetry; apply N.ltb_ge; lia).
  replace (65536 + (hi - 55296) * 1024 + (lo - 56320) - 65536)%N
    with ((lo - 56320) + (hi - 55296) * 1024)%N by lia.
  rewrite N.div_add, N.Div0.mod_add by lia.
  rewrite N.div_small, N.mod_small by lia.
  f_equal; [lia | f_equal; lia].
Qed.

(** The code units of the code points of a well-formed string are the
    string. *)
Lemma units_of_code_points : forall n s,
  (length s <= n)%nat -> well_formed s ->
  string_of_code_points (code_points s) = s.
Proof.
  unfold string_of_code_points.
  induction n as [|n IH]; intros s Hn [Hu Hs].
  - destruct s; [reflexivity | simpl in Hn; lia].
  - destruct s as [|hi [|lo rest]]; [reflexivity | |].
    + cbn [code_points flat_map]. unfold utf16_units.
      replace (hi <? 65536)%N with true
        by (symmetry; apply N.ltb_lt; exact (Forall_inv Hu)).
      reflexivity.
    + change (code_points (hi :: lo :: rest))
        with (if is_high_surrogate hi && is_low_surrogate lo
              then (65536 + (hi - 55296) * 1024 + (lo - 56320))%N
                     :: code_points rest
              else hi :: code_points (lo :: rest)) in *.
      pose proof (Forall_inv Hu) as Hhi.
      pose proof (Forall_inv_tail Hu) as Hu'.
      pose proof (Forall_inv_tail Hu') as Hu''.
      destruct (is_high_surrogate hi && is_low_surrogate lo) eqn:E.
      * apply andb_true_iff in E. destruct E as [E1 E2].
        pose proof (Forall_inv_tail Hs) as Hs'.
        cbn [flat_map]. rewrite (surrogate_pair_units _ _ E1 E2).
        rewrite (IH rest); [reflexivity | simpl in Hn; lia | split; assumption].
      * pose proof (Forall_inv_tail Hs) as Hs'.
        cbn [flat_map]. unfold utf16_units at 1.
        replace (hi <? 65536)%N with true
          by (symmetry; apply N.ltb_lt; exact Hhi).
        cbn [app]. f_equal.
        apply IH; [simpl in Hn |- *; lia | split; assumption].
Qed.

(** C8. Round trip: a string such as "foo", encoded in UTF-8 as a
    dynamic value (an offset word, at that offset a length word, then
    the bytes), is decoded by [_parseString] at start 0 to the string
    itself, code unit for code unit.  The strings are those that have an
    encoding, the well-formed ones; the gap before the length word and
    the padding after the bytes are free. *)
Theorem parseString_roundtrip (s : jsstring) (gap tail : list N) :
  well_formed s -> are_bytes gap -> are_bytes tail ->
  (32 + N.of_nat (length gap) < 2 ^ 53)%N ->
  (N.of_nat (length (utf8_bytes (code_points s))) < 2 ^ 53)%N ->
  _parseString (abi_encode_text gap s tail) 0 = Ok (Some s).
Proof.
  intros Hs Hgap Htail Hoff Hlen. unfold abi_encode_text.
  rewrite (parseString_code_points _ gap tail (proj2 Hs) Hgap Htail Hoff Hlen).
  rewrite (units_of_code_points (length s) s (Nat.le_refl _) Hs).
  reflexivity.
Qed.

(** C10. [_parseString] never throws: whatever the buffer and the start
    index it returns a string or [null]; the empty return 0x gives
    [null], and so does every error raised while slicing, reading the
    numbers or decoding UTF-8, as for a buffer too short for its words,
    an offset outside the buffer, a text that is not hexadecimal and
    bytes that are not UTF-8. *)
Theorem parseString_total (res : jsstring) (start : Z) :
  (exists o, _parseString res start = Ok o)
  /\ _parseString (js "0x") start = Ok None
  /\ match rbind (_parseBytes res start) toUtf8String with
     | Ok s => _parseString res start = Ok (Some s)
     | Err _ => _parseString res start = Ok None
     end
  /\ _parseString (js "0x20") 0 = Ok None
  /\ _parseString (js "0x" ++ hex_of_bytes (word 4096)) 0 = Ok None
  /\ _parseString (js "not hexadecimal") 0 = Ok None
  /\ _parseString (abi_encode_dynamic [] [255%N] []) 0 = Ok None.
Proof.
  unfold _parseString. split; [|split; [|split]].
  - destruct (_parseBytes res start) as [b|msg]; cbn; [|eauto].
    destruct (toUtf8String b) as [s|msg]; cbn; eauto.
  - reflexivity.
  - destruct (_parseBytes res start) as [b|msg]; cbn; [|reflexivity].
    destruct (toUtf8String b) as [s|msg]; reflexivity.
  - repeat split; vm_compute; reflexivity.
Qed.

End Abi.

(* ===================================================================== *)
(** ** The pipeline: stepping through the body *)
(* ===================================================================== *)

Module Pipeline.
Import JS Ethers Avatar Spec StringFacts.

Local Open Scope avatar_scope.

Section Steps.
Context {A B : Type}.
Variables (k : A -> M B) (st : state).

Lemma bind_lift_ok (r : result A) a :
  r = Ok a -> bind (lift r) k st = k a st.
Proof. intros ->. reflexivity. Qed.

Lemma bind_lift_err (r : result A) msg :
  r = Err msg -> bind (lift r) k st = (Throw msg, st).
Proof. intros ->. reflexivity. Qed.

Lemma bind_normal (c : M A) a st' :
  c st = (Normal a, st') -> bind c k st = k a st'.
Proof. unfold bind. intros ->. reflexivity. Qed.

Lemma bind_return (c : M A) o st' :
  c st = (Return o, st') -> bind c k st = (Return o, st').
Proof. unfold bind. intros ->. reflexivity. Qed.

Lemma bind_throw (c : M A) msg st' :
  c st = (Throw msg, st') -> bind c k st = (Throw msg, st').
Proof. unfold bind. intros ->. reflexivity. Qed.

End Steps.

Lemma bind_push {B} ty c (k : unit -> M B) st :
  bind (push ty c) k st
  = k tt (with_step st {| type := ty; content := c |}).
Proof. reflexivity. Qed.

Lemma bind_call_ok {B} (w : World) tx r (k : jsstring -> M B) st :
  provider_call w tx = Ok r -> bind (call w tx) k st = k r (with_call st tx).
Proof. unfold bind, call. intros ->. reflexivity. Qed.

Lemma bind_call_err {B} (w : World) tx msg (k : jsstring -> M B) st :
  provider_call w tx = Err msg ->
  bind (call w tx) k st = (Throw msg, with_call st tx).
Proof. unfold bind, call. intros ->. reflexivity. Qed.

(** [avatar] is its [try] block settled. *)
Lemma run_avatar_settle plugin w this :
  run_avatar plugin w this
  = settle (avatar_try plugin w this (entry_state this)).
Proof.
  unfold run_avatar. rewrite bind_push. unfold bind, try_, return_, settle.
  change (with_step initial_state _) with (entry_state this).
  destruct (avatar_try plugin w this (entry_state this)) as [[a|o|msg] st'];
    reflexivity.
Qed.

Lemma settle_returns r : exists o st, settle r = (Return o, st).
Proof. destruct r as [[a|o|msg] st]; simpl; eauto. Qed.

Lemma settle_bind_ret (c : M unit) st :
  settle (bind c (fun _ => ret tt) st) = settle (c st).
Proof.
  unfold bind, ret. destruct (c st) as [[a|o|msg] st']; reflexivity.
Qed.

(** *** The matchers *)

Lemma strip_prefix_inv p : forall s r, strip_prefix p s = Some r -> s = p ++ r.
Proof.
  induction p as [|pc p IH]; intros s r H; simpl in H.
  - inversion H. reflexivity.
  - destruct s as [|c s]; [discriminate|].
    destruct (char_eqb pc c) eqn:E; [|discriminate].
    apply N.eqb_eq in E. subst. simpl. f_equal. apply IH. exact H.
Qed.

Lemma strip_prefix_app p r : strip_prefix p (p ++ r) = Some r.
Proof.
  induction p as [|pc p IH]; simpl; [reflexivity|].
  unfold char_eqb. rewrite N.eqb_refl. exact IH.
Qed.

Lemma eq_ci_lower p m : eq_ci p m -> toLowerCase m = toLowerCase p.
Proof.
  intros H. induction H as [|pc c p m Hc _ IH]; simpl; [reflexivity|].
  unfold ci_char in Hc. apply N.eqb_eq in Hc. congruence.
Qed.

Lemma match_scheme_inv scheme sep s g1 g2 :
  match_scheme scheme sep s = Some (g1, g2) ->
  s = g1 ++ sep ++ g2 /\ eq_ci scheme g1
  /\ forallb (fun c => negb (is_line_terminator c)) g2 = true.
Proof.
  unfold match_scheme, obind, dot_star_end. intros H.
  destruct (strip_ci scheme s) as [[m r]|] eqn:E1; [|discriminate].
  destruct (strip_prefix sep r) as [r'|] eqn:E2; [|discriminate].
  destruct (forallb _ r') eqn:E3; [|discriminate].
  inversion H; subst.
  apply strip_ci_inv in E1. destruct E1 as [-> Hci].
  apply strip_prefix_inv in E2. subst. auto.
Qed.

Lemma strip_ci_head pc p s g :
  strip_ci (pc :: p) s = Some g ->
  exists c s', s = c :: s' /\ lower_char c = lower_char pc.
Proof.
  destruct s as [|c s']; simpl; [discriminate|].
  destruct (ci_char pc c) eqn:E; [|discriminate]. intros _.
  unfold ci_char in E. apply N.eqb_eq in E. eauto.
Qed.

Lemma exec_head m s g :
  exec m s = Some g ->
  exists c s', s = c :: s' /\ lower_char c = initial m.
Proof.
  intros H.
  assert (Hs : exists pc p g', strip_ci (pc :: p) s = Some g'
                               /\ lower_char pc = initial m).
  { destruct m; unfold exec, match_scheme, match_eip155, obind in H;
      match type of H with
      | match strip_ci ?p s with _ => _ end = _ =>
          destruct (strip_ci p s) as [g'|] eqn:E; [|discriminate];
          eexists _, _, g'; split; [exact E | reflexivity]
      end. }
  destruct Hs as (pc & p & g' & Hs & <-). eapply strip_ci_head. exact Hs.
Qed.

Lemma exec_mismatch m c s :
  lower_char c <> initial m -> exec m (c :: s) = None.
Proof.
  intros H.
  assert (E : ci_char (initial m) c = false).
  { unfold ci_char. apply N.eqb_neq. intros E. apply H. rewrite <- E.
    destruct m; reflexivity. }
  destruct m; unfold exec, match_scheme, match_eip155, obind;
    cbn [js list_ascii_of_string map strip_ci];
    simpl initial in E; simpl N_of_ascii; rewrite E; reflexivity.
Qed.

Lemma exec_exclusive m m' s g :
  exec m s = Some g -> m <> m' -> exec m' s = None.
Proof.
  intros H Hm. destruct (exec_head _ _ _ H) as (c & s' & -> & Hc).
  apply exec_mismatch. rewrite Hc.
  destruct m, m'; try congruence; discriminate.
Qed.

Lemma exec_truthy m s g : exec m s = Some g -> truthy_string s = true.
Proof.
  intros H. destruct (exec_head _ _ _ H) as (c & s' & -> & _). reflexivity.
Qed.

(** *** Reaching the loop *)

Lemma avatar_try_has_avatar plugin w this owner avatar st :
  has_avatar this owner avatar ->
  avatar_try plugin w this st
  = if negb (truthy_string avatar) then (Return None, st)
    else for_matchers plugin w owner avatar matchers st.
Proof.
  intros (Hinfo & Howner & r & rs & Hrec & <-). unfold avatar_try.
  rewrite (bind_lift_ok _ _ _ _ Hinfo). rewrite Howner. cbn [negb].
  rewrite (bind_lift_ok _ _ _ _ Hrec).
  destruct (truthy_string (value r)); reflexivity.
Qed.

Lemma avatar_try_matched plugin w this owner avatar st m g :
  has_avatar this owner avatar -> exec m avatar = Some g ->
  avatar_try plugin w this st = for_matchers plugin w owner avatar matchers st.
Proof.
  intros Hav Hm. rewrite (avatar_try_has_avatar _ _ _ _ _ _ Hav).
  rewrite (exec_truthy _ _ _ Hm). reflexivity.
Qed.

(** *** The direct schemes *)

Lemma for_matchers_https plugin w owner avatar st g :
  exec matcherHttps avatar = Some g ->
  for_matchers plugin w owner avatar matchers st
  = (Return (Some {| linkage := st_linkage st ++ [step "url" avatar];
                     url := avatar |}),
     with_step st (step "url" avatar)).
Proof.
  intros H. unfold matchers. cbn [for_matchers]. rewrite H.
  destruct g as [g1 g2]. apply match_scheme_inv in H.
  destruct H as (_ & Hci & _). rewrite (eq_ci_lower _ _ Hci). reflexivity.
Qed.

Lemma for_matchers_data plugin w owner avatar st g :
  exec matcherData avatar = Some g ->
  for_matchers plugin w owner avatar matchers st
  = (Return (Some {| linkage := st_linkage st ++ [step "data" avatar];
                     url := avatar |}),
     with_step st (step "data" avatar)).
Proof.
  intros H. unfold matchers. cbn [for_matchers].
  rewrite (exec_exclusive _ matcherHttps _ _ H) by discriminate. rewrite H.
  destruct g as [g1 g2]. apply match_scheme_inv in H.
  destruct H as (_ & Hci & _). rewrite (eq_ci_lower _ _ Hci). reflexivity.
Qed.

(** C2 (amended). With an owner key and a first avatar record on the
    account: a record matching the https pattern resolves to itself with
    the linkage account, url; a record matching the data pattern resolves
    to itself with the linkage account, data. *)
Theorem direct_schemes_resolve (plugin : BitPluginAvatar) (w : World)
  (this : BitAccount) (owner avatar : jsstring) :
  has_avatar this owner avatar ->
  (forall g, exec matcherHttps avatar = Some g ->
     Avatar.avatar plugin w this
     = Return (Some {| linkage := [step "account" (account this);
                                   step "url" avatar];
                       url := avatar |}))
  /\ (forall g, exec matcherData avatar = Some g ->
        Avatar.avatar plugin w this
        = Return (Some {| linkage := [step "account" (account this);
                                      step "data" avatar];
                          url := avatar |})).
Proof.
  intros Hav. unfold Avatar.avatar. rewrite run_avatar_settle. split; intros g Hg.
  - rewrite (avatar_try_matched _ _ _ _ _ _ _ _ Hav Hg).
    rewrite (for_matchers_https _ _ _ _ _ _ Hg). reflexivity.
  - rewrite (avatar_try_matched _ _ _ _ _ _ _ _ Hav Hg).
    rewrite (for_matchers_data _ _ _ _ _ _ Hg). reflexivity.
Qed.

(** *** Hexadecimal data *)

Lemma isHexString_inv v :
  isHexString v = true ->
  exists ds, v = js "0x" ++ ds /\ forallb is_hex_digit ds = true.
Proof.
  unfold isHexString. intros H.
  destruct (strip_prefix (js "0x") v) as [ds|] eqn:E; [|discriminate].
  apply strip_prefix_inv in E. eauto.
Qed.

Lemma substring_from_2 h : substring_from h 2 = skipn 2 h.
Proof.
  unfold substring_from. destruct h as [|a [|b t]]; try reflexivity.
  rewrite clamp_inside; [reflexivity | simpl length; lia].
Qed.

Lemma hexZeroPad_ok v n p :
  hexZeroPad v n = Ok p ->
  isHexString p = true /\ length p = (2 * n + 2)%nat.
Proof.
  unfold hexZeroPad. destruct (isHexString v) eqn:Hv; [|discriminate].
  cbn [negb]. destruct (2 * n + 2 <? length v)%nat eqn:Hlen; [discriminate|].
  intros H. inversion H; subst; clear H.
  apply Nat.ltb_ge in Hlen.
  destruct (isHexString_inv _ Hv) as (ds & -> & Hds).
  rewrite (substring_from_app (js "0x") ds : substring_from (js "0x" ++ ds) 2 = ds).
  rewrite length_app in Hlen. change (length (js "0x")) with 2%nat in Hlen.
  split.
  - match goal with
    | |- isHexString (_ :: _ :: ?t) = true =>
        change (forallb is_hex_digit t = true)
    end.
    apply forallb_forall. intros c Hc. apply in_app_or in Hc.
    destruct Hc as [Hc|Hc].
    + apply repeat_spec in Hc. subst. reflexivity.
    + revert c Hc. apply forallb_forall. exact Hds.
  - cbn [length]. rewrite !length_app, repeat_length.
    cbn [js list_ascii_of_string map length]. unfold jschar in *. lia.
Qed.

Lemma token_word_ok comp1 tokenId :
  token_word comp1 = Ok tokenId ->
  exists bn, BigNumber_from comp1 = Ok bn
             /\ hexZeroPad (toHexString bn) 32 = Ok tokenId
             /\ hex_data tokenId /\ length tokenId = 66%nat.
Proof.
  intros H. apply rbind_ok_inv in H. destruct H as (bn & Hbn & Hpad).
  exists bn. destruct (hexZeroPad_ok _ _ _ Hpad) as [Hhex Hlen].
  repeat split; try assumption. rewrite Hlen. reflexivity.
Qed.

Lemma hexZeroPad_hex_data v p : hexZeroPad v 32 = Ok p -> hex_data p.
Proof.
  intros H. destruct (hexZeroPad_ok _ _ _ H) as [Hhex Hlen].
  split; [assumption | rewrite Hlen; reflexivity].
Qed.

Lemma hexlify_hex_data p : hex_data p -> hexlify p = Ok (toLowerCase p).
Proof.
  intros [Hhex Heven]. unfold hexlify. rewrite Hhex.
  rewrite <- Nat.negb_even, Heven. reflexivity.
Qed.

Lemma hexConcat_from_words words : forall acc,
  Forall hex_data words ->
  hexConcat_from acc words
  = Ok (acc ++ flat_map (fun w => skipn 2 (toLowerCase w)) words).
Proof.
  induction words as [|w words IH]; intros acc H.
  - simpl. rewrite app_nil_r. reflexivity.
  - inversion H; subst. cbn [hexConcat_from flat_map].
    rewrite (hexlify_hex_data _ H2). cbn [rbind].
    rewrite IH by assumption. rewrite substring_from_2, <- app_assoc.
    reflexivity.
Qed.

Lemma hexConcat_calldata sel words :
  hexlify sel = Ok sel -> Forall hex_data words ->
  hexConcat (sel :: words) = Ok (calldata sel words).
Proof.
  intros Hsel Hwords. unfold hexConcat. cbn [hexConcat_from].
  rewrite Hsel. cbn [rbind]. rewrite (hexConcat_from_words _ _ Hwords).
  unfold calldata. f_equal. f_equal.
  unfold hexlify in Hsel. destruct (isHexString sel) eqn:E; [|discriminate].
  destruct (isHexString_inv _ E) as (ds & -> & _).
  rewrite (substring_from_app (js "0x") ds : substring_from (js "0x" ++ ds) 2 = ds).
  reflexivity.
Qed.

(** *** The token branch, stage by stage *)

Lemma switch_scheme_token plugin w owner avatar scheme match2 :
  is_erc721 scheme || is_erc1155 scheme = true ->
  switch_scheme plugin w owner avatar scheme match2
  = resolve_token plugin w scheme avatar match2 owner.
Proof.
  intros H. apply orb_true_iff in H. unfold is_erc721, is_erc1155 in H.
  destruct H as [H|H]; apply str_eqb_eq in H; subst; reflexivity.
Qed.

Lemma for_matchers_token plugin w owner avatar scheme match1 match2 st :
  exec matcherEip155 avatar = Some (match1, match2) ->
  toLowerCase match1 = scheme ->
  is_erc721 scheme || is_erc1155 scheme = true ->
  settle (for_matchers plugin w owner avatar matchers st)
  = settle (resolve_token plugin w scheme avatar match2 owner st).
Proof.
  intros H Hlow Hs. unfold matchers. cbn [for_matchers].
  rewrite (exec_exclusive _ matcherHttps _ _ H) by discriminate.
  rewrite (exec_exclusive _ matcherData _ _ H) by discriminate.
  rewrite (exec_exclusive _ matcherIpfs _ _ H) by discriminate.
  rewrite H, Hlow, (switch_scheme_token _ _ _ _ _ _ Hs).
  apply settle_bind_ret.
Qed.

Lemma check_ownership_erc721 w owner addr tokenId st r t :
  hex_data tokenId ->
  provider_call w (ownerOf_tx addr tokenId) = Ok r ->
  formatter_callAddress w r = Ok t ->
  check_ownership w (js "erc721") owner addr tokenId st
  = match t with
    | Some t' =>
        if str_eqb owner t'
        then (Normal tt, with_step (with_call st (ownerOf_tx addr tokenId))
                                   (step "owner" t'))
        else (Return None, with_call st (ownerOf_tx addr tokenId))
    | None => (Return None, with_call st (ownerOf_tx addr tokenId))
    end.
Proof.
  intros Htok Hcall Haddr. unfold check_ownership.
  change (is_erc721 (js "erc721")) with true. cbv iota.
  erewrite bind_lift_ok
    by (apply hexConcat_calldata;
        [reflexivity | apply Forall_cons; [exact Htok | apply Forall_nil]]).
  erewrite bind_call_ok by exact Hcall.
  erewrite bind_lift_ok by exact Haddr.
  destruct t as [t'|]; [|reflexivity].
  destruct (str_eqb owner t'); reflexivity.
Qed.

Lemma check_ownership_erc1155 w owner addr tokenId st o r balance z :
  hex_data tokenId ->
  hexZeroPad owner 32 = Ok o ->
  provider_call w (balanceOf_tx addr o tokenId) = Ok r ->
  BigNumber_from r = Ok balance ->
  isZero balance = Ok z ->
  check_ownership w (js "erc1155") owner addr tokenId st
  = if z then (Return None, with_call st (balanceOf_tx addr o tokenId))
    else
      match BigNumber_toString balance with
      | Ok s => (Normal tt,
                 with_step (with_call st (balanceOf_tx addr o tokenId))
                           (step "balance" s))
      | Err msg => (Throw msg, with_call st (balanceOf_tx addr o tokenId))
      end.
Proof.
  intros Htok Hpad Hcall Hbal Hz. unfold check_ownership.
  change (is_erc721 (js "erc1155")) with false.
  change (is_erc1155 (js "erc1155")) with true. cbv iota.
  erewrite bind_lift_ok by exact Hpad.
  erewrite bind_lift_ok
    by (apply hexConcat_calldata;
        [reflexivity
        | apply Forall_cons;
          [exact (hexZeroPad_hex_data _ _ Hpad)
          | apply Forall_cons; [exact Htok | apply Forall_nil]]]).
  erewrite bind_call_ok by exact Hcall.
  erewrite bind_lift_ok by exact Hbal.
  erewrite bind_lift_ok by exact Hz.
  destruct z; [reflexivity|].
  destruct (BigNumber_toString balance) as [s|msg]; reflexivity.
Qed.

Lemma resolve_token_entry plugin w scheme avatar match2 owner st
  comp0 comp1 addr tokenId :
  split 47%N match2 = [comp0; comp1] ->
  formatter_address w comp0 = Ok addr ->
  token_word comp1 = Ok tokenId ->
  resolve_token plugin w scheme avatar match2 owner st
  = (check_ownership w scheme owner addr tokenId ;;;
     resolve_metadata plugin w scheme (selector_of scheme) comp0 tokenId)
      (with_step st {| type := scheme; content := avatar |}).
Proof.
  intros Hsplit Haddr Htok.
  destruct (token_word_ok _ _ Htok) as (bn & Hbn & Hpad & _).
  unfold resolve_token. cbv zeta. rewrite bind_push, Hsplit.
  erewrite bind_lift_ok by exact Haddr.
  erewrite bind_lift_ok by exact Hbn.
  erewrite bind_lift_ok by exact Hpad.
  reflexivity.
Qed.

Lemma hexlify_selector_of scheme :
  hexlify (selector_of scheme) = Ok (selector_of scheme).
Proof. unfold selector_of. destruct (is_erc721 scheme); reflexivity. Qed.

Lemma metadata_url_decoded plugin w scheme comp0 tokenId st to r u :
  hex_data tokenId ->
  formatter_address w comp0 = Ok to ->
  provider_call w (metadata_tx scheme to tokenId) = Ok r ->
  _parseString r 0 = Ok (Some u) ->
  metadata_url plugin w scheme (selector_of scheme) comp0 tokenId st
  = let st1 := with_step (with_call st (metadata_tx scheme to tokenId))
                         (step "metadata-url-base" u) in
    let st2 :=
      if is_erc1155 scheme
      then with_step st1 (step "metadata-url-expanded" (expand scheme tokenId u))
      else st1 in
    match translate plugin (expand scheme tokenId u) with
    | Ok u' => (Normal u', with_step st2 (step "metadata-url" u'))
    | Err msg => (Throw msg, st2)
    end.
Proof.
  intros Htok Hto Hcall Hparse. unfold metadata_url.
  erewrite bind_lift_ok by exact Hto.
  erewrite bind_lift_ok
    by (apply hexConcat_calldata;
        [apply hexlify_selector_of
        | apply Forall_cons; [exact Htok | apply Forall_nil]]).
  erewrite bind_call_ok by exact Hcall.
  erewrite bind_lift_ok by exact Hparse.
  cbv iota. rewrite bind_push. unfold expand, translate.
  destruct (is_erc1155 scheme); cbv [bind push ret lift]; cbv beta iota;
    (destruct (starts_ci (js "ipfs:") _);
       [destruct (getIpfsLink _ _) as [u'|msg] |]; reflexivity).
Qed.

Lemma metadata_url_undecoded plugin w scheme comp0 tokenId st to r :
  hex_data tokenId ->
  formatter_address w comp0 = Ok to ->
  provider_call w (metadata_tx scheme to tokenId) = Ok r ->
  _parseString r 0 = Ok None ->
  metadata_url plugin w scheme (selector_of scheme) comp0 tokenId st
  = (Return None, with_call st (metadata_tx scheme to tokenId)).
Proof.
  intros Htok Hto Hcall Hparse. unfold metadata_url.
  erewrite bind_lift_ok by exact Hto.
  erewrite bind_lift_ok
    by (apply hexConcat_calldata;
        [apply hexlify_selector_of
        | apply Forall_cons; [exact Htok | apply Forall_nil]]).
  erewrite bind_call_ok by exact Hcall.
  erewrite bind_lift_ok by exact Hparse.
  reflexivity.
Qed.

Lemma image_url_fetched w murl st md :
  fetchJson w murl = Ok md ->
  image_url w murl st
  = if falsy md then (Return None, st)
    else
      let st1 := with_step st (step "metadata" (JSON_stringify w md)) in
      match get_property md (js "image") with
      | Some (JString img) =>
          if starts_ci (js "https://") img || starts_ci (js "data:") img
          then (Normal img, st1)
          else
            match exec matcherIpfs img with
            | None => (Return None, st1)
            | Some _ =>
                match getIpfsLink img None with
                | Ok u => (Normal u, with_step st1 (step "url-ipfs" img))
                | Err msg => (Throw msg, with_step st1 (step "url-ipfs" img))
                end
            end
      | _ => (Return None, st1)
      end.
Proof.
  intros Hfetch. unfold image_url.
  erewrite bind_lift_ok by exact Hfetch.
  destruct (falsy md); [reflexivity|]. rewrite bind_push. cbv zeta.
  destruct (get_property md (js "image")) as [[|b|n d|img|items|fields]|];
    try reflexivity.
  destruct (starts_ci (js "https://") img || starts_ci (js "data:") img);
    [reflexivity|].
  destruct (exec matcherIpfs img); [|reflexivity].
  rewrite bind_push. unfold lift.
  destruct (getIpfsLink img None); reflexivity.
Qed.

Lemma starts_ci_mismatch pc p c s :
  lower_char c <> lower_char pc -> starts_ci (pc :: p) (c :: s) = false.
Proof.
  intros H. unfold starts_ci. cbn [strip_ci]. unfold ci_char.
  replace (char_eqb (lower_char pc) (lower_char c)) with false; [reflexivity|].
  symmetry. apply N.eqb_neq. congruence.
Qed.

(** An image that matches the IPFS pattern is neither an https nor a
    data link, and its translation does not throw. *)
Lemma ipfs_image img g :
  exec matcherIpfs img = Some g ->
  starts_ci (js "https://") img || starts_ci (js "data:") img = false
  /\ starts_ci (js "ipfs://") img = true.
Proof.
  intros H. split.
  - destruct (exec_head _ _ _ H) as (c & s' & -> & Hc). simpl in Hc.
    change (js "https://") with (104%N :: js "ttps://").
    change (js "data:") with (100%N :: js "ata:").
    rewrite !starts_ci_mismatch; [reflexivity | |];
      rewrite Hc; discriminate.
  - destruct g as [g1 g2]. apply match_scheme_inv in H.
    destruct H as (-> & Hci & _).
    rewrite app_assoc. apply starts_ci_app.
    change (js "ipfs://") with (js "ipfs" ++ js "://").
    apply Forall2_app; [exact Hci|]. repeat constructor.
Qed.

(** The run of a well-formed token reference is the ownership check
    followed by the metadata resolution, settled. *)
Lemma run_avatar_token plugin w this owner avatar scheme comp0 comp1
  addr tokenId :
  token_avatar w this owner avatar scheme comp0 comp1 addr tokenId ->
  run_avatar plugin w this
  = settle ((check_ownership w scheme owner addr tokenId ;;;
             resolve_metadata plugin w scheme (selector_of scheme) comp0 tokenId)
              (token_state this scheme avatar)).
Proof.
  intros (Hav & (m1 & m2 & Hexec & Hlow & Hsplit) & Hs & Haddr & Htok).
  rewrite run_avatar_settle.
  rewrite (avatar_try_matched _ _ _ _ _ _ _ _ Hav Hexec).
  rewrite (for_matchers_token _ _ _ _ _ _ _ _ Hexec Hlow Hs).
  rewrite (resolve_token_entry _ _ _ _ _ _ _ _ _ _ _ Hsplit Haddr Htok).
  reflexivity.
Qed.

Lemma token_avatar_hex_data w this owner avatar scheme comp0 comp1 addr tokenId :
  token_avatar w this owner avatar scheme comp0 comp1 addr tokenId ->
  hex_data tokenId /\ length tokenId = 66%nat.
Proof.
  intros (_ & _ & _ & _ & Htok).
  destruct (token_word_ok _ _ Htok) as (bn & _ & _ & H & Hlen). auto.
Qed.

(** An ERC-721 token whose owner is not the owner key, as strings: the
    run ends with [null] after the [ownerOf] call. *)
Lemma erc721_owner_mismatch plugin w this owner avatar comp0 comp1
  addr tokenId r t :
  token_avatar w this owner avatar (js "erc721") comp0 comp1 addr tokenId ->
  provider_call w (ownerOf_tx addr tokenId) = Ok r ->
  formatter_callAddress w r = Ok t ->
  t <> Some owner ->
  run_avatar plugin w this
  = (Return None,
     {| st_linkage := [step "account" (account this); step "erc721" avatar];
        st_calls := [ownerOf_tx addr tokenId] |}).
Proof.
  intros Htok Hcall Ht Hneq.
  rewrite (run_avatar_token _ _ _ _ _ _ _ _ _ _ Htok).
  destruct (token_avatar_hex_data _ _ _ _ _ _ _ _ _ Htok) as [Hhex _].
  erewrite bind_return; [reflexivity|].
  rewrite (check_ownership_erc721 _ _ _ _ _ _ _ Hhex Hcall Ht).
  destruct t as [t'|]; [|reflexivity].
  destruct (str_eqb owner t') eqn:E; [|reflexivity].
  apply str_eqb_eq in E. congruence.
Qed.

Lemma erc1155_zero_run plugin w this owner avatar comp0 comp1 addr tokenId
  owner32 r balance :
  token_avatar w this owner avatar (js "erc1155") comp0 comp1 addr tokenId ->
  hexZeroPad owner 32 = Ok owner32 ->
  provider_call w (balanceOf_tx addr owner32 tokenId) = Ok r ->
  BigNumber_from r = Ok balance ->
  toBN balance = Ok 0%Z ->
  run_avatar plugin w this
  = (Return None,
     {| st_linkage := [step "account" (account this); step "erc1155" avatar];
        st_calls := [balanceOf_tx addr owner32 tokenId] |}).
Proof.
  intros Htok Hpad Hcall Hbal Hzero.
  destruct (token_avatar_hex_data _ _ _ _ _ _ _ _ _ Htok) as [Hhex Hlen].
  assert (Hz : isZero balance = Ok true).
  { unfold isZero. rewrite Hzero. reflexivity. }
  rewrite (run_avatar_token _ _ _ _ _ _ _ _ _ _ Htok).
  erewrite bind_return; [reflexivity|].
  rewrite (check_ownership_erc1155 _ _ _ _ _ _ _ _ _ Hhex Hpad Hcall Hbal Hz).
  reflexivity.
Qed.

(** C9. For an ERC-1155 reference the only call made before the balance
    is known is [balanceOf]: the selector 0x00fdd58e, then the owner
    padded to 32 bytes, then the token word; when the returned number is
    zero the run ends with [null] and no further call, so the [uri] call
    is never made. *)
Theorem erc1155_zero_balance (plugin : BitPluginAvatar) (w : World)
  (this : BitAccount)
  (owner avatar comp0 comp1 addr tokenId owner32 r : jsstring)
  (balance : BigNumber) :
  token_avatar w this owner avatar (js "erc1155") comp0 comp1 addr tokenId ->
  hexZeroPad owner 32 = Ok owner32 ->
  provider_call w (balanceOf_tx addr owner32 tokenId) = Ok r ->
  BigNumber_from r = Ok balance ->
  toBN balance = Ok 0%Z ->
  run_avatar plugin w this
  = (Return None,
     {| st_linkage := [step "account" (account this); step "erc1155" avatar];
        st_calls := [balanceOf_tx addr owner32 tokenId] |})
  /\ Avatar.avatar plugin w this = Return None
  /\ tx_data (balanceOf_tx addr owner32 tokenId)
     = js "0x00fdd58e" ++ skipn 2 (toLowerCase owner32)
                       ++ skipn 2 (toLowerCase tokenId)
  /\ length (skipn 2 owner32) = 64%nat
  /\ length (skipn 2 tokenId) = 64%nat
  /\ Forall (fun tx => firstn 10 (tx_data tx) <> selector_uri)
            (st_calls (snd (run_avatar plugin w this))).
Proof.
  intros Htok Hpad Hcall Hbal Hzero.
  destruct (token_avatar_hex_data _ _ _ _ _ _ _ _ _ Htok) as [Hhex Hlen].
  pose proof (erc1155_zero_run plugin _ _ _ _ _ _ _ _ _ _ _
                Htok Hpad Hcall Hbal Hzero) as Hrun.
  split; [exact Hrun|]. split; [unfold Avatar.avatar; rewrite Hrun; reflexivity|].
  split.
  { unfold balanceOf_tx, calldata. cbn [tx_data flat_map].
    rewrite app_nil_r. reflexivity. }
  destruct (hexZeroPad_ok _ _ _ Hpad) as [_ Hlen32].
  split; [rewrite length_skipn, Hlen32; reflexivity|].
  split; [rewrite length_skipn, Hlen; reflexivity|].
  rewrite Hrun. cbn [snd st_calls]. constructor; [|constructor].
  discriminate.
Qed.

(** *** Links that match the IPFS pattern *)

Lemma ipfs_match_prefix x g cid :
  exec matcherIpfs x = Some (g, cid) ->
  x = (g ++ js "://") ++ cid /\ eq_ci (js "ipfs://") (g ++ js "://").
Proof.
  intros H. apply match_scheme_inv in H. destruct H as (-> & Hci & _).
  split; [rewrite <- app_assoc; reflexivity|].
  change (js "ipfs://") with (js "ipfs" ++ js "://").
  apply Forall2_app; [exact Hci|]. repeat constructor.
Qed.

Lemma getIpfsLink_matched x g cid gateway :
  exec matcherIpfs x = Some (g, cid) ->
  starts_ci (js "ipfs/") cid = false ->
  getIpfsLink x gateway = Ok (gateway_of gateway ++ js "/ipfs/" ++ cid).
Proof.
  intros H Hcid. destruct (ipfs_match_prefix _ _ _ H) as [Hx Hp].
  exact (IpfsLink.getIpfsLink_short_prefix _ _ _ _ Hx Hp Hcid).
Qed.

Lemma translate_matched plugin x g cid :
  exec matcherIpfs x = Some (g, cid) ->
  starts_ci (js "ipfs/") cid = false ->
  translate plugin x = Ok (ipfs plugin ++ js "/ipfs/" ++ cid).
Proof.
  intros H Hcid. unfold translate.
  rewrite (getIpfsLink_matched _ _ _ (Some (ipfs plugin)) H Hcid).
  apply match_scheme_inv in H. destruct H as (-> & Hci & _).
  replace (starts_ci (js "ipfs:") (g ++ js "://" ++ cid)) with true;
    [reflexivity|].
  symmetry. change (js "://" ++ cid) with (js ":" ++ js "//" ++ cid).
  rewrite app_assoc. apply starts_ci_app.
  change (js "ipfs:") with (js "ipfs" ++ js ":").
  apply Forall2_app; [exact Hci|]. repeat constructor.
Qed.

Lemma ipfs_path_long m rest :
  eq_ci (js "ipfs/") m -> ipfs_path (m ++ rest) = rest.
Proof.
  intros Hm. unfold ipfs_path. rewrite (starts_ci_app _ _ _ Hm).
  replace 5%nat with (length m)
    by (rewrite (eq_ci_length _ _ Hm); reflexivity).
  rewrite skipn_app, skipn_all, Nat.sub_diag. reflexivity.
Qed.

(** The translation of a link that matches the IPFS pattern, whichever
    of the two prefixes it has. *)
Lemma getIpfsLink_path x g cid gateway :
  exec matcherIpfs x = Some (g, cid) ->
  getIpfsLink x gateway
  = Ok (gateway_of gateway ++ js "/ipfs/" ++ ipfs_path cid).
Proof.
  intros H. destruct (starts_ci (js "ipfs/") cid) eqn:E.
  - destruct (ipfs_match_prefix _ _ _ H) as [Hx Hp].
    unfold starts_ci in E.
    destruct (strip_ci (js "ipfs/") cid) as [[m rest]|] eqn:Es;
      [|discriminate].
    apply strip_ci_inv in Es. destruct Es as [-> Hm].
    rewrite (ipfs_path_long _ _ Hm).
    apply (IpfsLink.getIpfsLink_long_prefix x gateway
             ((g ++ js "://") ++ m) rest).
    + rewrite Hx, app_assoc. reflexivity.
    + change (js "ipfs://ipfs/") with (js "ipfs://" ++ js "ipfs/").
      apply Forall2_app; assumption.
  - unfold ipfs_path. rewrite E.
    exact (getIpfsLink_matched _ _ _ gateway H E).
Qed.


Lemma get_property_truthy md key v :
  get_property md key = Some v -> falsy md = false.
Proof. destruct md; simpl; intros H; try discriminate. reflexivity. Qed.


(** *** The linkage is only appended to *)

Lemma grows_ret {A} (a : A) : grows (ret a).
Proof. intros st. exists []. simpl. rewrite app_nil_r. reflexivity. Qed.

Lemma grows_return {A} o : grows (@return_ A o).
Proof. intros st. exists []. simpl. rewrite app_nil_r. reflexivity. Qed.

Lemma grows_lift {A} (r : result A) : grows (lift r).
Proof.
  intros st. exists []. unfold lift. destruct r; simpl;
    rewrite app_nil_r; reflexivity.
Qed.

Lemma grows_push ty c : grows (push ty c).
Proof. intros st. eexists. reflexivity. Qed.

Lemma grows_get_linkage : grows get_linkage.
Proof. intros st. exists []. simpl. rewrite app_nil_r. reflexivity. Qed.

Lemma grows_call w tx : grows (call w tx).
Proof.
  intros st. exists []. unfold call. destruct (provider_call w tx); simpl;
    rewrite app_nil_r; reflexivity.
Qed.

Lemma grows_bind {A B} (c : M A) (k : A -> M B) :
  grows c -> (forall a, grows (k a)) -> grows (bind c k).
Proof.
  intros Hc Hk st. unfold bind. destruct (Hc st) as [l Hl].
  destruct (c st) as [[a|o|msg] st']; simpl in Hl.
  - destruct (Hk a st') as [l' Hl']. exists (l ++ l').
    rewrite Hl', Hl, app_assoc. reflexivity.
  - exists l. exact Hl.
  - exists l. exact Hl.
Qed.

Ltac grows_step :=
  first
    [ apply grows_bind
    | apply grows_ret
    | apply grows_return
    | apply grows_lift
    | apply grows_push
    | apply grows_get_linkage
    | apply grows_call
    | match goal with
      | |- grows (if ?b then _ else _) => destruct b
      | |- grows (match ?x with _ => _ end) => destruct x
      | |- grows (let _ := _ in _) => cbv zeta
      | |- forall _, _ => intro
      end ].

Lemma grows_check_ownership w scheme owner addr tokenId :
  grows (check_ownership w scheme owner addr tokenId).
Proof. unfold check_ownership. repeat grows_step. Qed.

Lemma grows_metadata_url plugin w scheme selector comp0 tokenId :
  grows (metadata_url plugin w scheme selector comp0 tokenId).
Proof. unfold metadata_url. repeat grows_step. Qed.

Lemma grows_image_url w metadataUrl : grows (image_url w metadataUrl).
Proof. unfold image_url. repeat grows_step. Qed.

Lemma grows_resolve_metadata plugin w scheme selector comp0 tokenId :
  grows (resolve_metadata plugin w scheme selector comp0 tokenId).
Proof.
  unfold resolve_metadata.
  apply grows_bind; [apply grows_metadata_url | intro].
  apply grows_bind; [apply grows_image_url | intro].
  repeat grows_step.
Qed.

Lemma grows_resolve_token plugin w scheme avatar match2 owner :
  grows (resolve_token plugin w scheme avatar match2 owner).
Proof.
  unfold resolve_token. cbv zeta.
  apply grows_bind; [apply grows_push | intro].
  destruct (split 47%N match2) as [|c0 [|c1 [|c2 l]]]; try apply grows_return.
  apply grows_bind; [apply grows_lift | intro].
  apply grows_bind; [apply grows_lift | intro].
  apply grows_bind; [apply grows_lift | intro].
  apply grows_bind; [apply grows_check_ownership | intro].
  apply grows_resolve_metadata.
Qed.

Lemma grows_switch_scheme plugin w owner avatar scheme match2 :
  grows (switch_scheme plugin w owner avatar scheme match2).
Proof.
  unfold switch_scheme.
  destruct (str_eqb scheme (js "https")); [repeat grows_step|].
  destruct (str_eqb scheme (js "data")); [repeat grows_step|].
  destruct (str_eqb scheme (js "ipfs")); [repeat grows_step|].
  destruct (is_erc721 scheme || is_erc1155 scheme);
    [apply grows_resolve_token | apply grows_ret].
Qed.

Lemma grows_for_matchers plugin w owner avatar ms :
  grows (for_matchers plugin w owner avatar ms).
Proof.
  induction ms as [|m ms IH]; cbn [for_matchers]; [apply grows_ret|].
  destruct (exec m avatar) as [[m1 m2]|]; [|exact IH].
  apply grows_bind; [apply grows_switch_scheme | intro; exact IH].
Qed.

Lemma grows_avatar_try plugin w this : grows (avatar_try plugin w this).
Proof.
  unfold avatar_try. apply grows_bind; [apply grows_lift | intros acc].
  destruct acc as [[[owner|]]|]; try apply grows_return.
  destruct (negb (truthy_string owner)); [apply grows_return|].
  apply grows_bind; [apply grows_lift | intros recs].
  destruct recs as [|r rs]; [apply grows_return|].
  destruct (negb (truthy_string (value r)));
    [apply grows_return | apply grows_for_matchers].
Qed.

(** What a stage has appended stays in the linkage of the whole run. *)
Lemma bind_keeps {A B} (c : M A) (k : A -> M B) st s :
  (forall a, grows (k a)) ->
  In s (st_linkage (snd (c st))) ->
  In s (st_linkage (snd (bind c k st))).
Proof.
  intros Hk Hin. unfold bind.
  destruct (c st) as [[a|o|msg] st']; simpl in *; try assumption.
  destruct (Hk a st') as [l ->]. apply in_or_app. left. exact Hin.
Qed.

Lemma settle_state r : snd (settle r) = snd r.
Proof. destruct r as [[a|o|msg] st]; reflexivity. Qed.

End Pipeline.

(* ===================================================================== *)
(** ** The token word *)
(* ===================================================================== *)

Module TokenWord.
Import JS Ethers Avatar Spec StringFacts Abi Pipeline.

Local Open Scope N_scope.

Lemma hex_digit_lower d : d < 16 -> is_lower_hex_digit (hex_digit d) = true.
Proof.
  intros H. destruct d as [|p]; [reflexivity|].
  do 5 (try (destruct p as [p|p|])); try lia; reflexivity.
Qed.

Lemma lower_hex_is_hex c : is_lower_hex_digit c = true -> is_hex_digit c = true.
Proof.
  unfold is_lower_hex_digit, is_hex_digit. intros H.
  apply orb_true_iff in H. destruct H as [-> | ->];
    [reflexivity | apply orb_true_r].
Qed.

Lemma hex_of_N_from_value fuel : forall n acc,
  n < 2 ^ N.of_nat fuel ->
  hex_value_from 0 (hex_of_N_from fuel n acc) = hex_value_from n acc.
Proof.
  induction fuel as [|fuel IH]; intros n acc Hn.
  - simpl in *. replace n with 0 by lia. reflexivity.
  - cbn [hex_of_N_from]. destruct (n =? 0) eqn:E.
    + apply N.eqb_eq in E. subst. reflexivity.
    + rewrite IH.
      * cbn [hex_value_from].
        destruct (hex_digit_ok (n mod 16)) as [_ ->];
          [apply N.mod_lt; lia|].
        f_equal. pose proof (N.div_mod n 16). lia.
      * rewrite Nat2N.inj_succ, N.pow_succ_r' in Hn.
        apply N.Div0.div_lt_upper_bound. lia.
Qed.

Lemma hex_of_N_from_lower fuel : forall n acc,
  forallb is_lower_hex_digit acc = true ->
  forallb is_lower_hex_digit (hex_of_N_from fuel n acc) = true.
Proof.
  induction fuel as [|fuel IH]; intros n acc Hacc; cbn [hex_of_N_from].
  - exact Hacc.
  - destruct (n =? 0); [exact Hacc|]. apply IH. cbn [forallb].
    rewrite Hacc, hex_digit_lower; [reflexivity | apply N.mod_lt; lia].
Qed.

Lemma hex_of_N_value n : hex_value (hex_of_N n) = Some n.
Proof.
  unfold hex_of_N. destruct (n =? 0) eqn:E.
  - apply N.eqb_eq in E. subst. reflexivity.
  - unfold hex_value. rewrite hex_of_N_from_value; [reflexivity|].
    rewrite N2Nat.id. apply N.size_gt.
Qed.

Lemma hex_of_N_lower n : forallb is_lower_hex_digit (hex_of_N n) = true.
Proof.
  unfold hex_of_N. destruct (n =? 0); [reflexivity|].
  apply hex_of_N_from_lower. reflexivity.
Qed.

Local Close Scope N_scope.

Lemma trim00_forallb (P : jschar -> bool) : forall k ds,
  (length ds <= k)%nat -> forallb P ds = true -> forallb P (trim00 ds) = true.
Proof.
  induction k as [|k IH]; intros ds Hk Hds.
  - destruct ds; [reflexivity | simpl in Hk; lia].
  - destruct ds as [|c1 [|c2 rest]]; try assumption.
    cbn [trim00].
    match goal with
    | |- context [if ?b then _ else _] => destruct b; [|assumption]
    end.
    apply IH; [simpl in Hk; lia|].
    cbn [forallb] in Hds. apply andb_true_iff in Hds. destruct Hds as [_ Hds].
    apply andb_true_iff in Hds. tauto.
Qed.

Lemma substring_0_2 h : substring h 0 2 = firstn 2 h.
Proof.
  destruct h as [|a [|b t]]; try reflexivity.
  exact (substring_middle [] [a; b] t).
Qed.

(** [toHex] on the digits bn.js prints. *)
Lemma toHex_unsigned_lower h n :
  forallb is_lower_hex_digit h = true -> hex_value h = Some n ->
  exists d, toHex_unsigned h = js "0x" ++ d
            /\ forallb is_lower_hex_digit d = true
            /\ hex_value d = Some n.
Proof.
  intros Hlow Hval. unfold toHex_unsigned. rewrite substring_0_2.
  destruct (str_eqb (firstn 2 h) (js "0x")) eqn:E.
  { apply str_eqb_eq in E. destruct h as [|a [|b t]]; try discriminate.
    inversion E; subst. discriminate. }
  destruct (str_eqb (js "0x" ++ h) (js "0x")) eqn:E0.
  { apply str_eqb_eq in E0. destruct h; [|discriminate].
    exists (js "00"). inversion Hval; subst. repeat split. }
  destruct (Nat.odd (length (js "0x" ++ h))).
  - exists (trim00 (48%N :: h)). split; [|split].
    + f_equal. f_equal.
      rewrite (substring_from_app (js "0x") h
               : substring_from (js "0x" ++ h) 2 = h).
      exact (substring_from_app (js "0x") (48%N :: h)).
    + apply (trim00_forallb _ (S (length h))); [simpl; lia|].
      cbn [forallb]. rewrite Hlow. reflexivity.
    + rewrite (trim00_value (S (length h))) by (simpl; lia). exact Hval.
  - exists (trim00 h). split; [|split].
    + f_equal. f_equal. exact (substring_from_app (js "0x") h).
    + apply (trim00_forallb _ (length h)); [lia | exact Hlow].
    + rewrite (trim00_value (length h)) by lia. exact Hval.
Qed.

Lemma digit_not_minus a : is_digit a = true -> char_eqb a minus_sign = false.
Proof.
  unfold is_digit, char_eqb, minus_sign. intros H.
  apply andb_true_iff in H. destruct H as [H _]. apply N.leb_le in H.
  apply N.eqb_neq. lia.
Qed.

Lemma digits_no_minus ds :
  forallb is_digit ds = true -> strip_minus ds = (false, ds).
Proof.
  intros H. unfold strip_minus. destruct ds as [|a t]; [reflexivity|].
  cbn [forallb] in H. apply andb_true_iff in H. destruct H as [Ha _].
  cbn [starts_with_minus]. rewrite (digit_not_minus _ Ha). reflexivity.
Qed.

Lemma digit_not_x b : is_digit b = true -> ci_char 120%N b = false.
Proof.
  unfold is_digit, ci_char, char_eqb. intros H.
  apply andb_true_iff in H. destruct H as [H1 H2].
  apply N.leb_le in H1, H2. apply N.eqb_neq.
  unfold lower_char, is_upper.
  replace ((65 <=? b)%N) with false by (symmetry; apply N.leb_gt; lia).
  cbn. lia.
Qed.

Lemma digits_not_hex_literal ds :
  forallb is_digit ds = true -> is_hex_literal ds = false.
Proof.
  intros H. unfold is_hex_literal. rewrite (digits_no_minus _ H). cbn [snd].
  change (js "0x") with [48%N; 120%N].
  destruct ds as [|a [|b t]]; try reflexivity.
  - cbn [strip_ci]. destruct (ci_char 48%N a); reflexivity.
  - cbn [forallb] in H. apply andb_true_iff in H. destruct H as [_ H].
    apply andb_true_iff in H. destruct H as [Hb _].
    cbn [strip_ci]. rewrite (digit_not_x _ Hb).
    destruct (ci_char 48%N a); reflexivity.
Qed.

Lemma hexZeroPad_digits d n p :
  hexZeroPad (js "0x" ++ d) n = Ok p ->
  exists k, p = js "0x" ++ repeat 48%N k ++ d.
Proof.
  unfold hexZeroPad.
  rewrite (substring_from_app (js "0x") d
           : substring_from (js "0x" ++ d) 2 = d).
  destruct (negb _); [discriminate|].
  destruct (_ <? _)%nat; [discriminate|].
  intros H. apply Ok_inj in H. eexists. symmetry. exact H.
Qed.

Lemma lower_hex_not_minus a :
  is_lower_hex_digit a = true -> char_eqb a minus_sign = false.
Proof.
  unfold is_lower_hex_digit, is_digit, char_eqb, minus_sign. intros H.
  apply N.eqb_neq. intros ->. discriminate.
Qed.

Lemma lower_hex_no_minus h :
  forallb is_lower_hex_digit h = true -> starts_with_minus h = false.
Proof.
  destruct h as [|a t]; [reflexivity|]. cbn [forallb starts_with_minus].
  intros H. apply andb_true_iff in H. destruct H as [Ha _].
  exact (lower_hex_not_minus _ Ha).
Qed.

Lemma hex_value_leading_zeros k ds :
  hex_value (repeat 48%N k ++ ds) = hex_value ds.
Proof.
  unfold hex_value. induction k as [|k IH]; [reflexivity|]. exact IH.
Qed.

Lemma toHex_unsigned_0x_lower ds n :
  ds <> [] -> forallb is_lower_hex_digit ds = true -> hex_value ds = Some n ->
  exists d, toHex_unsigned (js "0x" ++ ds) = js "0x" ++ d
            /\ forallb is_lower_hex_digit d = true
            /\ hex_value d = Some n.
Proof.
  intros Hne Hlow Hval. unfold toHex_unsigned.
  replace (substring (js "0x" ++ ds) 0 2) with (js "0x")
    by (symmetry; exact (substring_middle [] (js "0x") ds)).
  rewrite str_eqb_refl.
  replace (str_eqb (js "0x" ++ ds) (js "0x")) with false
    by (destruct ds; [congruence | reflexivity]).
  rewrite (substring_from_app (js "0x") ds
           : substring_from (js "0x" ++ ds) 2 = ds).
  destruct (Nat.odd (length (js "0x" ++ ds))).
  - exists (trim00 (48%N :: ds)). split; [|split].
    + f_equal. f_equal. exact (substring_from_app (js "0x") (48%N :: ds)).
    + apply (trim00_forallb _ (S (length ds))); [simpl; lia|].
      cbn [forallb]. rewrite Hlow. reflexivity.
    + rewrite (trim00_value (S (length ds))) by (simpl; lia). exact Hval.
  - exists (trim00 ds). split; [|split].
    + f_equal. f_equal. exact (substring_from_app (js "0x") ds).
    + apply (trim00_forallb _ (length ds)); [lia | exact Hlow].
    + rewrite (trim00_value (length ds)) by lia. exact Hval.
Qed.

Lemma lower_hex_digits ds :
  forallb is_lower_hex_digit ds = true -> forallb is_hex_digit ds = true.
Proof.
  intros H. apply forallb_forall. intros c Hc. apply lower_hex_is_hex.
  revert c Hc. apply forallb_forall. exact H.
Qed.

(** [BigNumber.from] on a numeral without upper-case letters. *)
Lemma BigNumber_from_lower comp1 n bn :
  lower_numeral comp1 n -> BigNumber_from comp1 = Ok bn ->
  exists d, _hex bn = js "0x" ++ d
            /\ forallb is_lower_hex_digit d = true
            /\ hex_value d = Some n.
Proof.
  intros [(Hne & Hdig & Hn) | (ds & -> & Hne & Hlow & Hval)] Hbn;
    unfold BigNumber_from in Hbn.
  - rewrite (digits_not_hex_literal _ Hdig) in Hbn.
    unfold is_dec_literal in Hbn.
    rewrite (digits_no_minus _ Hdig) in Hbn. cbn [snd] in Hbn.
    rewrite Hdig in Hbn.
    replace (Nat.eqb (length comp1) 0) with false in Hbn
      by (destruct comp1; [congruence | reflexivity]).
    cbn [negb andb] in Hbn. rewrite Hn in Hbn.
    assert (Hs : BN_toString true (Z.of_N n) = hex_of_N n).
    { unfold BN_toString. rewrite Zabs2N.id.
      replace (Z.of_N n <? 0)%Z with false; [reflexivity|].
      symmetry. apply Z.ltb_ge. lia. }
    rewrite Hs in Hbn. unfold toHex in Hbn.
    rewrite (lower_hex_no_minus _ (hex_of_N_lower n)) in Hbn.
    destruct (toHex_unsigned_lower _ _ (hex_of_N_lower n) (hex_of_N_value n))
      as (d & Hd & Hlowd & Hvald).
    rewrite Hd in Hbn. cbn [rbind] in Hbn. apply Ok_inj in Hbn. subst bn.
    exists d. auto.
  - assert (Hlit : is_hex_literal (js "0x" ++ ds) = true).
    { unfold is_hex_literal.
      change (snd (strip_minus (js "0x" ++ ds))) with (js "0x" ++ ds).
      rewrite (strip_ci_app (js "0x") (js "0x") ds) by (repeat constructor).
      rewrite (lower_hex_digits _ Hlow).
      destruct ds; [congruence | reflexivity]. }
    rewrite Hlit in Hbn.
    change (toHex (js "0x" ++ ds))
      with (Ok (toHex_unsigned (js "0x" ++ ds))) in Hbn.
    destruct (toHex_unsigned_0x_lower _ _ Hne Hlow Hval)
      as (d & Hd & Hlowd & Hvald).
    rewrite Hd in Hbn. cbn [rbind] in Hbn. apply Ok_inj in Hbn. subst bn.
    exists d. auto.
Qed.

(** The token word of a token number written without upper-case letters:
    64 hexadecimal digits in lower case whose value is the number. *)
Lemma token_word_lower comp1 n tokenId :
  lower_numeral comp1 n ->
  token_word comp1 = Ok tokenId ->
  length (skipn 2 tokenId) = 64%nat
  /\ forallb is_lower_hex_digit (skipn 2 tokenId) = true
  /\ hex_value (skipn 2 tokenId) = Some n.
Proof.
  intros Hnum Htok.
  destruct (token_word_ok _ _ Htok) as (bn & Hbn & Hpad & _ & Hlen).
  split; [rewrite length_skipn, Hlen; reflexivity|].
  destruct (BigNumber_from_lower _ _ _ Hnum Hbn) as (d & Hd & Hlow & Hval).
  unfold toHexString in Hpad. rewrite Hd in Hpad.
  destruct (hexZeroPad_digits _ _ _ Hpad) as [k ->].
  change (skipn 2 (js "0x" ++ repeat 48%N k ++ d)) with (repeat 48%N k ++ d).
  split.
  - apply forallb_forall. intros c Hc. apply in_app_or in Hc.
    destruct Hc as [Hc|Hc].
    + apply repeat_spec in Hc. subst. reflexivity.
    + revert c Hc. apply forallb_forall. exact Hlow.
  - rewrite hex_value_leading_zeros. exact Hval.
Qed.

Lemma replace_first_at pat rep a : forall b,
  first_at pat (a ++ pat ++ b) (length a) ->
  replace_first pat rep (a ++ pat ++ b) = a ++ rep ++ b.
Proof.
  induction a as [|c a IH]; intros b H.
  - cbn [app]. destruct (pat ++ b) eqn:E;
      cbn [replace_first]; rewrite <- E, strip_prefix_app; reflexivity.
  - assert (H0 := H 0%nat). cbn [length skipn] in H0.
    specialize (H0 (Nat.lt_0_succ _)).
    cbn [app replace_first] in *. rewrite H0. f_equal. apply IH.
    intros i Hi. apply (H (S i)). simpl. lia.
Qed.

End TokenWord.

(* ===================================================================== *)
(** ** The ERC-1155 expansion *)
(* ===================================================================== *)

Module Expansion.
Import JS Ethers Avatar Spec StringFacts Pipeline TokenWord.

(** X25. For an ERC-1155 reference whose token number is written
    without upper-case letters (in decimal, as token 5, or in
    hexadecimal after 0x), whose balance is not zero and whose decoded
    [uri] result holds [{id}]: the first [{id}], and no later one, is
    replaced by the 64 digits, hexadecimal and lower case, of the token
    number, without 0x, and the linkage of the run holds a
    metadata-url-expanded step with the substituted URI. *)
Theorem erc1155_id_expansion (plugin : BitPluginAvatar) (w : World)
  (this : BitAccount)
  (owner avatar comp0 comp1 addr tokenId owner32 rb r u a b : jsstring)
  (balance : BigNumber) (z : Z) (n : N) :
  token_avatar w this owner avatar (js "erc1155") comp0 comp1 addr tokenId ->
  lower_numeral comp1 n ->
  hexZeroPad owner 32 = Ok owner32 ->
  provider_call w (balanceOf_tx addr owner32 tokenId) = Ok rb ->
  BigNumber_from rb = Ok balance ->
  toBN balance = Ok z -> z <> 0%Z ->
  provider_call w (metadata_tx (js "erc1155") addr tokenId) = Ok r ->
  _parseString r 0 = Ok (Some u) ->
  u = a ++ js "{id}" ++ b -> first_at (js "{id}") u (length a) ->
  length (skipn 2 tokenId) = 64%nat
  /\ forallb is_lower_hex_digit (skipn 2 tokenId) = true
  /\ hex_value (skipn 2 tokenId) = Some n
  /\ In (step "metadata-url-expanded" (a ++ skipn 2 tokenId ++ b))
        (st_linkage (snd (run_avatar plugin w this))).
Proof.
  intros Htok Hnum Hpad Hcallb Hbal Hbn Hz Hcall Hparse Hu Hfirst.
  destruct (token_word_lower comp1 n tokenId Hnum
              (proj2 (proj2 (proj2 (proj2 Htok))))) as (H1 & H2 & H3).
  split; [exact H1|]. split; [exact H2|]. split; [exact H3|].
  destruct (token_avatar_hex_data _ _ _ _ _ _ _ _ _ Htok) as [Hhex _].
  rewrite (run_avatar_token _ _ _ _ _ _ _ _ _ _ Htok), settle_state.
  assert (Hzero : isZero balance = Ok false).
  { unfold isZero. rewrite Hbn. cbn [rbind]. f_equal.
    apply Z.eqb_neq. exact Hz. }
  erewrite bind_normal.
  2:{ rewrite (check_ownership_erc1155 _ _ _ _ _ _ _ _ _ Hhex Hpad Hcallb
                 Hbal Hzero).
      unfold BigNumber_toString. rewrite Hbn. reflexivity. }
  unfold resolve_metadata. apply bind_keeps.
  { intro. apply grows_bind; [apply grows_image_url | intro].
    repeat grows_step. }
  rewrite (metadata_url_decoded _ _ _ _ _ _ _ _ _ Hhex
             (proj1 (proj2 (proj2 (proj2 Htok)))) Hcall Hparse).
  change (is_erc1155 (js "erc1155")) with true. cbv zeta iota.
  assert (He : expand (js "erc1155") tokenId u = a ++ skipn 2 tokenId ++ b).
  { unfold expand. change (is_erc1155 (js "erc1155")) with true. cbv iota.
    rewrite substring_from_2. subst u. apply replace_first_at. exact Hfirst. }
  rewrite He.
  destruct (translate plugin _) as [u'|msg]; cbn [snd with_step st_linkage];
    rewrite ?in_app_iff; simpl; tauto.
Qed.

End Expansion.

(* ===================================================================== *)
(** ** Failures end in null *)
(* ===================================================================== *)

Module Unresolved.
Import JS Ethers Avatar Spec StringFacts Pipeline.

Local Open Scope avatar_scope.

(** *** A returned result carries the whole linkage *)

Lemma whole_ret {A} (a : A) : whole (ret a).
Proof. intros st r st' H. discriminate. Qed.

Lemma whole_return_none {A} : whole (@return_ A None).
Proof. intros st r st' H. discriminate. Qed.

Lemma whole_lift {A} (x : result A) : whole (lift x).
Proof. intros st r st' H. unfold lift in H. destruct x; discriminate. Qed.

Lemma whole_push ty c : whole (push ty c).
Proof. intros st r st' H. discriminate. Qed.

Lemma whole_call w tx : whole (call w tx).
Proof.
  intros st r st' H. unfold call in H.
  destruct (provider_call w tx); discriminate.
Qed.

Lemma whole_bind {A B} (c : M A) (k : A -> M B) :
  whole c -> (forall a, whole (k a)) -> whole (bind c k).
Proof.
  intros Hc Hk st r st' H. unfold bind in H.
  destruct (c st) as [[a|o|msg] st1] eqn:E.
  - exact (Hk a _ _ _ H).
  - inversion H; subst. exact (Hc _ _ _ E).
  - discriminate.
Qed.

Lemma whole_result {A} u :
  whole (l <- get_linkage ;;
         @return_ A (Some {| linkage := l; url := u |})).
Proof.
  intros st r st' H. unfold bind, get_linkage, return_ in H.
  inversion H; subst. reflexivity.
Qed.

Lemma whole_result_lift {A} (x : result jsstring) :
  whole (l <- get_linkage ;;
         u <- lift x ;;
         @return_ A (Some {| linkage := l; url := u |})).
Proof.
  intros st r st' H. unfold bind, get_linkage, return_, lift in H.
  destruct x; inversion H; subst. reflexivity.
Qed.

Ltac whole_step :=
  first
    [ apply whole_result
    | apply whole_result_lift
    | apply whole_bind
    | apply whole_ret
    | apply whole_return_none
    | apply whole_lift
    | apply whole_push
    | apply whole_call
    | match goal with
      | |- whole (if ?b then _ else _) => destruct b
      | |- whole (match ?x with _ => _ end) => destruct x
      | |- forall _, _ => intro
      end ].

Lemma whole_check_ownership w scheme owner addr tokenId :
  whole (check_ownership w scheme owner addr tokenId).
Proof. unfold check_ownership. repeat whole_step. Qed.

Lemma whole_metadata_url plugin w scheme selector comp0 tokenId :
  whole (metadata_url plugin w scheme selector comp0 tokenId).
Proof. unfold metadata_url. repeat whole_step. Qed.

Lemma whole_image_url w metadataUrl : whole (image_url w metadataUrl).
Proof. unfold image_url. repeat whole_step. Qed.

Lemma whole_resolve_metadata plugin w scheme selector comp0 tokenId :
  whole (resolve_metadata plugin w scheme selector comp0 tokenId).
Proof.
  unfold resolve_metadata.
  apply whole_bind; [apply whole_metadata_url | intro].
  apply whole_bind; [apply whole_image_url | intro].
  apply whole_bind; [apply whole_push | intro].
  apply whole_result.
Qed.

Lemma whole_resolve_token plugin w scheme avatar match2 owner :
  whole (resolve_token plugin w scheme avatar match2 owner).
Proof.
  unfold resolve_token. cbv zeta.
  apply whole_bind; [apply whole_push | intro].
  destruct (split 47%N match2) as [|c0 [|c1 [|c2 l]]];
    try apply whole_return_none.
  apply whole_bind; [apply whole_lift | intro].
  apply whole_bind; [apply whole_lift | intro].
  apply whole_bind; [apply whole_lift | intro].
  apply whole_bind; [apply whole_check_ownership | intro].
  apply whole_resolve_metadata.
Qed.

Lemma whole_switch_scheme plugin w owner avatar scheme match2 :
  whole (switch_scheme plugin w owner avatar scheme match2).
Proof.
  unfold switch_scheme.
  destruct (str_eqb scheme (js "https")).
  { apply whole_bind; [apply whole_push | intro]. apply whole_result. }
  destruct (str_eqb scheme (js "data")).
  { apply whole_bind; [apply whole_push | intro]. apply whole_result. }
  destruct (str_eqb scheme (js "ipfs")).
  { apply whole_bind; [apply whole_push | intro]. apply whole_result_lift. }
  destruct (is_erc721 scheme || is_erc1155 scheme);
    [apply whole_resolve_token | apply whole_ret].
Qed.

Lemma whole_for_matchers plugin w owner avatar ms :
  whole (for_matchers plugin w owner avatar ms).
Proof.
  induction ms as [|m ms IH]; cbn [for_matchers]; [apply whole_ret|].
  destruct (exec m avatar) as [[m1 m2]|]; [|exact IH].
  apply whole_bind; [apply whole_switch_scheme | intro; exact IH].
Qed.

Lemma whole_avatar_try plugin w this : whole (avatar_try plugin w this).
Proof.
  unfold avatar_try. apply whole_bind; [apply whole_lift | intros acc].
  destruct acc as [[[owner|]]|]; try apply whole_return_none.
  destruct (negb (truthy_string owner)); [apply whole_return_none|].
  apply whole_bind; [apply whole_lift | intros recs].
  destruct recs as [|r rs]; [apply whole_return_none|].
  destruct (negb (truthy_string (value r)));
    [apply whole_return_none | apply whole_for_matchers].
Qed.

Lemma settle_some r o :
  fst (settle r) = Return (Some o) -> fst r = Return (Some o).
Proof. destruct r as [[a|o'|msg] st]; simpl; intros H; congruence. Qed.

Lemma settle_bind_null {A} (c : M A) (k : A -> M unit) st :
  fst (c st) = Return None -> fst (settle (bind c k st)) = Return None.
Proof.
  unfold bind. destruct (c st) as [[a|o|msg] st']; simpl; intros H;
    try discriminate. inversion H. reflexivity.
Qed.

Lemma settle_bind_thrown {A} (c : M A) (k : A -> M unit) st msg :
  fst (c st) = Throw msg -> fst (settle (bind c k st)) = Return None.
Proof.
  unfold bind. destruct (c st) as [[a|o|msg'] st']; simpl; intros H;
    try discriminate. reflexivity.
Qed.

(** *** The failure conditions, one by one *)

Section Failures.
Variables (plugin : BitPluginAvatar) (w : World) (this : BitAccount).


Lemma avatar_result : Avatar.avatar plugin w this = outcome_of plugin w this.
Proof.
  unfold Avatar.avatar, outcome_of. rewrite run_avatar_settle. reflexivity.
Qed.

Lemma missing_owner_key :
  info this = Ok None
  \/ info this = Ok (Some {| owner_key := None |})
  \/ info this = Ok (Some {| owner_key := Some [] |}) ->
  outcome_of plugin w this = Return None.
Proof.
  unfold outcome_of, avatar_try.
  intros [H|[H|H]]; rewrite (bind_lift_ok _ _ _ _ H); reflexivity.
Qed.

Lemma absent_avatar_record owner :
  info this = Ok (Some {| owner_key := Some owner |}) ->
  records this (js "profile.avatar") = Ok []
  \/ (exists r rs, records this (js "profile.avatar") = Ok (r :: rs)
                   /\ value r = []) ->
  outcome_of plugin w this = Return None.
Proof.
  unfold outcome_of, avatar_try. intros Hinfo H.
  rewrite (bind_lift_ok _ _ _ _ Hinfo).
  destruct (negb (truthy_string owner)); [reflexivity|].
  destruct H as [H|(r & rs & H & Hv)]; rewrite (bind_lift_ok _ _ _ _ H);
    [reflexivity | rewrite Hv; reflexivity].
Qed.

Lemma unmatched_scheme owner avatar :
  has_avatar this owner avatar -> (forall m, exec m avatar = None) ->
  outcome_of plugin w this = Return None.
Proof.
  unfold outcome_of. intros Hav H.
  rewrite (avatar_try_has_avatar _ _ _ _ _ _ Hav).
  destruct (negb (truthy_string avatar)); [reflexivity|].
  unfold matchers. cbn [for_matchers]. rewrite !H. reflexivity.
Qed.

Lemma match_eip155_scheme s match1 match2 :
  match_eip155 s = Some (match1, match2) ->
  exists d, toLowerCase match1 = js "erc" ++ d.
Proof.
  unfold match_eip155, obind. intros H.
  destruct (strip_ci (js "eip155:") s) as [[x0 r0]|]; [|discriminate].
  destruct (digits1 r0) as [[x1 r1]|]; [|discriminate].
  destruct (strip_prefix (js "/") r1) as [r2|]; [|discriminate].
  destruct (strip_ci (js "erc") r2) as [[e r3]|] eqn:He; [|discriminate].
  destruct (digits1 r3) as [[d r4]|]; [|discriminate].
  destruct (strip_prefix (js ":") r4) as [r5|]; [|discriminate].
  destruct (dot_star_end r5) as [g2|]; [|discriminate].
  inversion H; subst. apply strip_ci_inv in He. destruct He as [_ He].
  exists (toLowerCase d). unfold toLowerCase at 1. rewrite map_app.
  fold (toLowerCase e). fold (toLowerCase d).
  rewrite (eq_ci_lower _ _ He). reflexivity.
Qed.

Lemma unknown_token_standard owner avatar match1 match2 :
  has_avatar this owner avatar ->
  exec matcherEip155 avatar = Some (match1, match2) ->
  is_erc721 (toLowerCase match1) || is_erc1155 (toLowerCase match1) = false ->
  outcome_of plugin w this = Return None.
Proof.
  unfold outcome_of. intros Hav Hexec Hs.
  rewrite (avatar_try_matched _ _ _ _ _ _ _ _ Hav Hexec).
  unfold matchers. cbn [for_matchers].
  rewrite (exec_exclusive _ matcherHttps _ _ Hexec) by discriminate.
  rewrite (exec_exclusive _ matcherData _ _ Hexec) by discriminate.
  rewrite (exec_exclusive _ matcherIpfs _ _ Hexec) by discriminate.
  rewrite Hexec. unfold switch_scheme. rewrite Hs.
  destruct (match_eip155_scheme _ _ _ Hexec) as [d ->].
  reflexivity.
Qed.

Lemma malformed_token_reference owner avatar match1 match2 :
  has_avatar this owner avatar ->
  exec matcherEip155 avatar = Some (match1, match2) ->
  is_erc721 (toLowerCase match1) || is_erc1155 (toLowerCase match1) = true ->
  length (split 47%N match2) <> 2%nat
  \/ (exists comp0 comp1,
        split 47%N match2 = [comp0; comp1]
        /\ ((exists msg, formatter_address w comp0 = Err msg)
            \/ (exists msg, token_word comp1 = Err msg))) ->
  outcome_of plugin w this = Return None.
Proof.
  unfold outcome_of. intros Hav Hexec Hs H.
  rewrite (avatar_try_matched _ _ _ _ _ _ _ _ Hav Hexec).
  rewrite (for_matchers_token _ _ _ _ _ _ _ _ Hexec eq_refl Hs).
  unfold resolve_token. cbv zeta. rewrite bind_push.
  destruct H as [H|(c0 & c1 & Hsplit & H)].
  - destruct (split 47%N match2) as [|x0 [|x1 [|x2 l]]]; try reflexivity.
    exfalso. apply H. reflexivity.
  - rewrite Hsplit. destruct H as [[msg H]|[msg H]].
    + rewrite (bind_lift_err _ _ _ _ H). reflexivity.
    + destruct (formatter_address w c0) as [addr|msg']; [|reflexivity].
      erewrite bind_lift_ok by reflexivity.
      unfold token_word in H.
      destruct (BigNumber_from c1) as [bn|msg']; [|reflexivity].
      erewrite bind_lift_ok by reflexivity. cbn [rbind] in H.
      rewrite (bind_lift_err _ _ _ _ H). reflexivity.
Qed.

Lemma run_result r : run_avatar plugin w this = r -> outcome_of plugin w this = fst r.
Proof. intros <-. unfold outcome_of. rewrite run_avatar_settle. reflexivity. Qed.

Lemma verified_run owner avatar scheme comp0 comp1 addr tokenId st :
  verified w this owner avatar scheme comp0 comp1 addr tokenId st ->
  outcome_of plugin w this
  = fst (settle (resolve_metadata plugin w scheme (selector_of scheme)
                   comp0 tokenId st)).
Proof.
  intros [Htok Hcheck]. erewrite run_result.
  2:{ rewrite (run_avatar_token _ _ _ _ _ _ _ _ _ _ Htok).
      erewrite bind_normal by exact Hcheck. reflexivity. }
  reflexivity.
Qed.

Lemma located_run owner avatar scheme comp0 comp1 addr tokenId murl st :
  located plugin w this owner avatar scheme comp0 comp1 addr tokenId murl st ->
  outcome_of plugin w this
  = fst (settle ((imageUrl <- image_url w murl ;;
                  push (js "url") imageUrl ;;;
                  l <- get_linkage ;;
                  return_ (Some {| linkage := l; url := imageUrl |})) st)).
Proof.
  intros (st0 & Hver & Hurl). rewrite (verified_run _ _ _ _ _ _ _ _ Hver).
  unfold resolve_metadata. erewrite bind_normal by exact Hurl. reflexivity.
Qed.

Lemma verified_facts owner avatar scheme comp0 comp1 addr tokenId st :
  verified w this owner avatar scheme comp0 comp1 addr tokenId st ->
  hex_data tokenId /\ formatter_address w comp0 = Ok addr.
Proof.
  intros [Htok _]. split.
  - exact (proj1 (token_avatar_hex_data _ _ _ _ _ _ _ _ _ Htok)).
  - exact (proj1 (proj2 (proj2 (proj2 Htok)))).
Qed.

Lemma abi_decode_failure owner avatar scheme comp0 comp1 addr tokenId st r :
  verified w this owner avatar scheme comp0 comp1 addr tokenId st ->
  provider_call w (metadata_tx scheme addr tokenId) = Ok r ->
  _parseString r 0 = Ok None ->
  outcome_of plugin w this = Return None.
Proof.
  intros Hver Hcall Hparse. rewrite (verified_run _ _ _ _ _ _ _ _ Hver).
  destruct (verified_facts _ _ _ _ _ _ _ _ Hver) as [Hhex Haddr].
  unfold resolve_metadata. apply settle_bind_null.
  rewrite (metadata_url_undecoded _ _ _ _ _ _ _ _ Hhex Haddr Hcall Hparse).
  reflexivity.
Qed.

Lemma unsupported_ipfs_metadata owner avatar scheme comp0 comp1 addr tokenId
  st r u msg :
  verified w this owner avatar scheme comp0 comp1 addr tokenId st ->
  provider_call w (metadata_tx scheme addr tokenId) = Ok r ->
  _parseString r 0 = Ok (Some u) ->
  translate plugin (expand scheme tokenId u) = Err msg ->
  outcome_of plugin w this = Return None.
Proof.
  intros Hver Hcall Hparse Htr. rewrite (verified_run _ _ _ _ _ _ _ _ Hver).
  destruct (verified_facts _ _ _ _ _ _ _ _ Hver) as [Hhex Haddr].
  unfold resolve_metadata. apply (settle_bind_thrown _ _ _ msg).
  rewrite (metadata_url_decoded _ _ _ _ _ _ _ _ _ Hhex Haddr Hcall Hparse).
  cbv zeta. rewrite Htr. reflexivity.
Qed.

Lemma metadata_call_failure owner avatar scheme comp0 comp1 addr tokenId st msg :
  verified w this owner avatar scheme comp0 comp1 addr tokenId st ->
  provider_call w (metadata_tx scheme addr tokenId) = Err msg ->
  outcome_of plugin w this = Return None.
Proof.
  intros Hver Hcall. rewrite (verified_run _ _ _ _ _ _ _ _ Hver).
  destruct (verified_facts _ _ _ _ _ _ _ _ Hver) as [Hhex Haddr].
  unfold resolve_metadata. apply (settle_bind_thrown _ _ _ msg).
  unfold metadata_url. erewrite bind_lift_ok by exact Haddr.
  erewrite bind_lift_ok
    by (apply hexConcat_calldata;
        [apply hexlify_selector_of
        | apply Forall_cons; [exact Hhex | apply Forall_nil]]).
  rewrite (bind_call_err _ _ _ _ _ Hcall). reflexivity.
Qed.

Lemma metadata_fetch_failure owner avatar scheme comp0 comp1 addr tokenId
  murl st :
  located plugin w this owner avatar scheme comp0 comp1 addr tokenId murl st ->
  (exists msg, fetchJson w murl = Err msg)
  \/ (exists md, fetchJson w murl = Ok md /\ falsy md = true) ->
  outcome_of plugin w this = Return None.
Proof.
  intros Hloc H. rewrite (located_run _ _ _ _ _ _ _ _ _ Hloc).
  destruct H as [[msg H]|(md & H & Hf)].
  - apply (settle_bind_thrown _ _ _ msg).
    unfold image_url. rewrite (bind_lift_err _ _ _ _ H). reflexivity.
  - apply settle_bind_null.
    rewrite (image_url_fetched _ _ _ _ H), Hf. reflexivity.
Qed.

Lemma missing_image_field owner avatar scheme comp0 comp1 addr tokenId
  murl st md :
  located plugin w this owner avatar scheme comp0 comp1 addr tokenId murl st ->
  fetchJson w murl = Ok md ->
  (forall img, get_property md (js "image") <> Some (JString img)) ->
  outcome_of plugin w this = Return None.
Proof.
  intros Hloc Hfetch H. rewrite (located_run _ _ _ _ _ _ _ _ _ Hloc).
  apply settle_bind_null.
  rewrite (image_url_fetched _ _ _ _ Hfetch).
  destruct (falsy md); [reflexivity|]. cbv zeta.
  destruct (get_property md (js "image")) as [[|b|n d|img|items|fields]|];
    try reflexivity.
  exfalso. exact (H img eq_refl).
Qed.

Lemma unsupported_ipfs_format owner avatar scheme comp0 comp1 addr tokenId
  murl st md img :
  located plugin w this owner avatar scheme comp0 comp1 addr tokenId murl st ->
  fetchJson w murl = Ok md ->
  get_property md (js "image") = Some (JString img) ->
  starts_ci (js "https://") img = false ->
  starts_ci (js "data:") img = false ->
  exec matcherIpfs img = None ->
  outcome_of plugin w this = Return None.
Proof.
  intros Hloc Hfetch Himg H1 H2 H3.
  rewrite (located_run _ _ _ _ _ _ _ _ _ Hloc).
  apply settle_bind_null.
  rewrite (image_url_fetched _ _ _ _ Hfetch).
  rewrite (get_property_truthy _ _ _ Himg), Himg, H1, H2, H3. reflexivity.
Qed.

Lemma transport_failure :
  (exists msg, info this = Err msg)
  \/ (exists owner msg,
        info this = Ok (Some {| owner_key := Some owner |})
        /\ records this (js "profile.avatar") = Err msg) ->
  outcome_of plugin w this = Return None.
Proof.
  unfold outcome_of, avatar_try. intros [[msg H]|(owner & msg & Hinfo & H)].
  - rewrite (bind_lift_err _ _ _ _ H). reflexivity.
  - rewrite (bind_lift_ok _ _ _ _ Hinfo).
    destruct (negb (truthy_string owner)); [reflexivity|].
    rewrite (bind_lift_err _ _ _ _ H). reflexivity.
Qed.

Lemma call_failure owner avatar comp0 comp1 addr tokenId msg :
  token_avatar w this owner avatar (js "erc721") comp0 comp1 addr tokenId ->
  provider_call w (ownerOf_tx addr tokenId) = Err msg ->
  outcome_of plugin w this = Return None.
Proof.
  intros Htok Hcall.
  destruct (token_avatar_hex_data _ _ _ _ _ _ _ _ _ Htok) as [Hhex _].
  erewrite run_result.
  2:{ rewrite (run_avatar_token _ _ _ _ _ _ _ _ _ _ Htok).
      erewrite bind_throw; [reflexivity|].
      unfold check_ownership. change (is_erc721 (js "erc721")) with true.
      cbv iota.
      erewrite bind_lift_ok
        by (apply hexConcat_calldata;
            [reflexivity | apply Forall_cons; [exact Hhex | apply Forall_nil]]).
      exact (bind_call_err _ _ _ _ _ Hcall). }
  reflexivity.
Qed.

Lemma failure_unresolved : failure plugin w this -> outcome_of plugin w this = Return None.
Proof.
  intros [H | owner H1 H2 | owner avatar H1 H2 | owner avatar m1 m2 H1 H2 H3
         | owner avatar m1 m2 H1 H2 H3 H4
         | owner avatar c0 c1 addr tokenId r t H1 H2 H3 H4
         | owner avatar c0 c1 addr tokenId o r bal H1 H2 H3 H4 H5
         | owner avatar scheme c0 c1 addr tokenId st r H1 H2 H3
         | owner avatar scheme c0 c1 addr tokenId st r u msg H1 H2 H3 H4
         | owner avatar scheme c0 c1 addr tokenId murl st H1 H2
         | owner avatar scheme c0 c1 addr tokenId murl st md H1 H2 H3
         | owner avatar scheme c0 c1 addr tokenId murl st md img H1 H2 H3 H4 H5 H6
         | H
         | owner avatar c0 c1 addr tokenId msg H1 H2
         | owner avatar scheme c0 c1 addr tokenId st msg H1 H2
         | msg st H].
  - exact (missing_owner_key H).
  - exact (absent_avatar_record _ H1 H2).
  - exact (unmatched_scheme _ _ H1 H2).
  - exact (unknown_token_standard _ _ _ _ H1 H2 H3).
  - exact (malformed_token_reference _ _ _ _ H1 H2 H3 H4).
  - exact (run_result _ (erc721_owner_mismatch plugin _ _ _ _ _ _ _ _ _ _
                           H1 H2 H3 H4)).
  - exact (run_result _ (erc1155_zero_run plugin _ _ _ _ _ _ _ _ _ _ _
                           H1 H2 H3 H4 H5)).
  - exact (abi_decode_failure _ _ _ _ _ _ _ _ _ H1 H2 H3).
  - exact (unsupported_ipfs_metadata _ _ _ _ _ _ _ _ _ _ _ H1 H2 H3 H4).
  - exact (metadata_fetch_failure _ _ _ _ _ _ _ _ _ H1 H2).
  - exact (missing_image_field _ _ _ _ _ _ _ _ _ _ H1 H2 H3).
  - exact (unsupported_ipfs_format _ _ _ _ _ _ _ _ _ _ _ H1 H2 H3 H4 H5 H6).
  - exact (transport_failure H).
  - exact (call_failure _ _ _ _ _ _ _ H1 H2).
  - exact (metadata_call_failure _ _ _ _ _ _ _ _ _ H1 H2).
  - unfold outcome_of. rewrite H. reflexivity.
Qed.

End Failures.

(** C1. Whatever the account and the world do, [avatar] completes by
    returning, never by throwing; under each failure condition (missing
    owner key, absent avatar record, unmatched scheme, malformed token
    reference, ownership mismatch, zero balance, ABI decode failure,
    metadata fetch failure, missing image field, unsupported IPFS format,
    any thrown error) it returns [null]; and a result it returns carries
    the whole linkage of the run, so no partial linkage reaches the
    caller. *)
Theorem avatar_unresolved_on_failure (plugin : BitPluginAvatar) (w : World)
  (this : BitAccount) :
  (exists o, Avatar.avatar plugin w this = Return o)
  /\ (failure plugin w this -> Avatar.avatar plugin w this = Return None)
  /\ (forall r, Avatar.avatar plugin w this = Return (Some r) ->
        linkage r = st_linkage (snd (run_avatar plugin w this))).
Proof.
  split; [|split].
  - unfold Avatar.avatar. rewrite run_avatar_settle.
    destruct (settle_returns (avatar_try plugin w this (entry_state this)))
      as (o & st & ->). exists o. reflexivity.
  - intros H. rewrite avatar_result. exact (failure_unresolved _ _ _ H).
  - intros r H. unfold Avatar.avatar in H. rewrite run_avatar_settle in *.
    apply settle_some in H. rewrite settle_state.
    destruct (avatar_try plugin w this (entry_state this)) as [c st] eqn:E.
    simpl in H. subst c. exact (whole_avatar_try _ _ _ _ _ _ E).
Qed.

End Unresolved.

(* ===================================================================== *)
(** ** Sample runs *)
(* ===================================================================== *)

Module Runs.
Import JS Ethers Avatar Spec Samples MoreSamples.
Import StringFacts IpfsLink Abi Pipeline Expansion Unresolved.

(** C3. The account owns the token, its key being reported in lower case
    and the address of [ownerOf] coming back in checksum spelling: the
    two are the same address when compared without case, yet the strict
    comparison rejects them and the run ends with [null] after the
    [ownerOf] call; with the key in checksum spelling the same run
    resolves. *)
Theorem erc721_owner_key_compared_with_case :
  toLowerCase owner_indexed = toLowerCase owner_checksum
  /\ formatter_callAddress (world721 default_gateway) owner_word
     = Ok (Some owner_checksum)
  /\ run_avatar default_plugin (world721 default_gateway)
       (jeffx owner_indexed avatar721)
     = (Return None,
        {| st_linkage := [step "account" (js "jeffx.bit");
                          step "erc721" avatar721];
           st_calls := [ownerOf_tx contract token7] |})
  /\ Avatar.avatar default_plugin (world721 default_gateway)
       (jeffx owner_checksum avatar721)
     = Return (Some
         {| linkage :=
              [step "account" (js "jeffx.bit");
               step "erc721" avatar721;
               step "owner" owner_checksum;
               step "metadata-url-base" (js "ipfs://Qm123");
               step "metadata-url" (js "https://gateway.ipfs.io/ipfs/Qm123");
               step "metadata" (stringify image_document);
               step "url-ipfs" (js "ipfs://QmImg");
               step "url" (js "https://gateway.ipfs.io/ipfs/QmImg")];
            url := js "https://gateway.ipfs.io/ipfs/QmImg" |}).
Proof. repeat split; vm_compute; reflexivity. Qed.

(** C4. With the gateway https://ipfs.example configured, the metadata
    URI is translated with the configured gateway but the image link is
    translated with the default gateway. *)
Theorem image_link_translated_with_default_gateway :
  ipfs custom_plugin = js "https://ipfs.example"
  /\ Avatar.avatar custom_plugin (world721 (js "https://ipfs.example"))
       (jeffx owner_checksum avatar721)
     = Return (Some
         {| linkage :=
              [step "account" (js "jeffx.bit");
               step "erc721" avatar721;
               step "owner" owner_checksum;
               step "metadata-url-base" (js "ipfs://Qm123");
               step "metadata-url" (js "https://ipfs.example/ipfs/Qm123");
               step "metadata" (stringify image_document);
               step "url-ipfs" (js "ipfs://QmImg");
               step "url" (js "https://gateway.ipfs.io/ipfs/QmImg")];
            url := js "https://gateway.ipfs.io/ipfs/QmImg" |})
  /\ Avatar.avatar custom_plugin (world721 (js "https://ipfs.example"))
       (jeffx owner_checksum (js "ipfs://QmImg"))
     = Return (Some
         {| linkage := [step "account" (js "jeffx.bit");
                        step "ipfs" (js "ipfs://QmImg")];
            url := js "https://ipfs.example/ipfs/QmImg" |}).
Proof. repeat split; vm_compute; reflexivity. Qed.

(** Counterexample to C2 as stated: the second step of a data avatar is
    of kind data, not url. *)
Lemma data_avatar_second_step_is_data :
  ~ (exists r,
       Avatar.avatar default_plugin (world1155 0)
         (jeffx owner_indexed (js "data:image/png;base64,AAAA"))
       = Return (Some r)
       /\ map type (linkage r) = [js "account"; js "url"]
       /\ url r = js "data:image/png;base64,AAAA").
Proof.
  intros (r & H & Hty & _). vm_compute in H. inversion H; subst; clear H.
  vm_compute in Hty. discriminate.
Qed.


(** C7. The token number 171 written 0xAB: the digits put in place of
    [{id}] are those of the token word as [BigNumber.from] keeps them,
    ...00AB in upper case, and not the lower-case 64 digits of 171;
    the call data of the same run carries the digits in lower case, and
    the same token written 0xab or 171 is substituted in lower case. *)
Theorem upper_case_token_digits_are_kept :
  In (step "metadata-url-expanded"
        (js "https://token.example/00000000000000000000000000000000000000000000000000000000000000AB.json"))
     (st_linkage (snd (run_avatar default_plugin (world1155 1)
                         (jeffx owner_checksum (avatar1155 (js "0xAB"))))))
  /\ ~ In (step "metadata-url-expanded"
             (js "https://token.example/" ++ hex_of_bytes (word 171)
                ++ js ".json"))
          (st_linkage (snd (run_avatar default_plugin (world1155 1)
                              (jeffx owner_checksum (avatar1155 (js "0xAB"))))))
  /\ map tx_data
       (st_calls (snd (run_avatar default_plugin (world1155 1)
                         (jeffx owner_checksum (avatar1155 (js "0xAB"))))))
     = [js "0x00fdd58e" ++ skipn 2 (toLowerCase owner32)
          ++ hex_of_bytes (word 171);
        js "0x0e89341c" ++ hex_of_bytes (word 171)]
  /\ In (step "metadata-url-expanded"
           (js "https://token.example/" ++ hex_of_bytes (word 171)
              ++ js ".json"))
        (st_linkage (snd (run_avatar default_plugin (world1155 1)
                            (jeffx owner_checksum (avatar1155 (js "0xab"))))))
  /\ In (step "metadata-url-expanded"
           (js "https://token.example/" ++ hex_of_bytes (word 171)
              ++ js ".json"))
        (st_linkage (snd (run_avatar default_plugin (world1155 1)
                            (jeffx owner_checksum (avatar1155 (js "171")))))).
Proof.
  split; [|split; [|split; [|split]]].
  - vm_compute. do 4 right. left. reflexivity.
  - intros H. vm_compute in H.
    repeat (destruct H as [H|H]; [discriminate H|]). exact H.
  - vm_compute. reflexivity.
  - vm_compute. do 4 right. left. reflexivity.
  - vm_compute. do 4 right. left. reflexivity.
Qed.

(** *** The theorems at sample inputs *)

Lemma sample_has_avatar owner avatar :
  truthy_string owner = true -> has_avatar (jeffx owner avatar) owner avatar.
Proof.
  intros H. split; [reflexivity|]. split; [exact H|].
  exists {| value := avatar |}, []. split; reflexivity.
Defined.

Lemma sample_token_avatar balance uri address document owner scheme token
  tokenId :
  truthy_string owner = true ->
  is_erc721 scheme || is_erc1155 scheme = true ->
  exec matcherEip155
       (js "eip155:1/" ++ scheme ++ js ":" ++ contract ++ js "/" ++ token)
  = Some (scheme, contract ++ js "/" ++ token) ->
  toLowerCase scheme = scheme ->
  split 47%N (contract ++ js "/" ++ token) = [contract; token] ->
  token_word token = Ok tokenId ->
  token_avatar (sample_world balance uri address document)
    (jeffx owner
       (js "eip155:1/" ++ scheme ++ js ":" ++ contract ++ js "/" ++ token))
    owner
    (js "eip155:1/" ++ scheme ++ js ":" ++ contract ++ js "/" ++ token)
    scheme contract token contract tokenId.
Proof.
  intros Howner Hs Hexec Hlow Hsplit Htok.
  split; [exact (sample_has_avatar _ _ Howner)|].
  split; [exists scheme, (contract ++ js "/" ++ token); auto|].
  split; [exact Hs|]. split; [reflexivity | exact Htok].
Defined.

Lemma getIpfsLink_strips_one_prefix_witness :
  getIpfsLink (js "ipfs://ipfs/QmA") None
  = Ok (js "https://gateway.ipfs.io/ipfs/QmA")
  /\ getIpfsLink (js "IPFS://QmA") (Some (js "https://ipfs.example"))
     = Ok (js "https://ipfs.example/ipfs/QmA")
  /\ getIpfsLink (js "https://QmA") None = Err "unsupported IPFS format".
Proof.
  split; [|split].
  - apply (proj1 (getIpfsLink_strips_one_prefix (js "ipfs://ipfs/QmA") None)
             (js "ipfs://ipfs/") (js "QmA")).
    + reflexivity.
    + repeat constructor.
  - apply (proj1 (proj2 (getIpfsLink_strips_one_prefix (js "IPFS://QmA")
                            (Some (js "https://ipfs.example"))))
             (js "IPFS://") (js "QmA")).
    + reflexivity.
    + repeat constructor.
    + reflexivity.
  - apply (proj2 (proj2 (getIpfsLink_strips_one_prefix (js "https://QmA")
                            None))).
    apply starts_ci_false_iff. reflexivity.
Defined.

Lemma parseString_roundtrip_witness :
  abi_encode_text [] (js "foo") (repeat 0%N 29)
  = js "0x00000000000000000000000000000000000000000000000000000000000000200000000000000000000000000000000000000000000000000000000000000003666f6f0000000000000000000000000000000000000000000000000000000000"
  /\ _parseString (abi_encode_text [] (js "foo") (repeat 0%N 29)) 0
     = Ok (Some (js "foo"))
  /\ utf8_bytes (code_points [233%N; 8364%N; 55357%N; 56832%N])
     = [195%N; 169%N; 226%N; 130%N; 172%N; 240%N; 159%N; 152%N; 128%N]
  /\ _parseString
       (abi_encode_text [] [233%N; 8364%N; 55357%N; 56832%N] []) 0
     = Ok (Some [233%N; 8364%N; 55357%N; 56832%N]).
Proof.
  split; [vm_compute; reflexivity|]. split; [|split; [reflexivity|]].
  - apply (parseString_roundtrip (js "foo") [] (repeat 0%N 29)).
    + split.
      * repeat (apply Forall_cons; [reflexivity|]). apply Forall_nil.
      * repeat (apply Forall_cons; [left; reflexivity|]). apply Forall_nil.
    + apply Forall_nil.
    + apply Forall_forall. intros x Hx. apply repeat_spec in Hx. subst.
      reflexivity.
    + reflexivity.
    + reflexivity.
  - apply (parseString_roundtrip [233%N; 8364%N; 55357%N; 56832%N] [] []).
    + split.
      * repeat (apply Forall_cons; [reflexivity|]). apply Forall_nil.
      * apply Forall_cons; [left; reflexivity|].
        apply Forall_cons; [left; reflexivity|].
        apply Forall_cons; [right; split; reflexivity|].
        apply Forall_nil.
    + apply Forall_nil.
    + apply Forall_nil.
    + reflexivity.
    + reflexivity.
Defined.

Lemma direct_schemes_resolve_witness :
  Avatar.avatar default_plugin (world1155 0)
    (jeffx owner_indexed (js "https://example.com/a.png"))
  = Return (Some {| linkage := [step "account" (js "jeffx.bit");
                                step "url" (js "https://example.com/a.png")];
                    url := js "https://example.com/a.png" |})
  /\ Avatar.avatar default_plugin (world1155 0)
       (jeffx owner_indexed (js "data:image/png;base64,AAAA"))
     = Return (Some {| linkage := [step "account" (js "jeffx.bit");
                                   step "data" (js "data:image/png;base64,AAAA")];
                       url := js "data:image/png;base64,AAAA" |}).
Proof.
  split.
  - apply (proj1 (direct_schemes_resolve default_plugin (world1155 0)
                    (jeffx owner_indexed (js "https://example.com/a.png"))
                    owner_indexed (js "https://example.com/a.png")
                    (sample_has_avatar owner_indexed _ eq_refl))
             (js "https", js "example.com/a.png")).
    reflexivity.
  - apply (proj2 (direct_schemes_resolve default_plugin (world1155 0)
                    (jeffx owner_indexed (js "data:image/png;base64,AAAA"))
                    owner_indexed (js "data:image/png;base64,AAAA")
                    (sample_has_avatar owner_indexed _ eq_refl))
             (js "data", js "image/png;base64,AAAA")).
    reflexivity.
Defined.


Lemma sample_token1155 balance :
  token_avatar (world1155 balance) (jeffx owner_checksum (avatar1155 (js "5")))
    owner_checksum (avatar1155 (js "5")) (js "erc1155") contract (js "5")
    contract (number_word 5).
Proof.
  apply (sample_token_avatar balance template (js "https://token.example/none")
           image_document owner_checksum (js "erc1155") (js "5")
           (number_word 5));
    vm_compute; reflexivity.
Defined.

Lemma erc1155_zero_balance_witness :
  run_avatar default_plugin (world1155 0)
    (jeffx owner_checksum (avatar1155 (js "5")))
  = (Return None,
     {| st_linkage := [step "account" (js "jeffx.bit");
                       step "erc1155" (avatar1155 (js "5"))];
        st_calls := [balanceOf_tx contract owner32 (number_word 5)] |})
  /\ tx_data (balanceOf_tx contract owner32 (number_word 5))
     = js "0x00fdd58e0000000000000000000000008ba1f109551bd432803012645ac136ddd64dba720000000000000000000000000000000000000000000000000000000000000005".
Proof.
  destruct (erc1155_zero_balance default_plugin (world1155 0)
              (jeffx owner_checksum (avatar1155 (js "5")))
              owner_checksum (avatar1155 (js "5")) contract (js "5")
              contract (number_word 5) owner32 (number_word 0)
              (mkBigNumber (js "0x00"))
              (sample_token1155 0)) as (Hrun & _ & Hdata & _);
    try (vm_compute; reflexivity).
  split; [exact Hrun|]. rewrite Hdata. vm_compute. reflexivity.
Defined.

Lemma erc1155_id_expansion_witness :
  skipn 2 (number_word 5)
  = js "0000000000000000000000000000000000000000000000000000000000000005"
  /\ In (step "metadata-url-expanded"
           (js "https://token.example/" ++ skipn 2 (number_word 5)
              ++ js ".json"))
        (st_linkage (snd (run_avatar default_plugin (world1155 1)
                            (jeffx owner_checksum (avatar1155 (js "5")))))).
Proof.
  split; [vm_compute; reflexivity|].
  apply (erc1155_id_expansion default_plugin (world1155 1)
           (jeffx owner_checksum (avatar1155 (js "5")))
           owner_checksum (avatar1155 (js "5")) contract (js "5") contract
           (number_word 5) owner32 (number_word 1)
           (abi_encode_string template) template
           (js "https://token.example/") (js ".json")
           (mkBigNumber (js "0x01")) 1%Z 5%N (sample_token1155 1));
    try (vm_compute; reflexivity); try discriminate.
  { left. repeat split. discriminate. }
  intros i Hi. change (length (js "https://token.example/")) with 22%nat in Hi.
  do 22 (destruct i as [|i]; [reflexivity|]). lia.
Defined.

Lemma avatar_unresolved_on_failure_witness :
  Avatar.avatar default_plugin (world721 default_gateway) keyless = Return None
  /\ Avatar.avatar default_plugin (world1155 0)
       (jeffx owner_checksum (avatar1155 (js "5")))
     = Return None.
Proof.
  split.
  - apply (proj1 (proj2 (avatar_unresolved_on_failure default_plugin
                           (world721 default_gateway) keyless))).
    apply MissingOwnerKey. right. left. reflexivity.
  - apply (proj1 (proj2 (avatar_unresolved_on_failure default_plugin
                           (world1155 0)
                           (jeffx owner_checksum (avatar1155 (js "5")))))).
    apply (ZeroBalance default_plugin (world1155 0)
             (jeffx owner_checksum (avatar1155 (js "5")))
             owner_checksum (avatar1155 (js "5")) contract (js "5") contract
             (number_word 5) owner32 (number_word 0)
             (mkBigNumber (js "0x00")) (sample_token1155 0));
      vm_compute; reflexivity.
Defined.

End Runs.

(* ===================================================================== *)
(** ** Further properties of the pipeline *)
(* ===================================================================== *)

Module PipelineFacts.
Import JS Ethers Avatar Spec Further Samples.
Import StringFacts IpfsLink Abi Pipeline TokenWord Unresolved.

Local Open Scope avatar_scope.

Lemma getIpfsLink_prefixed x gateway :
  starts_ci (js "ipfs://") x = true ->
  exists u, getIpfsLink x gateway = Ok u.
Proof.
  intros H. unfold getIpfsLink.
  destruct (starts_ci (js "ipfs://ipfs/") x); [eauto|]. rewrite H. eauto.
Qed.

Lemma for_matchers_ipfs plugin w owner avatar st g u :
  exec matcherIpfs avatar = Some g ->
  getIpfsLink avatar (Some (ipfs plugin)) = Ok u ->
  for_matchers plugin w owner avatar matchers st
  = (Return (Some {| linkage := st_linkage st ++ [step "ipfs" avatar];
                     url := u |}),
     with_step st (step "ipfs" avatar)).
Proof.
  intros H Hu. unfold matchers. cbn [for_matchers].
  rewrite (exec_exclusive _ matcherHttps _ _ H) by discriminate.
  rewrite (exec_exclusive _ matcherData _ _ H) by discriminate.
  rewrite H. destruct g as [g1 g2]. apply match_scheme_inv in H.
  destruct H as (_ & Hci & _). rewrite (eq_ci_lower _ _ Hci).
  change (toLowerCase (js "ipfs")) with (js "ipfs").
  unfold switch_scheme.
  change (str_eqb (js "ipfs") (js "https")) with false.
  change (str_eqb (js "ipfs") (js "data")) with false.
  change (str_eqb (js "ipfs") (js "ipfs")) with true. cbv iota.
  cbv [bind push get_linkage lift return_]. rewrite Hu. reflexivity.
Qed.

(** X1. For an account that has a non-empty owner key and whose first
    profile.avatar record matches the IPFS pattern, the run resolves:
    the linkage is account, ipfs, no provider call is made, and the url
    is the plugin's gateway, then /ipfs/, then the path of the record
    (what follows ipfs://, less one leading ipfs/). *)
Theorem direct_ipfs_resolves (plugin : BitPluginAvatar) (w : World)
  (this : BitAccount) (owner avatar g cid : jsstring) :
  has_avatar this owner avatar ->
  exec matcherIpfs avatar = Some (g, cid) ->
  run_avatar plugin w this
  = (Return (Some {| linkage := [step "account" (account this);
                                 step "ipfs" avatar];
                     url := ipfs plugin ++ js "/ipfs/" ++ ipfs_path cid |}),
     {| st_linkage := [step "account" (account this); step "ipfs" avatar];
        st_calls := [] |}).
Proof.
  intros Hav Hexec.
  pose proof (getIpfsLink_path avatar g cid (Some (ipfs plugin)) Hexec) as Hu.
  rewrite run_avatar_settle.
  rewrite (avatar_try_matched _ _ _ _ _ _ _ _ Hav Hexec).
  rewrite (for_matchers_ipfs _ _ _ _ _ _ _ Hexec Hu). reflexivity.
Qed.

(** X2. For an account that has a non-empty owner key and whose first
    profile.avatar record is of a direct scheme (https, data or ipfs),
    the run returns a result and makes no provider call. *)
Theorem direct_schemes_make_no_call (plugin : BitPluginAvatar) (w : World)
  (this : BitAccount) (owner avatar : jsstring) (m : matcher)
  (g : jsstring * jsstring) :
  has_avatar this owner avatar ->
  m <> matcherEip155 ->
  exec m avatar = Some g ->
  st_calls (snd (run_avatar plugin w this)) = []
  /\ exists r, Avatar.avatar plugin w this = Return (Some r).
Proof.
  intros Hav Hm Hexec. unfold Avatar.avatar. rewrite run_avatar_settle.
  rewrite (avatar_try_matched _ _ _ _ _ _ _ _ Hav Hexec).
  destruct m; [| | |congruence].
  - rewrite (for_matchers_https _ _ _ _ _ _ Hexec). split; [reflexivity|].
    eexists. reflexivity.
  - rewrite (for_matchers_data _ _ _ _ _ _ Hexec). split; [reflexivity|].
    eexists. reflexivity.
  - destruct g as [g1 cid].
    destruct (getIpfsLink_prefixed avatar (Some (ipfs plugin))
                (proj2 (ipfs_image _ _ Hexec))) as [u Hu].
    rewrite (for_matchers_ipfs _ _ _ _ _ _ _ Hexec Hu). split; [reflexivity|].
    eexists. reflexivity.
Qed.

(** X3. The linkage of every run begins with the account step, and so
    does the linkage of every result returned. *)
Theorem linkage_starts_with_account (plugin : BitPluginAvatar) (w : World)
  (this : BitAccount) :
  exists l,
    st_linkage (snd (run_avatar plugin w this))
    = step "account" (account this) :: l
    /\ forall r, Avatar.avatar plugin w this = Return (Some r) ->
                 linkage r = step "account" (account this) :: l.
Proof.
  unfold Avatar.avatar. rewrite run_avatar_settle, settle_state.
  destruct (grows_avatar_try plugin w this (entry_state this)) as [l Hl].
  exists l. split; [exact Hl|].
  intros r H. apply settle_some in H.
  destruct (avatar_try plugin w this (entry_state this)) as [c st] eqn:E.
  simpl in H. subst c. rewrite (whole_avatar_try _ _ _ _ _ _ E). exact Hl.
Qed.

(** *** The closing step of a result *)

Lemma closes_ret gw {A} (a : A) : closes gw (ret a).
Proof. intros st r st' H. discriminate. Qed.

Lemma closes_return_none gw {A} : closes gw (@return_ A None).
Proof. intros st r st' H. discriminate. Qed.

Lemma closes_lift gw {A} (x : result A) : closes gw (lift x).
Proof. intros st r st' H. unfold lift in H. destruct x; discriminate. Qed.

Lemma closes_push gw ty c : closes gw (push ty c).
Proof. intros st r st' H. discriminate. Qed.

Lemma closes_call gw w tx : closes gw (call w tx).
Proof.
  intros st r st' H. unfold call in H.
  destruct (provider_call w tx); discriminate.
Qed.

Lemma closes_bind gw {A B} (c : M A) (k : A -> M B) :
  closes gw c -> (forall a, closes gw (k a)) -> closes gw (bind c k).
Proof.
  intros Hc Hk st r st' H. unfold bind in H.
  destruct (c st) as [[a|o|msg] st1] eqn:E.
  - exact (Hk a _ _ _ H).
  - inversion H; subst. exact (Hc _ _ _ E).
  - discriminate.
Qed.

Lemma closes_result gw {A} ty c :
  ty = js "url" \/ ty = js "data" ->
  closes gw (push ty c ;;;
          l <- get_linkage ;;
          @return_ A (Some {| linkage := l; url := c |})).
Proof.
  intros Hty st r st' H. cbv [bind push get_linkage return_] in H.
  inversion H; subst; clear H.
  exists (st_linkage st), {| type := ty; content := c |}.
  split; [reflexivity|]. left. split; [exact Hty | reflexivity].
Qed.

Lemma closes_result_ipfs gw {A} c :
  closes gw (push (js "ipfs") c ;;;
          l <- get_linkage ;;
          u <- lift (getIpfsLink c (Some gw)) ;;
          @return_ A (Some {| linkage := l; url := u |})).
Proof.
  intros st r st' H. cbv [bind push get_linkage return_ lift] in H.
  destruct (getIpfsLink c (Some gw)) as [u|msg] eqn:E;
    inversion H; subst; clear H.
  exists (st_linkage st), {| type := js "ipfs"; content := c |}.
  split; [reflexivity|]. right. split; [reflexivity | exact E].
Qed.

Ltac closes_step :=
  first
    [ apply closes_bind
    | apply closes_ret
    | apply closes_return_none
    | apply closes_lift
    | apply closes_push
    | apply closes_call
    | match goal with
      | |- closes _ (if ?b then _ else _) => destruct b
      | |- closes _ (match ?x with _ => _ end) => destruct x
      | |- forall _, _ => intro
      end ].

Lemma closes_check_ownership gw w scheme owner addr tokenId :
  closes gw (check_ownership w scheme owner addr tokenId).
Proof. unfold check_ownership. repeat closes_step. Qed.

Lemma closes_metadata_url gw plugin w scheme selector comp0 tokenId :
  closes gw (metadata_url plugin w scheme selector comp0 tokenId).
Proof. unfold metadata_url. repeat closes_step. Qed.

Lemma closes_image_url gw w metadataUrl : closes gw (image_url w metadataUrl).
Proof. unfold image_url. repeat closes_step. Qed.

Lemma closes_resolve_token gw plugin w scheme avatar match2 owner :
  closes gw (resolve_token plugin w scheme avatar match2 owner).
Proof.
  unfold resolve_token. cbv zeta.
  apply closes_bind; [apply closes_push | intro].
  destruct (split 47%N match2) as [|c0 [|c1 [|c2 l]]];
    try apply closes_return_none.
  apply closes_bind; [apply closes_lift | intro].
  apply closes_bind; [apply closes_lift | intro].
  apply closes_bind; [apply closes_lift | intro].
  apply closes_bind; [apply closes_check_ownership | intro].
  unfold resolve_metadata.
  apply closes_bind; [apply closes_metadata_url | intro].
  apply closes_bind; [apply closes_image_url | intro].
  apply closes_result. left. reflexivity.
Qed.

Lemma closes_switch_scheme plugin w owner avatar scheme match2 :
  closes (ipfs plugin) (switch_scheme plugin w owner avatar scheme match2).
Proof.
  unfold switch_scheme.
  destruct (str_eqb scheme (js "https")).
  { apply closes_result. left. reflexivity. }
  destruct (str_eqb scheme (js "data")).
  { apply closes_result. right. reflexivity. }
  destruct (str_eqb scheme (js "ipfs")).
  { apply closes_result_ipfs. }
  destruct (is_erc721 scheme || is_erc1155 scheme);
    [apply closes_resolve_token | apply closes_ret].
Qed.

Lemma closes_for_matchers plugin w owner avatar ms :
  closes (ipfs plugin) (for_matchers plugin w owner avatar ms).
Proof.
  induction ms as [|m ms IH]; cbn [for_matchers]; [apply closes_ret|].
  destruct (exec m avatar) as [[m1 m2]|]; [|exact IH].
  apply closes_bind; [apply closes_switch_scheme | intro; exact IH].
Qed.

Lemma closes_avatar_try plugin w this : closes (ipfs plugin) (avatar_try plugin w this).
Proof.
  unfold avatar_try. apply closes_bind; [apply closes_lift | intros acc].
  destruct acc as [[[owner|]]|]; try apply closes_return_none.
  destruct (negb (truthy_string owner)); [apply closes_return_none|].
  apply closes_bind; [apply closes_lift | intros recs].
  destruct recs as [|r rs]; [apply closes_return_none|].
  destruct (negb (truthy_string (value r)));
    [apply closes_return_none | apply closes_for_matchers].
Qed.

(** X4. The linkage of a returned result ends with a step of kind url
    or data whose content is the returned url, or, for a direct IPFS
    link, with a step of kind ipfs whose content is the link that
    [getIpfsLink] turns into the returned url with the plugin's gateway. *)
Theorem result_ends_with_its_url (plugin : BitPluginAvatar) (w : World)
  (this : BitAccount) (r : ResolvedAvatar) :
  Avatar.avatar plugin w this = Return (Some r) ->
  closing_step (ipfs plugin) r.
Proof.
  unfold Avatar.avatar. rewrite run_avatar_settle. intros H.
  apply settle_some in H.
  destruct (avatar_try plugin w this (entry_state this)) as [c st] eqn:E.
  simpl in H. subst c. exact (closes_avatar_try _ _ _ _ _ _ E).
Qed.

(** *** Counting the provider calls *)

Lemma calls_ret {A} (a : A) k : calls_within k (ret a).
Proof. intros st. exists []. simpl. rewrite app_nil_r. split; [reflexivity | lia]. Qed.

Lemma calls_return {A} o k : calls_within k (@return_ A o).
Proof. intros st. exists []. simpl. rewrite app_nil_r. split; [reflexivity | lia]. Qed.

Lemma calls_lift {A} (x : result A) k : calls_within k (lift x).
Proof.
  intros st. exists []. unfold lift. destruct x; simpl; rewrite app_nil_r;
    (split; [reflexivity | lia]).
Qed.

Lemma calls_push ty c k : calls_within k (push ty c).
Proof. intros st. exists []. simpl. rewrite app_nil_r. split; [reflexivity | lia]. Qed.

Lemma calls_get_linkage k : calls_within k get_linkage.
Proof. intros st. exists []. simpl. rewrite app_nil_r. split; [reflexivity | lia]. Qed.

Lemma calls_call w tx k : calls_within (S k) (call w tx).
Proof.
  intros st. exists [tx]. unfold call.
  destruct (provider_call w tx); simpl; (split; [reflexivity | lia]).
Qed.

Lemma calls_bind {A B} (c : M A) (k : A -> M B) k1 k2 n :
  calls_within k1 c -> (forall a, calls_within k2 (k a)) ->
  (k1 + k2 <= n)%nat -> calls_within n (bind c k).
Proof.
  intros Hc Hk Hn st. unfold bind. destruct (Hc st) as (l & Hl & Hlen).
  destruct (c st) as [[a|o|msg] st']; simpl in Hl.
  - destruct (Hk a st') as (l' & Hl' & Hlen'). exists (l ++ l').
    rewrite Hl', Hl, app_assoc, length_app. split; [reflexivity | lia].
  - exists l. split; [exact Hl | lia].
  - exists l. split; [exact Hl | lia].
Qed.

Ltac calls_zero :=
  first [ apply calls_ret | apply calls_return | apply calls_lift
        | apply calls_push | apply calls_get_linkage ].

Ltac calls_step :=
  first
    [ calls_zero
    | apply calls_call
    | match goal with
      | |- calls_within ?n (bind (call _ _) _) =>
          apply (calls_bind _ _ 1 (n - 1) n); [apply calls_call | intro | lia]
      | |- calls_within ?n (bind _ _) =>
          apply (calls_bind _ _ 0 n n); [calls_zero | intro | lia]
      | |- calls_within _ (if ?b then _ else _) => destruct b
      | |- calls_within _ (match ?x with _ => _ end) => destruct x
      end ].

Lemma calls_check_ownership w scheme owner addr tokenId :
  calls_within 1 (check_ownership w scheme owner addr tokenId).
Proof. unfold check_ownership. repeat calls_step. Qed.

Lemma calls_metadata_url plugin w scheme selector comp0 tokenId :
  calls_within 1 (metadata_url plugin w scheme selector comp0 tokenId).
Proof.
  unfold metadata_url.
  apply (calls_bind _ _ 0 1 1); [apply calls_lift | intro | lia].
  apply (calls_bind _ _ 0 1 1); [apply calls_lift | intro | lia].
  apply (calls_bind _ _ 1 0 1); [apply calls_call | intro | lia].
  apply (calls_bind _ _ 0 0 0); [apply calls_lift | intros [u|] | lia];
    [| apply calls_return].
  apply (calls_bind _ _ 0 0 0); [apply calls_push | intro | lia].
  apply (calls_bind _ _ 0 0 0); [| intro | lia].
  { destruct (is_erc1155 scheme); repeat calls_step. }
  apply (calls_bind _ _ 0 0 0); [| intro | lia].
  { destruct (starts_ci _ _); calls_zero. }
  repeat calls_step.
Qed.

Lemma calls_image_url w metadataUrl : calls_within 0 (image_url w metadataUrl).
Proof. unfold image_url. repeat calls_step. Qed.

Lemma calls_resolve_token plugin w scheme avatar match2 owner :
  calls_within 2 (resolve_token plugin w scheme avatar match2 owner).
Proof.
  unfold resolve_token. cbv zeta.
  apply (calls_bind _ _ 0 2 2); [apply calls_push | intro | lia].
  destruct (split 47%N match2) as [|c0 [|c1 [|c2 l]]]; try apply calls_return.
  apply (calls_bind _ _ 0 2 2); [apply calls_lift | intro | lia].
  apply (calls_bind _ _ 0 2 2); [apply calls_lift | intro | lia].
  apply (calls_bind _ _ 0 2 2); [apply calls_lift | intro | lia].
  apply (calls_bind _ _ 1 1 2); [apply calls_check_ownership | intro | lia].
  unfold resolve_metadata.
  apply (calls_bind _ _ 1 0 1); [apply calls_metadata_url | intro | lia].
  apply (calls_bind _ _ 0 0 0); [apply calls_image_url | intro | lia].
  repeat calls_step.
Qed.

Lemma calls_switch_scheme plugin w owner avatar scheme match2 :
  calls_within 2 (switch_scheme plugin w owner avatar scheme match2).
Proof.
  unfold switch_scheme.
  destruct (str_eqb scheme (js "https")); [repeat calls_step|].
  destruct (str_eqb scheme (js "data")); [repeat calls_step|].
  destruct (str_eqb scheme (js "ipfs")); [repeat calls_step|].
  destruct (is_erc721 scheme || is_erc1155 scheme);
    [apply calls_resolve_token | apply calls_ret].
Qed.

(** The loop runs the [switch] for one matcher at most. *)
Lemma for_matchers_once plugin w owner avatar :
  (forall m, exec m avatar = None)
  \/ exists m match1 match2,
       exec m avatar = Some (match1, match2)
       /\ for_matchers plugin w owner avatar matchers
          = (switch_scheme plugin w owner avatar (toLowerCase match1) match2
             ;;; ret tt).
Proof.
  unfold matchers. cbn [for_matchers].
  destruct (exec matcherHttps avatar) as [[g1 g2]|] eqn:E1.
  { right. exists matcherHttps, g1, g2. split; [exact E1|].
    rewrite (exec_exclusive _ matcherData _ _ E1) by discriminate.
    rewrite (exec_exclusive _ matcherIpfs _ _ E1) by discriminate.
    rewrite (exec_exclusive _ matcherEip155 _ _ E1) by discriminate.
    reflexivity. }
  destruct (exec matcherData avatar) as [[g1 g2]|] eqn:E2.
  { right. exists matcherData, g1, g2. split; [exact E2|].
    rewrite (exec_exclusive _ matcherIpfs _ _ E2) by discriminate.
    rewrite (exec_exclusive _ matcherEip155 _ _ E2) by discriminate.
    reflexivity. }
  destruct (exec matcherIpfs avatar) as [[g1 g2]|] eqn:E3.
  { right. exists matcherIpfs, g1, g2. split; [exact E3|].
    rewrite (exec_exclusive _ matcherEip155 _ _ E3) by discriminate.
    reflexivity. }
  destruct (exec matcherEip155 avatar) as [[g1 g2]|] eqn:E4.
  { right. exists matcherEip155, g1, g2. split; [exact E4 | reflexivity]. }
  left. intros []; assumption.
Qed.

Lemma calls_for_matchers plugin w owner avatar :
  calls_within 2 (for_matchers plugin w owner avatar matchers).
Proof.
  destruct (for_matchers_once plugin w owner avatar)
    as [H | (m & m1 & m2 & _ & ->)].
  - unfold matchers. cbn [for_matchers]. rewrite !H. apply calls_ret.
  - apply (calls_bind _ _ 2 0 2);
      [apply calls_switch_scheme | intro; apply calls_ret | lia].
Qed.

Lemma calls_avatar_try plugin w this :
  calls_within 2 (avatar_try plugin w this).
Proof.
  unfold avatar_try.
  apply (calls_bind _ _ 0 2 2); [apply calls_lift | intros acc | lia].
  destruct acc as [[[owner|]]|]; try apply calls_return.
  destruct (negb (truthy_string owner)); [apply calls_return|].
  apply (calls_bind _ _ 0 2 2); [apply calls_lift | intros recs | lia].
  destruct recs as [|r rs]; [apply calls_return|].
  destruct (negb (truthy_string (value r)));
    [apply calls_return | apply calls_for_matchers].
Qed.

(** X5. A run makes two provider calls at most. *)
Theorem at_most_two_calls (plugin : BitPluginAvatar) (w : World)
  (this : BitAccount) :
  (length (st_calls (snd (run_avatar plugin w this))) <= 2)%nat.
Proof.
  rewrite run_avatar_settle, settle_state.
  destruct (calls_avatar_try plugin w this (entry_state this))
    as (l & Hl & Hlen).
  rewrite Hl. exact Hlen.
Qed.

(** X6. No string matches two of the scheme matchers: the order of the
    matchers does not decide the branch taken. *)
Theorem matchers_are_exclusive (s : jsstring) (m m' : matcher)
  (g g' : jsstring * jsstring) :
  exec m s = Some g -> exec m' s = Some g' -> m = m'.
Proof.
  intros H H'. destruct m, m'; try reflexivity;
    rewrite (exec_exclusive _ _ _ _ H) in H' by discriminate; discriminate.
Qed.

(** *** Line terminators *)

Lemma line_terminator_lower c :
  is_line_terminator c = true -> lower_char c = c.
Proof.
  unfold is_line_terminator. intros H.
  apply orb_true_iff in H. destruct H as [H|H];
    [apply orb_true_iff in H; destruct H as [H|H];
       [apply orb_true_iff in H; destruct H as [H|H]|]|];
    apply N.eqb_eq in H; subst; reflexivity.
Qed.

Lemma eq_ci_one_line p m :
  eq_ci p m -> one_line (toLowerCase p) -> one_line m.
Proof.
  intros H. induction H as [|pc c p m Hc _ IH]; intros Hp; [constructor|].
  cbn [toLowerCase map] in Hp. inversion Hp as [|x l Hpc Hrest]; subst.
  constructor; [|exact (IH Hrest)].
  destruct (is_line_terminator c) eqn:E; [|reflexivity].
  unfold ci_char in Hc. apply N.eqb_eq in Hc.
  rewrite (line_terminator_lower _ E) in Hc. rewrite Hc in Hpc. congruence.
Qed.

Lemma span_digits_inv s : forall d r,
  span_digits s = (d, r) -> s = d ++ r /\ forallb is_digit d = true.
Proof.
  induction s as [|c s IH]; intros d r H; cbn [span_digits] in H.
  - inversion H; subst. split; reflexivity.
  - destruct (is_digit c) eqn:E.
    + destruct (span_digits s) as [d' r'] eqn:Es. inversion H; subst.
      destruct (IH _ _ eq_refl) as [-> Hd]. split; [reflexivity|].
      cbn [forallb]. rewrite E, Hd. reflexivity.
    + inversion H; subst. split; reflexivity.
Qed.

Lemma digits1_inv s d r :
  digits1 s = Some (d, r) -> s = d ++ r /\ forallb is_digit d = true.
Proof.
  unfold digits1. destruct (span_digits s) as [d' r'] eqn:E.
  destruct d' as [|c d'']; [discriminate|]. intros H. inversion H; subst.
  exact (span_digits_inv _ _ _ E).
Qed.

Lemma digit_one_line c : is_digit c = true -> is_line_terminator c = false.
Proof.
  intros H. destruct (is_line_terminator c) eqn:E; [|reflexivity].
  unfold is_line_terminator in E.
  apply orb_true_iff in E. destruct E as [E|E];
    [apply orb_true_iff in E; destruct E as [E|E];
       [apply orb_true_iff in E; destruct E as [E|E]|]|];
    apply N.eqb_eq in E; subst; discriminate.
Qed.

Lemma digits_one_line d : forallb is_digit d = true -> one_line d.
Proof.
  intros H. apply Forall_forall. intros c Hc. apply digit_one_line.
  revert c Hc. apply forallb_forall. exact H.
Qed.

Lemma dot_star_end_inv s g : dot_star_end s = Some g -> g = s /\ one_line s.
Proof.
  unfold dot_star_end. destruct (forallb _ s) eqn:E; [|discriminate].
  intros H. inversion H; subst. split; [reflexivity|].
  apply Forall_forall. intros c Hc.
  rewrite forallb_forall in E. apply negb_true_iff. exact (E c Hc).
Qed.

Lemma match_scheme_one_line scheme sep s g :
  one_line (toLowerCase scheme) -> one_line sep ->
  match_scheme scheme sep s = Some g -> one_line s.
Proof.
  intros Hscheme Hsep H. destruct g as [g1 g2].
  apply match_scheme_inv in H. destruct H as (-> & Hci & Hg2).
  apply Forall_app. split; [exact (eq_ci_one_line _ _ Hci Hscheme)|].
  apply Forall_app. split; [exact Hsep|].
  apply Forall_forall. intros c Hc.
  rewrite forallb_forall in Hg2. apply negb_true_iff. exact (Hg2 c Hc).
Qed.

Lemma match_eip155_inv s match1 match2 :
  match_eip155 s = Some (match1, match2) ->
  exists p chain e d,
    s = p ++ chain ++ js "/" ++ e ++ d ++ js ":" ++ match2
    /\ eq_ci (js "eip155:") p /\ chain <> []
    /\ forallb is_digit chain = true
    /\ eq_ci (js "erc") e /\ d <> [] /\ forallb is_digit d = true
    /\ match1 = e ++ d /\ one_line match2.
Proof.
  unfold match_eip155, obind. intros H.
  destruct (strip_ci (js "eip155:") s) as [[p r0]|] eqn:E0; [|discriminate].
  destruct (digits1 r0) as [[chain r1]|] eqn:E1; [|discriminate].
  destruct (strip_prefix (js "/") r1) as [r2|] eqn:E2; [|discriminate].
  destruct (strip_ci (js "erc") r2) as [[e r3]|] eqn:E3; [|discriminate].
  destruct (digits1 r3) as [[d r4]|] eqn:E4; [|discriminate].
  destruct (strip_prefix (js ":") r4) as [r5|] eqn:E5; [|discriminate].
  destruct (dot_star_end r5) as [g2|] eqn:E6; [|discriminate].
  inversion H; subst; clear H.
  apply strip_ci_inv in E0. destruct E0 as [-> Hp].
  assert (Hc : chain <> []).
  { unfold digits1 in E1. destruct (span_digits r0) as [[|x xs] r'];
      [discriminate|]. inversion E1; subst. discriminate. }
  assert (Hd : d <> []).
  { unfold digits1 in E4. destruct (span_digits r3) as [[|x xs] r'];
      [discriminate|]. inversion E4; subst. discriminate. }
  apply digits1_inv in E1. destruct E1 as [-> Hchain].
  apply strip_prefix_inv in E2. subst r1.
  apply strip_ci_inv in E3. destruct E3 as [-> He].
  apply digits1_inv in E4. destruct E4 as [-> Hdig].
  apply strip_prefix_inv in E5. subst r4.
  apply dot_star_end_inv in E6. destruct E6 as [-> Hline].
  exists p, chain, e, d. repeat split; assumption.
Qed.

Lemma exec_one_line m s g : exec m s = Some g -> one_line s.
Proof.
  destruct m; cbn [exec]; intros H.
  - eapply match_scheme_one_line; [| |exact H]; repeat constructor.
  - eapply match_scheme_one_line; [| |exact H]; repeat constructor.
  - eapply match_scheme_one_line; [| |exact H]; repeat constructor.
  - destruct g as [m1 m2]. apply match_eip155_inv in H.
    destruct H as (p & chain & e & d & -> & Hp & _ & Hchain & He & _ & Hd
                   & _ & Hline).
    repeat (apply Forall_app; split);
      try (apply digits_one_line; assumption);
      try assumption;
      try (eapply eq_ci_one_line; [eassumption | repeat constructor]);
      repeat constructor.
Qed.

(** X7. A string that holds a line terminator (line feed, carriage
    return, U+2028 or U+2029) anywhere matches none of the scheme
    patterns. *)
Theorem line_terminator_matches_nothing (s : jsstring) (c : jschar)
  (m : matcher) :
  In c s -> is_line_terminator c = true -> exec m s = None.
Proof.
  intros Hin Hc. destruct (exec m s) as [g|] eqn:E; [|reflexivity].
  apply exec_one_line in E. unfold one_line in E.
  rewrite Forall_forall in E. rewrite (E c Hin) in Hc. discriminate.
Qed.

(** *** Runs that take no case *)

Lemma for_matchers_unknown plugin w owner avatar match1 match2 st :
  exec matcherEip155 avatar = Some (match1, match2) ->
  is_erc721 (toLowerCase match1) || is_erc1155 (toLowerCase match1) = false ->
  for_matchers plugin w owner avatar matchers st = (Normal tt, st).
Proof.
  intros Hexec Hs. unfold matchers. cbn [for_matchers].
  rewrite (exec_exclusive _ matcherHttps _ _ Hexec) by discriminate.
  rewrite (exec_exclusive _ matcherData _ _ Hexec) by discriminate.
  rewrite (exec_exclusive _ matcherIpfs _ _ Hexec) by discriminate.
  rewrite Hexec. unfold switch_scheme. rewrite Hs.
  destruct (match_eip155_scheme _ _ _ Hexec) as [d ->].
  reflexivity.
Qed.

(** X8. When no case of the [switch] applies, because the avatar record
    matches no pattern or because it is a token reference of a standard
    other than erc721 and erc1155, the run ends with [null], its linkage
    holds the account step only and no provider call is made. *)
Theorem no_case_leaves_account_only (plugin : BitPluginAvatar) (w : World)
  (this : BitAccount) (owner avatar : jsstring) :
  has_avatar this owner avatar ->
  (forall m, exec m avatar = None)
  \/ (exists match1 match2,
        exec matcherEip155 avatar = Some (match1, match2)
        /\ is_erc721 (toLowerCase match1) || is_erc1155 (toLowerCase match1)
           = false) ->
  run_avatar plugin w this = (Return None, entry_state this).
Proof.
  intros Hav H. rewrite run_avatar_settle.
  destruct H as [H | (m1 & m2 & Hexec & Hs)].
  - rewrite (avatar_try_has_avatar _ _ _ _ _ _ Hav).
    destruct (negb (truthy_string avatar)); [reflexivity|].
    unfold matchers. cbn [for_matchers]. rewrite !H. reflexivity.
  - rewrite (avatar_try_matched _ _ _ _ _ _ _ _ Hav Hexec).
    rewrite (for_matchers_unknown _ _ _ _ _ _ _ Hexec Hs). reflexivity.
Qed.

(** *** Malformed token references *)


(** *** An ERC-1155 avatar, end to end *)

Lemma replace_first_absent pat rep u :
  pat <> [] -> absent pat u -> replace_first pat rep u = u.
Proof.
  intros Hpat. induction u as [|c u IH]; intros H.
  - pose proof (H 0%nat) as H0. cbn [skipn] in H0.
    cbn [replace_first]. rewrite H0. reflexivity.
  - pose proof (H 0%nat) as H0. cbn [skipn] in H0.
    cbn [replace_first]. rewrite H0. f_equal. apply IH.
    intros i. exact (H (S i)).
Qed.

(** X10. End to end, for an ERC-1155 reference with a balance other
    than zero whose metadata image is an https or data link: the two
    calls are [balanceOf] and [uri], in this order, and the linkage has
    the eight steps account, erc1155, balance, metadata-url-base,
    metadata-url-expanded, metadata-url, metadata, url; the result url
    is the image link unchanged.  A URI without the text {id} is
    expanded to itself. *)
Theorem erc1155_end_to_end (plugin : BitPluginAvatar) (w : World)
  (this : BitAccount)
  (owner avatar comp0 comp1 addr tokenId owner32 r1 r2 uri murl img : jsstring)
  (balance : BigNumber) (z : Z) (md : json) :
  token_avatar w this owner avatar (js "erc1155") comp0 comp1 addr tokenId ->
  hexZeroPad owner 32 = Ok owner32 ->
  provider_call w (balanceOf_tx addr owner32 tokenId) = Ok r1 ->
  BigNumber_from r1 = Ok balance ->
  toBN balance = Ok z -> z <> 0%Z ->
  provider_call w (metadata_tx (js "erc1155") addr tokenId) = Ok r2 ->
  _parseString r2 0 = Ok (Some uri) ->
  translate plugin (expand (js "erc1155") tokenId uri) = Ok murl ->
  fetchJson w murl = Ok md ->
  get_property md (js "image") = Some (JString img) ->
  starts_ci (js "https://") img || starts_ci (js "data:") img = true ->
  run_avatar plugin w this
  = (Return (Some
       {| linkage :=
            [step "account" (account this);
             step "erc1155" avatar;
             step "balance" (BN_toString false z);
             step "metadata-url-base" uri;
             step "metadata-url-expanded" (expand (js "erc1155") tokenId uri);
             step "metadata-url" murl;
             step "metadata" (JSON_stringify w md);
             step "url" img];
          url := img |}),
     {| st_linkage :=
          [step "account" (account this);
           step "erc1155" avatar;
           step "balance" (BN_toString false z);
           step "metadata-url-base" uri;
           step "metadata-url-expanded" (expand (js "erc1155") tokenId uri);
           step "metadata-url" murl;
           step "metadata" (JSON_stringify w md);
           step "url" img];
        st_calls := [balanceOf_tx addr owner32 tokenId;
                     metadata_tx (js "erc1155") addr tokenId] |})
  /\ (absent (js "{id}") uri -> expand (js "erc1155") tokenId uri = uri).
Proof.
  intros Htok Hpad Hcall1 Hbal Hbn Hz Hcall2 Hparse Htr Hfetch Himg Hallow.
  split.
  2:{ intros Habs. unfold expand. change (is_erc1155 (js "erc1155")) with true.
      cbv iota. apply replace_first_absent; [discriminate | exact Habs]. }
  destruct (token_avatar_hex_data _ _ _ _ _ _ _ _ _ Htok) as [Hhex _].
  assert (Hzero : isZero balance = Ok false).
  { unfold isZero. rewrite Hbn. cbn [rbind]. f_equal.
    apply Z.eqb_neq. exact Hz. }
  assert (Hstr : BigNumber_toString balance = Ok (BN_toString false z)).
  { unfold BigNumber_toString. rewrite Hbn. reflexivity. }
  rewrite (run_avatar_token _ _ _ _ _ _ _ _ _ _ Htok).
  erewrite bind_normal.
  2:{ rewrite (check_ownership_erc1155 _ _ _ _ _ _ _ _ _
                 Hhex Hpad Hcall1 Hbal Hzero).
      rewrite Hstr. reflexivity. }
  unfold resolve_metadata.
  erewrite bind_normal.
  2:{ rewrite (metadata_url_decoded _ _ _ _ _ _ _ _ _ Hhex
                 (proj1 (proj2 (proj2 (proj2 Htok)))) Hcall2 Hparse).
      change (is_erc1155 (js "erc1155")) with true. cbv zeta iota.
      rewrite Htr. reflexivity. }
  erewrite bind_normal.
  2:{ rewrite (image_url_fetched _ _ _ _ Hfetch).
      rewrite (get_property_truthy _ _ _ Himg), Himg. cbv zeta.
      rewrite Hallow. reflexivity. }
  reflexivity.
Qed.

(** *** The sequence of provider calls *)

Lemma calls_none {A} (c : M A) st :
  calls_within 0 c -> st_calls (snd (c st)) = st_calls st.
Proof.
  intros H. destruct (H st) as (l & Hl & Hlen).
  destruct l; [rewrite Hl; apply app_nil_r | simpl in Hlen; lia].
Qed.

Lemma calls_after_metadata_call plugin scheme tokenId r :
  calls_within 0
    (parsed <- lift (_parseString r 0) ;;
     match parsed with
     | None => return_ None
     | Some metadataUrl =>
         push (js "metadata-url-base") metadataUrl ;;;
         metadataUrl <-
           (if is_erc1155 scheme then
              let expanded :=
                replace_first (js "{id}") (substring_from tokenId 2)
                  metadataUrl in
              push (js "metadata-url-expanded") expanded ;;;
              ret expanded
            else ret metadataUrl) ;;
         metadataUrl <-
           (if starts_ci (js "ipfs:") metadataUrl then
              lift (getIpfsLink metadataUrl (Some (ipfs plugin)))
            else ret metadataUrl) ;;
         push (js "metadata-url") metadataUrl ;;;
         ret metadataUrl
     end).
Proof.
  apply (calls_bind _ _ 0 0 0); [apply calls_lift | intros [u|] | lia];
    [| apply calls_return].
  apply (calls_bind _ _ 0 0 0); [apply calls_push | intro | lia].
  apply (calls_bind _ _ 0 0 0); [| intro | lia].
  { destruct (is_erc1155 scheme); repeat calls_step. }
  apply (calls_bind _ _ 0 0 0); [| intro | lia].
  { destruct (starts_ci _ _); calls_zero. }
  repeat calls_step.
Qed.

(** The metadata resolution makes the metadata call and no other. *)
Lemma resolve_metadata_calls plugin w scheme comp0 tokenId st to :
  hex_data tokenId -> formatter_address w comp0 = Ok to ->
  st_calls (snd (resolve_metadata plugin w scheme (selector_of scheme)
                   comp0 tokenId st))
  = st_calls st ++ [metadata_tx scheme to tokenId].
Proof.
  intros Htok Hto. unfold resolve_metadata.
  assert (Hm : exists c st',
             metadata_url plugin w scheme (selector_of scheme) comp0 tokenId st
             = (c, st')
             /\ st_calls st' = st_calls st ++ [metadata_tx scheme to tokenId]).
  { unfold metadata_url.
    erewrite bind_lift_ok by exact Hto.
    erewrite bind_lift_ok
      by (apply hexConcat_calldata;
          [apply hexlify_selector_of
          | apply Forall_cons; [exact Htok | apply Forall_nil]]).
    destruct (provider_call w (metadata_tx scheme to tokenId)) as [r|msg]
      eqn:Hcall.
    - erewrite bind_call_ok by exact Hcall.
      pose proof (calls_none _ (with_call st (metadata_tx scheme to tokenId))
                    (calls_after_metadata_call plugin scheme tokenId r)) as H.
      match type of H with
      | st_calls (snd ?x) = _ => destruct x as [c st'] eqn:E
      end.
      exists c, st'. split; [exact E | exact H].
    - erewrite bind_call_err by exact Hcall.
      eexists _, _. split; reflexivity. }
  destruct Hm as (c & st' & Hm & Hcalls).
  unfold bind at 1. rewrite Hm.
  destruct c as [murl|o|msg]; cbn [snd]; try exact Hcalls.
  rewrite <- Hcalls. apply calls_none.
  apply (calls_bind _ _ 0 0 0); [apply calls_image_url | intro | lia].
  repeat calls_step.
Qed.

(** X17. Once the ownership check of a token avatar has passed, exactly
    one more provider call is made, whatever it returns: the metadata
    call to the contract address, whose data is the selector of the
    standard, tokenURI for erc721 and uri for erc1155, followed by the
    digits of the token word in lower case. *)
Theorem metadata_call_follows_ownership (plugin : BitPluginAvatar)
  (w : World) (this : BitAccount)
  (owner avatar scheme comp0 comp1 addr tokenId : jsstring) (st : state) :
  verified w this owner avatar scheme comp0 comp1 addr tokenId st ->
  st_calls (snd (run_avatar plugin w this))
  = st_calls st ++ [metadata_tx scheme addr tokenId]
  /\ tx_to (metadata_tx scheme addr tokenId) = addr
  /\ tx_data (metadata_tx scheme addr tokenId)
     = (if is_erc721 scheme then js "0xc87b56dd" else js "0x0e89341c")
         ++ skipn 2 (toLowerCase tokenId).
Proof.
  intros [Htok Hcheck].
  destruct (token_avatar_hex_data _ _ _ _ _ _ _ _ _ Htok) as [Hhex _].
  split; [|split; [reflexivity|]].
  - rewrite (run_avatar_token _ _ _ _ _ _ _ _ _ _ Htok), settle_state.
    rewrite (bind_normal _ _ _ _ _ Hcheck).
    apply resolve_metadata_calls;
      [exact Hhex | exact (proj1 (proj2 (proj2 (proj2 Htok))))].
  - unfold metadata_tx, calldata, selector_of. cbn [tx_data flat_map].
    rewrite app_nil_r. destruct (is_erc721 scheme); reflexivity.
Qed.


(** *** The size and the kinds of the linkage *)

Lemma adds_ret {A} (a : A) k : adds k (ret a).
Proof.
  intros st. exists []. simpl. rewrite app_nil_r.
  split; [reflexivity | split; [lia | reflexivity]].
Qed.

Lemma adds_return {A} o k : adds k (@return_ A o).
Proof.
  intros st. exists []. simpl. rewrite app_nil_r.
  split; [reflexivity | split; [lia | reflexivity]].
Qed.

Lemma adds_lift {A} (x : result A) k : adds k (lift x).
Proof.
  intros st. exists []. unfold lift. destruct x; simpl; rewrite app_nil_r;
    (split; [reflexivity | split; [lia | reflexivity]]).
Qed.

Lemma adds_get_linkage k : adds k get_linkage.
Proof.
  intros st. exists []. simpl. rewrite app_nil_r.
  split; [reflexivity | split; [lia | reflexivity]].
Qed.

Lemma adds_call w tx k : adds k (call w tx).
Proof.
  intros st. exists []. unfold call.
  destruct (provider_call w tx); simpl; rewrite app_nil_r;
    (split; [reflexivity | split; [lia | reflexivity]]).
Qed.

Lemma adds_push ty c k :
  In ty kinds -> adds (S k) (push ty c).
Proof.
  intros Hty st. exists [{| type := ty; content := c |}]. simpl.
  split; [reflexivity | split; [lia|]].
  rewrite andb_true_r. unfold known_kind. apply existsb_exists.
  exists ty. split; [exact Hty | apply str_eqb_refl].
Qed.

Lemma adds_bind {A B} (c : M A) (k : A -> M B) k1 k2 n :
  adds k1 c -> (forall a, adds k2 (k a)) -> (k1 + k2 <= n)%nat ->
  adds n (bind c k).
Proof.
  intros Hc Hk Hn st. unfold bind.
  destruct (Hc st) as (l & Hl & Hlen & Hkinds).
  destruct (c st) as [[a|o|msg] st']; simpl in Hl.
  - destruct (Hk a st') as (l' & Hl' & Hlen' & Hkinds'). exists (l ++ l').
    rewrite Hl', Hl, app_assoc, length_app, forallb_app, Hkinds, Hkinds'.
    split; [reflexivity | split; [lia | reflexivity]].
  - exists l. split; [exact Hl | split; [lia | exact Hkinds]].
  - exists l. split; [exact Hl | split; [lia | exact Hkinds]].
Qed.

Ltac known := unfold kinds; cbn [In]; tauto.

Ltac adds_zero :=
  first [ apply adds_ret | apply adds_return | apply adds_lift
        | apply adds_get_linkage | apply adds_call ].

Lemma adds_check_ownership w scheme owner addr tokenId :
  adds 1 (check_ownership w scheme owner addr tokenId).
Proof.
  unfold check_ownership. destruct (is_erc721 scheme).
  - apply (adds_bind _ _ 0 1 1); [adds_zero | intro | lia].
    apply (adds_bind _ _ 0 1 1); [adds_zero | intro | lia].
    apply (adds_bind _ _ 0 1 1); [adds_zero | intros [t|] | lia];
      [|adds_zero].
    destruct (negb (str_eqb owner t)); [adds_zero|].
    apply adds_push. known.
  - destruct (is_erc1155 scheme); [|adds_zero].
    apply (adds_bind _ _ 0 1 1); [adds_zero | intro | lia].
    apply (adds_bind _ _ 0 1 1); [adds_zero | intro | lia].
    apply (adds_bind _ _ 0 1 1); [adds_zero | intro | lia].
    apply (adds_bind _ _ 0 1 1); [adds_zero | intro | lia].
    apply (adds_bind _ _ 0 1 1); [adds_zero | intros [|] | lia];
      [adds_zero|].
    apply (adds_bind _ _ 0 1 1); [adds_zero | intro | lia].
    apply adds_push. known.
Qed.

Lemma adds_metadata_url plugin w scheme selector comp0 tokenId :
  adds 3 (metadata_url plugin w scheme selector comp0 tokenId).
Proof.
  unfold metadata_url.
  apply (adds_bind _ _ 0 3 3); [adds_zero | intro | lia].
  apply (adds_bind _ _ 0 3 3); [adds_zero | intro | lia].
  apply (adds_bind _ _ 0 3 3); [adds_zero | intro | lia].
  apply (adds_bind _ _ 0 3 3); [adds_zero | intros [u|] | lia];
    [|adds_zero].
  apply (adds_bind _ _ 1 2 3); [apply adds_push; known | intro | lia].
  apply (adds_bind _ _ 1 1 2); [| intro | lia].
  { destruct (is_erc1155 scheme); [|adds_zero]. cbv zeta.
    apply (adds_bind _ _ 1 0 1); [apply adds_push; known | intro | lia].
    adds_zero. }
  apply (adds_bind _ _ 0 1 1); [| intro | lia].
  { destruct (starts_ci _ _); adds_zero. }
  apply (adds_bind _ _ 1 0 1); [apply adds_push; known | intro | lia].
  adds_zero.
Qed.

Lemma adds_image_url w metadataUrl : adds 2 (image_url w metadataUrl).
Proof.
  unfold image_url.
  apply (adds_bind _ _ 0 2 2); [adds_zero | intros metadata | lia].
  destruct (falsy metadata); [adds_zero|].
  apply (adds_bind _ _ 1 1 2); [apply adds_push; known | intro | lia].
  destruct (get_property metadata (js "image"))
    as [[|b|n d|img|items|fields]|]; try adds_zero.
  destruct (starts_ci (js "https://") img || starts_ci (js "data:") img);
    [adds_zero|].
  destruct (exec matcherIpfs img); [|adds_zero].
  apply (adds_bind _ _ 1 0 1); [apply adds_push; known | intro | lia].
  adds_zero.
Qed.

Lemma adds_result {A} ty c u k :
  In ty kinds ->
  adds (S k) (push ty c ;;;
              l <- get_linkage ;;
              @return_ A (Some {| linkage := l; url := u |})).
Proof.
  intros Hty.
  apply (adds_bind _ _ 1 0 (S k)); [apply adds_push; exact Hty | intro | lia].
  apply (adds_bind _ _ 0 0 0); [adds_zero | intro | lia]. adds_zero.
Qed.

Lemma adds_resolve_token plugin w scheme avatar match2 owner :
  is_erc721 scheme || is_erc1155 scheme = true ->
  adds 8 (resolve_token plugin w scheme avatar match2 owner).
Proof.
  intros Hs.
  assert (Hkind : In scheme kinds).
  { apply orb_true_iff in Hs. unfold is_erc721, is_erc1155 in Hs.
    destruct Hs as [Hs|Hs]; apply str_eqb_eq in Hs; subst; known. }
  unfold resolve_token. cbv zeta.
  apply (adds_bind _ _ 1 7 8); [apply adds_push; exact Hkind | intro | lia].
  destruct (split 47%N match2) as [|c0 [|c1 [|c2 l]]]; try adds_zero.
  apply (adds_bind _ _ 0 7 7); [adds_zero | intro | lia].
  apply (adds_bind _ _ 0 7 7); [adds_zero | intro | lia].
  apply (adds_bind _ _ 0 7 7); [adds_zero | intro | lia].
  apply (adds_bind _ _ 1 6 7); [apply adds_check_ownership | intro | lia].
  unfold resolve_metadata.
  apply (adds_bind _ _ 3 3 6); [apply adds_metadata_url | intro | lia].
  apply (adds_bind _ _ 2 1 3); [apply adds_image_url | intro | lia].
  apply adds_result. known.
Qed.

Lemma adds_switch_scheme plugin w owner avatar scheme match2 :
  adds 8 (switch_scheme plugin w owner avatar scheme match2).
Proof.
  unfold switch_scheme.
  destruct (str_eqb scheme (js "https")); [apply adds_result; known|].
  destruct (str_eqb scheme (js "data")); [apply adds_result; known|].
  destruct (str_eqb scheme (js "ipfs")).
  { apply (adds_bind _ _ 1 0 8); [apply adds_push; known | intro | lia].
    apply (adds_bind _ _ 0 0 0); [adds_zero | intro | lia].
    apply (adds_bind _ _ 0 0 0); [adds_zero | intro | lia]. adds_zero. }
  destruct (is_erc721 scheme || is_erc1155 scheme) eqn:E;
    [exact (adds_resolve_token _ _ _ _ _ _ E) | adds_zero].
Qed.

Lemma adds_for_matchers plugin w owner avatar :
  adds 8 (for_matchers plugin w owner avatar matchers).
Proof.
  destruct (for_matchers_once plugin w owner avatar)
    as [H | (m & m1 & m2 & _ & ->)].
  - unfold matchers. cbn [for_matchers]. rewrite !H. adds_zero.
  - apply (adds_bind _ _ 8 0 8);
      [apply adds_switch_scheme | intro; adds_zero | lia].
Qed.

Lemma adds_avatar_try plugin w this : adds 8 (avatar_try plugin w this).
Proof.
  unfold avatar_try.
  apply (adds_bind _ _ 0 8 8); [adds_zero | intros acc | lia].
  destruct acc as [[[owner|]]|]; try adds_zero.
  destruct (negb (truthy_string owner)); [adds_zero|].
  apply (adds_bind _ _ 0 8 8); [adds_zero | intros recs | lia].
  destruct recs as [|r rs]; [adds_zero|].
  destruct (negb (truthy_string (value r)));
    [adds_zero | apply adds_for_matchers].
Qed.

(** X24. The linkage of a run never has more than nine steps, and the
    kind of each is one of account, url, data, ipfs, erc721, erc1155,
    owner, balance, metadata-url-base, metadata-url-expanded,
    metadata-url, metadata and url-ipfs; the linkage of a returned
    result is that linkage. *)
Theorem linkage_is_bounded_and_typed (plugin : BitPluginAvatar) (w : World)
  (this : BitAccount) :
  (length (st_linkage (snd (run_avatar plugin w this))) <= 9)%nat
  /\ forallb known_kind (st_linkage (snd (run_avatar plugin w this))) = true
  /\ forall r, Avatar.avatar plugin w this = Return (Some r) ->
               linkage r = st_linkage (snd (run_avatar plugin w this)).
Proof.
  unfold Avatar.avatar. rewrite run_avatar_settle, settle_state.
  destruct (adds_avatar_try plugin w this (entry_state this))
    as (l & Hl & Hlen & Hkinds).
  rewrite Hl. cbn [entry_state st_linkage app length forallb].
  split; [lia|]. split.
  - rewrite Hkinds. reflexivity.
  - intros r H. apply settle_some in H.
    destruct (avatar_try plugin w this (entry_state this)) as [c st] eqn:E.
    simpl in H. subst c. rewrite (whole_avatar_try _ _ _ _ _ _ E).
    exact Hl.
Qed.

End PipelineFacts.

(* ===================================================================== *)
(** ** Token numbers and token words *)
(* ===================================================================== *)

Module TokenNumbers.
Import JS Ethers Avatar Spec Further.
Import StringFacts Abi Pipeline TokenWord.

Local Open Scope N_scope.

Lemma lower_hex_digit_value c :
  is_lower_hex_digit c = true ->
  exists d, hex_digit_value c = Some d /\ c = hex_digit d /\ d < 16.
Proof.
  unfold is_lower_hex_digit, hex_digit_value, hex_digit, is_digit.
  intros H. apply orb_true_iff in H. destruct H as [H|H];
    apply andb_true_iff in H; destruct H as [H1 H2];
    apply N.leb_le in H1, H2.
  - replace (48 <=? c) with true by (symmetry; apply N.leb_le; lia).
    replace (c <=? 57) with true by (symmetry; apply N.leb_le; lia).
    cbn [andb]. exists (c - 48). split; [reflexivity|].
    replace (c - 48 <? 10) with true by (symmetry; apply N.ltb_lt; lia).
    split; lia.
  - replace (c <=? 57) with false by (symmetry; apply N.leb_gt; lia).
    rewrite andb_false_r.
    replace (c <=? 70) with false by (symmetry; apply N.leb_gt; lia).
    rewrite andb_false_r.
    replace (97 <=? c) with true by (symmetry; apply N.leb_le; lia).
    replace (c <=? 102) with true by (symmetry; apply N.leb_le; lia).
    cbn [andb]. exists (c - 87). split; [reflexivity|].
    replace (c - 87 <? 10) with false by (symmetry; apply N.ltb_ge; lia).
    split; lia.
Qed.

Lemma hex_digit_value_bound c d : hex_digit_value c = Some d -> d < 16.
Proof.
  unfold hex_digit_value, is_digit. intros H.
  destruct ((48 <=? c) && (c <=? 57))%bool eqn:E1.
  { apply andb_true_iff in E1. destruct E1 as [A B].
    apply N.leb_le in A, B. inversion H; subst. lia. }
  destruct ((65 <=? c) && (c <=? 70))%bool eqn:E2.
  { apply andb_true_iff in E2. destruct E2 as [A B].
    apply N.leb_le in A, B. inversion H; subst. lia. }
  destruct ((97 <=? c) && (c <=? 102))%bool eqn:E3; [|discriminate].
  apply andb_true_iff in E3. destruct E3 as [A B].
  apply N.leb_le in A, B. inversion H; subst. lia.
Qed.

Lemma pow16_succ k : 16 ^ N.of_nat (S k) = 16 * 16 ^ N.of_nat k.
Proof. rewrite Nat2N.inj_succ, N.pow_succ_r'. reflexivity. Qed.

(** The value of a numeral lies in the range its length allows. *)
Lemma hex_value_from_bounds ds : forall acc v,
  hex_value_from acc ds = Some v ->
  acc * 16 ^ N.of_nat (length ds) <= v
  /\ v < (acc + 1) * 16 ^ N.of_nat (length ds).
Proof.
  induction ds as [|c ds IH]; intros acc v H.
  - cbn in H. inversion H; subst. cbn. lia.
  - cbn [hex_value_from] in H.
    destruct (hex_digit_value c) as [d|] eqn:E; [|discriminate].
    apply hex_digit_value_bound in E.
    destruct (IH _ _ H) as [L U].
    cbn [length]. rewrite pow16_succ.
    set (P := 16 ^ N.of_nat (length ds)) in *. nia.
Qed.

(** Two numerals of lower-case digits with the same length and the same
    value are the same text. *)
Lemma lower_hex_unique ds1 : forall ds2 a1 a2 v,
  length ds1 = length ds2 ->
  forallb is_lower_hex_digit ds1 = true ->
  forallb is_lower_hex_digit ds2 = true ->
  hex_value_from a1 ds1 = Some v -> hex_value_from a2 ds2 = Some v ->
  a1 = a2 /\ ds1 = ds2.
Proof.
  induction ds1 as [|c1 ds1 IH]; intros [|c2 ds2] a1 a2 v Hlen H1 H2 V1 V2;
    try discriminate.
  - cbn in V1, V2. split; congruence.
  - cbn [forallb] in H1, H2.
    apply andb_true_iff in H1, H2. destruct H1 as [L1 H1], H2 as [L2 H2].
    destruct (lower_hex_digit_value _ L1) as (d1 & E1 & -> & B1).
    destruct (lower_hex_digit_value _ L2) as (d2 & E2 & -> & B2).
    cbn [hex_value_from] in V1, V2. rewrite E1 in V1. rewrite E2 in V2.
    cbn [length] in Hlen. injection Hlen as Hlen.
    destruct (IH _ _ _ _ Hlen H1 H2 V1 V2) as [Ha ->].
    assert (a1 = a2 /\ d1 = d2) as [-> ->] by lia.
    split; reflexivity.
Qed.

Lemma hex_of_bytes_lower bs :
  are_bytes bs -> forallb is_lower_hex_digit (hex_of_bytes bs) = true.
Proof.
  intros H. induction H as [|b bs Hb _ IH]; [reflexivity|].
  cbn [hex_of_bytes flat_map hex_of_byte app forallb].
  fold (hex_of_bytes bs). rewrite IH.
  rewrite hex_digit_lower by (apply N.Div0.div_lt_upper_bound; lia).
  rewrite hex_digit_lower by (apply N.mod_lt; lia).
  reflexivity.
Qed.

Local Close Scope N_scope.

(** *** The normal form of [toHex] *)

Lemma trim00_even : forall k ds,
  (length ds <= k)%nat -> Nat.even (length ds) = true ->
  Nat.even (length (trim00 ds)) = true.
Proof.
  induction k as [|k IH]; intros ds Hk He.
  - destruct ds; [reflexivity | simpl in Hk; lia].
  - destruct ds as [|c1 [|c2 rest]]; try assumption.
    cbn [trim00].
    match goal with
    | |- context [if ?b then _ else _] => destruct b; [|assumption]
    end.
    apply IH; [simpl in Hk; lia | exact He].
Qed.

Lemma lower_hex_zero c d :
  is_lower_hex_digit c = true -> hex_digit_value c = Some d ->
  char_eqb c 48%N = false -> d <> 0%N.
Proof.
  intros Hc Hd Hne.
  destruct (lower_hex_digit_value _ Hc) as (d' & E & -> & _).
  rewrite E in Hd. inversion Hd; subst. intros ->.
  discriminate Hne.
Qed.

(** After the trim a numeral of more than two digits has a first pair
    other than 00, so its value is not below the range of its length. *)
Lemma trim00_canonical : forall k ds v,
  (length ds <= k)%nat ->
  forallb is_lower_hex_digit ds = true ->
  hex_value (trim00 ds) = Some v ->
  (length (trim00 ds) <= 2)%nat
  \/ (16 ^ N.of_nat (length (trim00 ds) - 2) <= v)%N.
Proof.
  induction k as [|k IH]; intros ds v Hk Hlow Hv.
  - destruct ds; [left; simpl; lia | simpl in Hk; lia].
  - destruct ds as [|c1 [|c2 rest]]; [left; simpl; lia ..|].
    cbn [trim00] in *.
    cbn [forallb] in Hlow. apply andb_true_iff in Hlow.
    destruct Hlow as [L1 Hlow]. apply andb_true_iff in Hlow.
    destruct Hlow as [L2 Hlow].
    destruct (char_eqb c1 48%N && char_eqb c2 48%N
              && negb (Nat.eqb (length rest) 0)) eqn:E.
    + apply IH; [simpl in Hk; lia | exact Hlow | exact Hv].
    + destruct (Nat.eqb (length rest) 0) eqn:Er.
      { apply Nat.eqb_eq in Er. left. cbn [length]. lia. }
      right. cbn [negb] in E. rewrite andb_true_r in E.
      unfold hex_value in Hv. cbn [hex_value_from] in Hv.
      destruct (hex_digit_value c1) as [d1|] eqn:E1; [|discriminate].
      destruct (hex_digit_value c2) as [d2|] eqn:E2; [|discriminate].
      destruct (hex_value_from_bounds _ _ _ Hv) as [Hb _].
      assert (Hpos : (1 <= 16 * (16 * 0 + d1) + d2)%N).
      { apply andb_false_iff in E. destruct E as [E|E].
        - pose proof (lower_hex_zero _ _ L1 E1 E). lia.
        - pose proof (lower_hex_zero _ _ L2 E2 E). lia. }
      replace (length (c1 :: c2 :: rest) - 2)%nat
        with (length rest) by (simpl; lia).
      set (P := (16 ^ N.of_nat (length rest))%N) in *. nia.
Qed.

Lemma lower_hex_not_0x h :
  forallb is_lower_hex_digit h = true -> str_eqb (firstn 2 h) (js "0x") = false.
Proof.
  intros H. destruct (str_eqb (firstn 2 h) (js "0x")) eqn:E; [|reflexivity].
  apply str_eqb_eq in E. destruct h as [|a [|b t]]; try discriminate.
  inversion E; subst. discriminate.
Qed.

Lemma even_digits_even h : Nat.even (length (even_digits h)) = true.
Proof.
  unfold even_digits. destruct (Nat.odd (length h)) eqn:E.
  - cbn [length]. rewrite Nat.even_succ. exact E.
  - rewrite <- Nat.negb_odd, E. reflexivity.
Qed.

Lemma even_digits_lower h :
  forallb is_lower_hex_digit h = true ->
  forallb is_lower_hex_digit (even_digits h) = true.
Proof.
  intros H. unfold even_digits. destruct (Nat.odd (length h)); [|exact H].
  cbn [forallb]. rewrite H. reflexivity.
Qed.

Lemma even_digits_value h : hex_value (even_digits h) = hex_value h.
Proof. unfold even_digits. destruct (Nat.odd (length h)); reflexivity. Qed.

Lemma odd_0x h : Nat.odd (length (js "0x" ++ h)) = Nat.odd (length h).
Proof.
  rewrite length_app. change (length (js "0x")) with 2%nat.
  cbn [Nat.add]. rewrite Nat.odd_succ, Nat.even_succ. reflexivity.
Qed.

Lemma toHex_unsigned_digits h :
  h <> [] -> forallb is_lower_hex_digit h = true ->
  toHex_unsigned h = js "0x" ++ trim00 (even_digits h).
Proof.
  intros Hne Hlow. unfold toHex_unsigned, even_digits.
  rewrite substring_0_2, (lower_hex_not_0x _ Hlow).
  replace (str_eqb (js "0x" ++ h) (js "0x")) with false
    by (destruct h; [congruence | reflexivity]).
  rewrite odd_0x.
  rewrite (substring_from_app (js "0x") h
           : substring_from (js "0x" ++ h) 2 = h).
  destruct (Nat.odd (length h)); f_equal; f_equal.
  - exact (substring_from_app (js "0x") (48%N :: h)).
  - exact (substring_from_app (js "0x") h).
Qed.

Lemma toHex_unsigned_0x_digits ds :
  ds <> [] ->
  toHex_unsigned (js "0x" ++ ds) = js "0x" ++ trim00 (even_digits ds).
Proof.
  intros Hne. unfold toHex_unsigned, even_digits.
  replace (substring (js "0x" ++ ds) 0 2) with (js "0x")
    by (symmetry; exact (substring_middle [] (js "0x") ds)).
  rewrite str_eqb_refl.
  replace (str_eqb (js "0x" ++ ds) (js "0x")) with false
    by (destruct ds; [congruence | reflexivity]).
  rewrite odd_0x.
  rewrite (substring_from_app (js "0x") ds
           : substring_from (js "0x" ++ ds) 2 = ds).
  destruct (Nat.odd (length ds)); f_equal; f_equal.
  - exact (substring_from_app (js "0x") (48%N :: ds)).
  - exact (substring_from_app (js "0x") ds).
Qed.

Lemma hex_of_N_nonempty n : hex_of_N n <> [].
Proof.
  intros E. pose proof (hex_of_N_value n) as H. rewrite E in H.
  cbn in H. inversion H; subst. discriminate E.
Qed.

Lemma BN_toString_natural n : BN_toString true (Z.of_N n) = hex_of_N n.
Proof.
  unfold BN_toString. rewrite Zabs2N.id.
  replace (Z.of_N n <? 0)%Z with false; [reflexivity|].
  symmetry. apply Z.ltb_ge. lia.
Qed.

Lemma digits_dec_literal ds :
  ds <> [] -> forallb is_digit ds = true -> is_dec_literal ds = true.
Proof.
  intros Hne Hdig. unfold is_dec_literal.
  rewrite (digits_no_minus _ Hdig). cbn [snd]. rewrite Hdig.
  destruct ds; [congruence | reflexivity].
Qed.

(** [BigNumber.from] accepts every numeral without upper-case letters;
    the text it holds is the trimmed numeral of an even number of
    lower-case digits. *)
Lemma BigNumber_from_numeral comp1 n :
  lower_numeral comp1 n ->
  exists ds,
    BigNumber_from comp1 = Ok (mkBigNumber (js "0x" ++ trim00 ds))
    /\ forallb is_lower_hex_digit ds = true
    /\ Nat.even (length ds) = true
    /\ hex_value ds = Some n.
Proof.
  intros [(Hne & Hdig & Hn) | (ds & -> & Hne & Hlow & Hval)];
    unfold BigNumber_from.
  - rewrite (digits_not_hex_literal _ Hdig).
    rewrite (digits_dec_literal _ Hne Hdig).
    rewrite (digits_no_minus _ Hdig). cbv beta iota. rewrite Hn.
    rewrite BN_toString_natural. unfold toHex.
    rewrite (lower_hex_no_minus _ (hex_of_N_lower n)).
    rewrite (toHex_unsigned_digits _ (hex_of_N_nonempty n) (hex_of_N_lower n)).
    cbn [rbind]. exists (even_digits (hex_of_N n)).
    split; [reflexivity|]. split; [apply even_digits_lower, hex_of_N_lower|].
    split; [apply even_digits_even|].
    rewrite even_digits_value. apply hex_of_N_value.
  - assert (Hlit : is_hex_literal (js "0x" ++ ds) = true).
    { unfold is_hex_literal.
      change (snd (strip_minus (js "0x" ++ ds))) with (js "0x" ++ ds).
      rewrite (strip_ci_app (js "0x") (js "0x") ds) by (repeat constructor).
      rewrite (lower_hex_digits _ Hlow).
      destruct ds; [congruence | reflexivity]. }
    rewrite Hlit.
    change (toHex (js "0x" ++ ds)) with (Ok (toHex_unsigned (js "0x" ++ ds))).
    rewrite (toHex_unsigned_0x_digits _ Hne). cbn [rbind].
    exists (even_digits ds).
    split; [reflexivity|]. split; [apply even_digits_lower, Hlow|].
    split; [apply even_digits_even|].
    rewrite even_digits_value. exact Hval.
Qed.

Lemma word_digits n :
  (n < 2 ^ 256)%N ->
  length (hex_of_bytes (word n)) = 64%nat
  /\ forallb is_lower_hex_digit (hex_of_bytes (word n)) = true
  /\ hex_value (hex_of_bytes (word n)) = Some n.
Proof.
  intros Hn. split; [|split].
  - rewrite hex_of_bytes_length. unfold word. rewrite be_bytes_length.
    reflexivity.
  - apply hex_of_bytes_lower, be_bytes_are_bytes.
  - unfold hex_value, word. rewrite hex_value_from_be_bytes; [reflexivity|].
    exact Hn.
Qed.

(** X11. The token word of a token number written in decimal or in
    lower-case hexadecimal: below 2^256 it is the number as 64 lower-case
    hexadecimal digits after 0x, whatever the spelling and the leading
    zeros; from 2^256 on it is refused. *)
Theorem token_word_of_numeral (comp1 : jsstring) (n : N) :
  lower_numeral comp1 n ->
  ((n < 2 ^ 256)%N ->
   token_word comp1 = Ok (js "0x" ++ hex_of_bytes (word n)))
  /\ ((2 ^ 256 <= n)%N -> token_word comp1 = Err "value out of range").
Proof.
  intros Hnum.
  destruct (BigNumber_from_numeral _ _ Hnum) as (ds & Hbn & Hlow & Hev & Hval).
  set (d := trim00 ds) in *.
  assert (Hd_low : forallb is_lower_hex_digit d = true)
    by (apply (trim00_forallb _ (length ds)); [(unfold jschar in *; lia) | exact Hlow]).
  assert (Hd_val : hex_value d = Some n)
    by (unfold d; rewrite (trim00_value (length ds)) by (unfold jschar in *; lia); exact Hval).
  assert (Hd_even : Nat.even (length d) = true)
    by (apply (trim00_even (length ds)); [(unfold jschar in *; lia) | exact Hev]).
  pose proof (trim00_canonical (length ds) ds n (Nat.le_refl _) Hlow Hd_val)
    as Hcanon. fold d in Hcanon.
  destruct (hex_value_from_bounds _ _ _ Hd_val) as [_ Hupper].
  unfold token_word. rewrite Hbn. cbn [rbind toHexString _hex].
  unfold hexZeroPad. rewrite isHexString_0x, (lower_hex_digits _ Hd_low).
  cbn [negb].
  rewrite (substring_from_app (js "0x") d
           : substring_from (js "0x" ++ d) 2 = d).
  rewrite length_app. change (length (js "0x")) with 2%nat.
  split; intros Hn.
  - assert (Hlen : (length d <= 64)%nat).
    { destruct Hcanon as [Hc|Hc]; [(unfold jschar in *; lia)|].
      destruct (Nat.le_gt_cases (length d) 65) as [Hle|Hgt].
      - destruct (Nat.eq_dec (length d) 65) as [E|E]; [|(unfold jschar in *; lia)].
        rewrite E in Hd_even. discriminate.
      - exfalso.
        assert ((16 ^ 64 <= 16 ^ N.of_nat (length d - 2))%N)
          by (apply N.pow_le_mono_r; (unfold jschar in *; lia)).
        change (16 ^ 64)%N with (2 ^ 256)%N in *. (unfold jschar in *; lia). }
    replace (2 * 32 + 2 <? 2 + length d)%nat with false
      by (symmetry; apply Nat.ltb_ge; (unfold jschar in *; lia)).
    f_equal. f_equal.
    destruct (word_digits n Hn) as (Wlen & Wlow & Wval).
    apply (lower_hex_unique _ _ 0%N 0%N n).
    + rewrite length_app, repeat_length, Wlen. (unfold jschar in *; lia).
    + apply forallb_forall. intros c Hc. apply in_app_or in Hc.
      destruct Hc as [Hc|Hc].
      * apply repeat_spec in Hc. subst. reflexivity.
      * revert c Hc. apply forallb_forall. exact Hd_low.
    + exact Wlow.
    + fold (hex_value (repeat 48%N (2 * 32 + 2 - (2 + length d)) ++ d)).
      rewrite hex_value_leading_zeros. exact Hd_val.
    + exact Wval.
  - assert (Hlen : (64 < length d)%nat).
    { destruct (Nat.le_gt_cases (length d) 64) as [Hle|Hgt]; [|exact Hgt].
      exfalso.
      assert ((16 ^ N.of_nat (length d) <= 16 ^ 64)%N)
        by (apply N.pow_le_mono_r; (unfold jschar in *; lia)).
      change (16 ^ 64)%N with (2 ^ 256)%N in *. (unfold jschar in *; lia). }
    replace (2 * 32 + 2 <? 2 + length d)%nat with true
      by (symmetry; apply Nat.ltb_lt; (unfold jschar in *; lia)).
    reflexivity.
Qed.

(** X12. A negative token number is refused: [BigNumber.from] accepts
    the numeral, and [hexZeroPad] then rejects the signed text. *)
Theorem negative_token_number_refused (comp1 : jsstring) (n : N) :
  negative_numeral comp1 n ->
  (exists bn, BigNumber_from comp1 = Ok bn)
  /\ token_word comp1 = Err "invalid hex string".
Proof.
  intros (ds & -> & Hne & Hdig & Hn & Hpos).
  assert (Hstrip : strip_minus (minus_sign :: ds) = (true, ds)).
  { unfold strip_minus. cbn [starts_with_minus].
    change (char_eqb minus_sign minus_sign) with true. cbv iota.
    f_equal. exact (substring_from_app [minus_sign] ds). }
  assert (Hhex : is_hex_literal (minus_sign :: ds) = false).
  { pose proof (digits_not_hex_literal _ Hdig) as H.
    unfold is_hex_literal in *. rewrite Hstrip.
    rewrite (digits_no_minus _ Hdig) in H. exact H. }
  assert (Hdec : is_dec_literal (minus_sign :: ds) = true).
  { unfold is_dec_literal. rewrite Hstrip. cbn [snd]. rewrite Hdig.
    destruct ds; [congruence | reflexivity]. }
  assert (Hstr : BN_toString true (- Z.of_N (dec_value ds))
                 = minus_sign :: hex_of_N n).
  { unfold BN_toString. rewrite Hn.
    replace (Z.abs_N (- Z.of_N n)) with n by lia.
    replace (- Z.of_N n <? 0)%Z with true; [reflexivity|].
    symmetry. apply Z.ltb_lt. lia. }
  assert (Hto : toHex (minus_sign :: hex_of_N n)
                = Ok (minus_sign :: js "0x"
                        ++ trim00 (even_digits (hex_of_N n)))).
  { unfold toHex. cbn [starts_with_minus].
    change (char_eqb minus_sign minus_sign) with true. cbv iota zeta.
    rewrite (substring_from_app [minus_sign] (hex_of_N n)
             : substring_from (minus_sign :: hex_of_N n) 1 = hex_of_N n).
    rewrite (lower_hex_no_minus _ (hex_of_N_lower n)).
    rewrite (toHex_unsigned_digits _ (hex_of_N_nonempty n)
               (hex_of_N_lower n)).
    destruct (str_eqb _ (js "0x00")) eqn:E; [|reflexivity].
    exfalso. apply str_eqb_eq in E.
    assert (Hv : hex_value (trim00 (even_digits (hex_of_N n))) = Some n).
    { rewrite (trim00_value (length (even_digits (hex_of_N n)))) by lia.
      rewrite even_digits_value. apply hex_of_N_value. }
    apply (f_equal (skipn 2)) in E.
    change (skipn 2 (js "0x" ++ trim00 (even_digits (hex_of_N n))))
      with (trim00 (even_digits (hex_of_N n))) in E.
    rewrite E in Hv. cbn in Hv. congruence. }
  assert (Hbn : BigNumber_from (minus_sign :: ds)
                = Ok (mkBigNumber (minus_sign :: js "0x"
                        ++ trim00 (even_digits (hex_of_N n))))).
  { unfold BigNumber_from. rewrite Hhex, Hdec, Hstrip. cbv beta iota zeta.
    rewrite Hstr, Hto. reflexivity. }
  split; [eexists; exact Hbn|].
  unfold token_word. rewrite Hbn. reflexivity.
Qed.

End TokenNumbers.

(* ===================================================================== *)
(** ** Decoding: lengths and bytes that are not UTF-8 *)
(* ===================================================================== *)

Module Decoding.
Import JS Ethers Avatar Spec Further.
Import StringFacts Abi.

Lemma clamp_nat len i : clamp len (Z.of_nat i) = Nat.min i len.
Proof. unfold clamp. lia. Qed.

Lemma firstn_min {A} (k : nat) (r : list A) :
  firstn (Nat.min k (length r)) r = firstn k r.
Proof.
  destruct (Nat.le_gt_cases k (length r)) as [H|H].
  - rewrite Nat.min_l by exact H. reflexivity.
  - rewrite Nat.min_r by lia. rewrite firstn_all.
    symmetry. apply firstn_all2. lia.
Qed.

(** A slice that starts inside the text and may end beyond it. *)
Lemma substring_from_middle (a r : jsstring) (k : nat) :
  substring (a ++ r) (Z.of_nat (length a)) (Z.of_nat (length a + k))
  = firstn k r.
Proof.
  unfold substring. rewrite !clamp_nat, length_app.
  replace (Nat.min (length a) (length a + length r)) with (length a) by lia.
  replace (Nat.min (Nat.min (length a + k) (length a + length r)) (length a))
    with (length a) by lia.
  replace (Nat.min (length a) (Nat.min (length a + k) (length a + length r)))
    with (length a) by lia.
  replace (Nat.max (length a) (Nat.min (length a + k) (length a + length r))
           - length a)%nat
    with (Nat.min k (length r)) by lia.
  rewrite skipn_app, skipn_all, Nat.sub_diag. cbn [skipn app].
  apply firstn_min.
Qed.

Lemma hex_of_bytes_firstn k : forall r,
  hex_of_bytes (firstn k r) = firstn (2 * k) (hex_of_bytes r).
Proof.
  induction k as [|k IH]; intros r; [reflexivity|].
  destruct r as [|b r]; [reflexivity|].
  replace (2 * S k)%nat with (S (S (2 * k))) by lia.
  cbn [firstn hex_of_bytes flat_map hex_of_byte app].
  fold (hex_of_bytes (firstn k r)). fold (hex_of_bytes r).
  rewrite IH. reflexivity.
Qed.

Lemma hexDataSlice_from a r (k : nat) i j :
  are_bytes (a ++ r) ->
  i = Z.of_nat (length a) -> j = Z.of_nat (length a + k) ->
  hexDataSlice (js "0x" ++ hex_of_bytes (a ++ r)) i j
  = Ok (js "0x" ++ hex_of_bytes (firstn k r)).
Proof.
  intros Hb -> ->. unfold hexDataSlice.
  rewrite isHexString_0x, (hex_of_bytes_digits _ Hb).
  replace (Nat.odd (length (js "0x" ++ hex_of_bytes (a ++ r)))) with false.
  2:{ rewrite length_app, hex_of_bytes_length.
      change (length (js "0x")) with 2%nat.
      rewrite Nat.odd_add_mul_2. reflexivity. }
  cbn [negb orb]. f_equal. f_equal.
  rewrite hex_of_bytes_app, app_assoc, hex_of_bytes_firstn.
  replace (2 + 2 * Z.of_nat (length a))%Z
    with (Z.of_nat (length (js "0x" ++ hex_of_bytes a))).
  2:{ rewrite length_app, hex_of_bytes_length.
      change (length (js "0x")) with 2%nat. lia. }
  replace (2 + 2 * Z.of_nat (length a + k))%Z
    with (Z.of_nat (length (js "0x" ++ hex_of_bytes a) + 2 * k)).
  2:{ rewrite length_app, hex_of_bytes_length.
      change (length (js "0x")) with 2%nat. lia. }
  apply substring_from_middle.
Qed.

(** X13. [_parseBytes] does not compare the declared length with the
    buffer: it returns the declared number of bytes after the length
    word when they are there, and the bytes that are there when the
    buffer ends before. *)
Theorem parseBytes_declared_length (gap rest : list N) (len : N) :
  are_bytes gap -> are_bytes rest ->
  (32 + N.of_nat (length gap) < 2 ^ 53)%N -> (len < 2 ^ 53)%N ->
  _parseBytes (abi_layout gap len rest) 0
  = Ok (Some (js "0x" ++ hex_of_bytes (firstn (N.to_nat len) rest))).
Proof.
  intros Hgap Hrest Hoff Hlen.
  set (w1 := word (32 + N.of_nat (length gap))).
  set (w2 := word len).
  assert (Hw1 : length w1 = 32%nat) by apply be_bytes_length.
  assert (Hw2 : length w2 = 32%nat) by apply be_bytes_length.
  assert (Hall : are_bytes (w1 ++ gap ++ w2 ++ rest)).
  { unfold are_bytes. rewrite !Forall_app.
    repeat split; try assumption; apply be_bytes_are_bytes. }
  unfold _parseBytes, abi_layout. fold w1 w2.
  destruct (str_eqb _ (js "0x")) eqn:E.
  { apply str_eqb_eq in E. apply (f_equal (@length _)) in E.
    rewrite length_app, hex_of_bytes_length, length_app, Hw1 in E.
    simpl in E. lia. }
  rewrite (hexDataSlice_middle [] w1 (gap ++ w2 ++ rest));
    [| exact Hall | reflexivity | rewrite Hw1; reflexivity].
  cbn [rbind].
  destruct (number_of_word _ Hoff) as (b1 & Hb1 & Hn1). fold w1 in Hb1.
  rewrite Hb1. cbn [rbind]. rewrite Hn1. cbn [rbind].
  replace (w1 ++ gap ++ w2 ++ rest)
    with ((w1 ++ gap) ++ w2 ++ rest) by (rewrite <- app_assoc; reflexivity).
  rewrite (hexDataSlice_middle (w1 ++ gap) w2 rest);
    [| rewrite <- app_assoc; exact Hall
     | rewrite length_app, Hw1; lia
     | rewrite length_app, Hw1, Hw2; lia].
  cbn [rbind].
  destruct (number_of_word _ Hlen) as (b2 & Hb2 & Hn2). fold w2 in Hb2.
  rewrite Hb2. cbn [rbind]. rewrite Hn2. cbn [rbind].
  replace ((w1 ++ gap) ++ w2 ++ rest)
    with ((w1 ++ gap ++ w2) ++ rest)
    by (rewrite <- !app_assoc; reflexivity).
  rewrite (hexDataSlice_from (w1 ++ gap ++ w2) rest (N.to_nat len));
    [| rewrite <- !app_assoc; exact Hall
     | rewrite !length_app, Hw1, Hw2; lia
     | rewrite !length_app, Hw1, Hw2; lia].
  reflexivity.
Qed.

(** *** Bytes that are not UTF-8 *)

Local Open Scope N_scope.

Lemma getUtf8CodePoints_app cps rest :
  Forall is_scalar cps ->
  getUtf8CodePoints (utf8_bytes cps ++ rest)
  = rbind (getUtf8CodePoints rest) (fun tl => Ok (cps ++ tl)).
Proof.
  intros H. induction H as [|cp cps Hcp _ IH].
  - cbn [utf8_bytes flat_map app]. destruct (getUtf8CodePoints rest); reflexivity.
  - unfold utf8_bytes in *. cbn [flat_map]. rewrite <- app_assoc.
    rewrite (decode_code_point _ _ Hcp), IH.
    destruct (getUtf8CodePoints rest); reflexivity.
Qed.

Lemma stray_byte_refused b rest :
  stray_byte b -> exists msg, getUtf8CodePoints (b :: rest) = Err msg.
Proof.
  intros Hb.
  assert (Hlt : b < 256) by (destruct Hb as [[_ H]|[_ H]]; lia).
  pose proof (below_cases 256
    (fun b => implb (((128 <=? b) && (b <? 192)) || (248 <=? b))
                (negb (N.shiftr b 7 =? 0)
                 && negb (N.land b 224 =? 192)
                 && negb (N.land b 240 =? 224)
                 && negb (N.land b 248 =? 240))) eq_refl b Hlt) as H.
  cbv beta in H.
  replace (((128 <=? b) && (b <? 192)) || (248 <=? b))%bool with true in H.
  2:{ symmetry. apply orb_true_iff. destruct Hb as [[H1 H2]|[H1 _]].
      - left. apply andb_true_iff. split; [apply N.leb_le | apply N.ltb_lt];
          assumption.
      - right. apply N.leb_le. exact H1. }
  cbn [implb] in H.
  apply andb_true_iff in H. destruct H as [H H4].
  apply andb_true_iff in H. destruct H as [H H3].
  apply andb_true_iff in H. destruct H as [H1 H2].
  apply negb_true_iff in H1, H2, H3, H4.
  cbn [getUtf8CodePoints]. rewrite H1, H2, H3, H4.
  destruct (is_continuation b); eauto.
Qed.

(** A character of several bytes cut before its last byte. *)
Lemma cut_character_refused cp (k : nat) :
  is_scalar cp ->
  (0 < k)%nat -> (k < length (utf8_of_code_point cp))%nat ->
  exists msg,
    getUtf8CodePoints (firstn k (utf8_of_code_point cp)) = Err msg.
Proof.
  intros Hs Hk0 Hk. unfold utf8_of_code_point in *.
  assert (Hcp : cp < 1114112) by (destruct Hs; lia).
  pose proof (mod_lt_64 cp) as M1.
  pose proof (mod_lt_64 (cp / 64)) as M2.
  pose proof (mod_lt_64 (cp / 4096)) as M3.
  destruct (cp <? 128) eqn:R1; [cbn [length] in Hk; lia|].
  apply N.ltb_ge in R1.
  destruct (cp <? 2048) eqn:R2.
  { apply N.ltb_lt in R2.
    assert (Hh : cp / 64 < 32) by (apply N.Div0.div_lt_upper_bound; lia).
    destruct (lead2 _ Hh) as (L1 & L2 & L3).
    cbn [length] in Hk.
    destruct k as [|[|k]]; [lia| |lia].
    cbn [firstn getUtf8CodePoints]. rewrite L1, L2. eauto. }
  apply N.ltb_ge in R2.
  destruct (cp <? 65536) eqn:R3.
  { apply N.ltb_lt in R3.
    assert (Hh : cp / 4096 < 16) by (apply N.Div0.div_lt_upper_bound; lia).
    destruct (lead3 _ Hh) as (L1 & L2 & L3 & L4).
    cbn [length] in Hk.
    destruct k as [|[|[|k]]]; [lia| | |lia];
      cbn [firstn getUtf8CodePoints]; rewrite L1, L2, L3; eauto. }
  apply N.ltb_ge in R3.
  assert (Hh : cp / 262144 < 8) by (apply N.Div0.div_lt_upper_bound; lia).
  destruct (lead4 _ Hh) as (L1 & L2 & L3 & L4 & L5).
  cbn [length] in Hk.
  destruct k as [|[|[|[|k]]]]; [lia| | | |lia];
    cbn [firstn getUtf8CodePoints]; rewrite L1, L2, L3, L4; eauto.
Qed.

Local Close Scope N_scope.

Lemma parseString_undecodable gap bytes tail :
  are_bytes gap -> are_bytes bytes -> are_bytes tail ->
  (32 + N.of_nat (length gap) < 2 ^ 53)%N ->
  (N.of_nat (length bytes) < 2 ^ 53)%N ->
  (exists msg, getUtf8CodePoints bytes = Err msg) ->
  _parseString (abi_encode_dynamic gap bytes tail) 0 = Ok None.
Proof.
  intros Hgap Hbytes Htail Hoff Hlen [msg Hbad]. unfold _parseString.
  rewrite (parseBytes_dynamic gap bytes tail Hgap Hbytes Htail Hoff Hlen).
  cbn [rbind]. unfold toUtf8String, arrayify.
  rewrite isHexString_0x, (hex_of_bytes_digits _ Hbytes).
  replace (substring_from (js "0x" ++ hex_of_bytes bytes) 2)
    with (hex_of_bytes bytes)
    by (symmetry; apply (substring_from_app (js "0x"))).
  rewrite (bytes_of_hex_of_bytes _ Hbytes). cbn [rbind].
  rewrite Hbad. reflexivity.
Qed.

(** X14. Text that is valid UTF-8 up to a byte that cannot begin a
    character (a continuation byte, or a byte from 248 on) is decoded
    by [_parseString] to [null], whatever follows the byte. *)
Theorem parseString_stray_byte (cps : list N) (b : N)
  (rest gap tail : list N) :
  Forall is_scalar cps -> stray_byte b ->
  are_bytes rest -> are_bytes gap -> are_bytes tail ->
  (32 + N.of_nat (length gap) < 2 ^ 53)%N ->
  (N.of_nat (length (utf8_bytes cps ++ b :: rest)) < 2 ^ 53)%N ->
  _parseString (abi_encode_dynamic gap (utf8_bytes cps ++ b :: rest) tail) 0
  = Ok None.
Proof.
  intros Hs Hb Hrest Hgap Htail Hoff Hlen.
  apply parseString_undecodable; try assumption.
  - apply Forall_app. split; [exact (utf8_bytes_are_bytes _ Hs)|].
    constructor; [|exact Hrest]. destruct Hb as [[_ H]|[_ H]]; lia.
  - destruct (stray_byte_refused b rest Hb) as [msg Hmsg].
    exists msg. rewrite (getUtf8CodePoints_app _ _ Hs), Hmsg. reflexivity.
Qed.

(** X15. Text that ends inside a character of several bytes is decoded
    by [_parseString] to [null]: the characters before the cut are not
    returned. *)
Theorem parseString_cut_character (cps : list N) (cp : N) (k : nat)
  (gap tail : list N) :
  Forall is_scalar cps -> is_scalar cp ->
  (0 < k)%nat -> (k < length (utf8_of_code_point cp))%nat ->
  are_bytes gap -> are_bytes tail ->
  (32 + N.of_nat (length gap) < 2 ^ 53)%N ->
  (N.of_nat (length (utf8_bytes cps ++ firstn k (utf8_of_code_point cp)))
   < 2 ^ 53)%N ->
  _parseString
    (abi_encode_dynamic gap
       (utf8_bytes cps ++ firstn k (utf8_of_code_point cp)) tail) 0
  = Ok None.
Proof.
  intros Hs Hcp Hk0 Hk Hgap Htail Hoff Hlen.
  apply parseString_undecodable; try assumption.
  - apply Forall_app. split; [exact (utf8_bytes_are_bytes _ Hs)|].
    apply Forall_forall. intros x Hx.
    assert (Hall : are_bytes (utf8_of_code_point cp))
      by (apply utf8_of_code_point_bytes; destruct Hcp; lia).
    unfold are_bytes in Hall. rewrite Forall_forall in Hall.
    apply Hall. rewrite <- (firstn_skipn k). apply in_or_app. left. exact Hx.
  - destruct (cut_character_refused cp k Hcp Hk0 Hk) as [msg Hmsg].
    exists msg. rewrite (getUtf8CodePoints_app _ _ Hs), Hmsg. reflexivity.
Qed.

(** *** The configured gateway *)

(** X16. The gateway of a plugin is never the empty text: it is the
    [ipfsGateway] option when that is given and not empty, and the
    default gateway in every other case (no options, no [ipfsGateway],
    or an empty one). *)
Theorem plugin_gateway_never_empty (options : option BitPluginAvatarOptions) :
  truthy_string (ipfs (new_BitPluginAvatar options)) = true
  /\ (forall g, options = Some {| ipfsGateway := Some g |} -> g <> [] ->
       ipfs (new_BitPluginAvatar options) = g)
  /\ ((forall g, options = Some {| ipfsGateway := Some g |} -> g = []) ->
       ipfs (new_BitPluginAvatar options) = default_gateway).
Proof.
  split; [|split].
  - destruct options as [[[g|]]|]; cbn [new_BitPluginAvatar];
      try reflexivity.
    destruct (truthy_string g) eqn:E; cbn [ipfs]; [exact E | reflexivity].
  - intros g -> Hg. cbn [new_BitPluginAvatar].
    destruct g as [|c g]; [congruence | reflexivity].
  - intros H. destruct options as [[[g|]]|]; cbn [new_BitPluginAvatar];
      try reflexivity.
    rewrite (H g eq_refl). reflexivity.
Qed.

End Decoding.

(* ===================================================================== *)
(** ** The urls that are returned *)
(* ===================================================================== *)

Module ResolvedUrls.
Import JS Ethers Avatar Spec Further.
Import StringFacts Pipeline Unresolved.

Local Open Scope avatar_scope.

Lemma never_ret {A} (a : A) : never_results (ret a).
Proof. intros st r st' H. discriminate. Qed.

Lemma never_return_none {A} : never_results (@return_ A None).
Proof. intros st r st' H. discriminate. Qed.

Lemma never_lift {A} (x : result A) : never_results (lift x).
Proof. intros st r st' H. unfold lift in H. destruct x; discriminate. Qed.

Lemma never_push ty c : never_results (push ty c).
Proof. intros st r st' H. discriminate. Qed.

Lemma never_call w tx : never_results (call w tx).
Proof.
  intros st r st' H. unfold call in H.
  destruct (provider_call w tx); discriminate.
Qed.

Lemma never_bind {A B} (c : M A) (k : A -> M B) :
  never_results c -> (forall a, never_results (k a)) ->
  never_results (bind c k).
Proof.
  intros Hc Hk st r st' H. unfold bind in H.
  destruct (c st) as [[a|o|msg] st1] eqn:E.
  - exact (Hk a _ _ _ H).
  - inversion H; subst. exact (Hc _ _ _ E).
  - discriminate.
Qed.

Ltac never_step :=
  first
    [ apply never_bind
    | apply never_ret
    | apply never_return_none
    | apply never_lift
    | apply never_push
    | apply never_call
    | match goal with
      | |- never_results (if ?b then _ else _) => destruct b
      | |- never_results (match ?x with _ => _ end) => destruct x
      | |- forall _, _ => intro
      end ].

Lemma never_check_ownership w scheme owner addr tokenId :
  never_results (check_ownership w scheme owner addr tokenId).
Proof. unfold check_ownership. repeat never_step. Qed.

Lemma never_metadata_url plugin w scheme selector comp0 tokenId :
  never_results (metadata_url plugin w scheme selector comp0 tokenId).
Proof. unfold metadata_url. repeat never_step. Qed.

Lemma never_image_url w metadataUrl : never_results (image_url w metadataUrl).
Proof. unfold image_url. repeat never_step. Qed.

(** *** What completes normally *)

Lemma yields_ret {A} (Q : A -> Prop) a : Q a -> yields Q (ret a).
Proof. intros H st a' st' E. inversion E; subst. exact H. Qed.

Lemma yields_return {A} (Q : A -> Prop) o : yields Q (@return_ A o).
Proof. intros st a st' E. discriminate. Qed.

Lemma yields_lift {A} (Q : A -> Prop) (x : result A) :
  (forall a, x = Ok a -> Q a) -> yields Q (lift x).
Proof.
  intros H st a st' E. unfold lift in E. destruct x; [|discriminate].
  inversion E; subst. apply H. reflexivity.
Qed.

Lemma yields_bind {A B} (Q : B -> Prop) (c : M A) (k : A -> M B) :
  (forall a, yields Q (k a)) -> yields Q (bind c k).
Proof.
  intros Hk st b st' E. unfold bind in E.
  destruct (c st) as [[a|o|msg] st1]; try discriminate.
  exact (Hk a _ _ _ E).
Qed.

Lemma getIpfsLink_web x gateway u :
  getIpfsLink x gateway = Ok u ->
  exists rest, u = gateway_of gateway ++ js "/ipfs/" ++ rest.
Proof.
  unfold getIpfsLink. fold (gateway_of gateway).
  destruct (starts_ci (js "ipfs://ipfs/") x).
  { intros H. apply Ok_inj in H. subst. eauto. }
  destruct (starts_ci (js "ipfs://") x); [|discriminate].
  intros H. apply Ok_inj in H. subst. eauto.
Qed.

(** The image link that the metadata yields. *)
Lemma yields_image_url gw w metadataUrl :
  yields (web_url gw) (image_url w metadataUrl).
Proof.
  unfold image_url. apply yields_bind. intros metadata.
  destruct (falsy metadata); [apply yields_return|].
  apply yields_bind. intros _.
  destruct (get_property metadata (js "image"))
    as [[|b|n d|img|items|fields]|]; try apply yields_return.
  destruct (starts_ci (js "https://") img) eqn:E1.
  { apply yields_ret. left. exact E1. }
  destruct (starts_ci (js "data:") img) eqn:E2.
  { apply yields_ret. right. left. exact E2. }
  cbn [orb].
  destruct (exec matcherIpfs img); [|apply yields_return].
  apply yields_bind. intros _. apply yields_lift. intros u Hu.
  right. right. right. exact (getIpfsLink_web _ _ _ Hu).
Qed.

(** *** What is returned *)

Lemma returns_never P {A} (c : M A) : never_results c -> returns P c.
Proof. intros H st r st' E. exfalso. exact (H _ _ _ E). Qed.

Lemma returns_bind P {A B} (c : M A) (k : A -> M B) :
  returns P c -> (forall a, returns P (k a)) -> returns P (bind c k).
Proof.
  intros Hc Hk st r st' H. unfold bind in H.
  destruct (c st) as [[a|o|msg] st1] eqn:E.
  - exact (Hk a _ _ _ H).
  - inversion H; subst. exact (Hc _ _ _ E).
  - discriminate.
Qed.

Lemma returns_bind_yields P {A B} (Q : A -> Prop) (c : M A) (k : A -> M B) :
  never_results c -> yields Q c -> (forall a, Q a -> returns P (k a)) ->
  returns P (bind c k).
Proof.
  intros Hc Hq Hk st r st' H. unfold bind in H.
  destruct (c st) as [[a|o|msg] st1] eqn:E.
  - exact (Hk a (Hq _ _ _ E) _ _ _ H).
  - inversion H; subst. exfalso. exact (Hc _ _ _ E).
  - discriminate.
Qed.

Lemma returns_result (P : jsstring -> Prop) {A} ty c u :
  P u ->
  returns P (push ty c ;;;
             l <- get_linkage ;;
             @return_ A (Some {| linkage := l; url := u |})).
Proof.
  intros Hu st r st' H. cbv [bind push get_linkage return_] in H.
  inversion H; subst. exact Hu.
Qed.

Lemma returns_resolve_token plugin w scheme avatar match2 owner :
  returns (web_url (ipfs plugin))
    (resolve_token plugin w scheme avatar match2 owner).
Proof.
  unfold resolve_token. cbv zeta.
  apply returns_bind; [apply returns_never, never_push | intro].
  destruct (split 47%N match2) as [|c0 [|c1 [|c2 l]]];
    try apply returns_never, never_return_none.
  apply returns_bind; [apply returns_never, never_lift | intro].
  apply returns_bind; [apply returns_never, never_lift | intro].
  apply returns_bind; [apply returns_never, never_lift | intro].
  apply returns_bind; [apply returns_never, never_check_ownership | intro].
  unfold resolve_metadata.
  apply returns_bind; [apply returns_never, never_metadata_url | intro].
  apply (returns_bind_yields _ (web_url (ipfs plugin)));
    [apply never_image_url | apply yields_image_url |].
  intros img Himg. apply returns_result. exact Himg.
Qed.

(** The scheme a matcher captures, and the prefix of what it matches. *)
Lemma exec_scheme m s match1 match2 :
  exec m s = Some (match1, match2) ->
  match m with
  | matcherHttps =>
      toLowerCase match1 = js "https" /\ starts_ci (js "https://") s = true
  | matcherData =>
      toLowerCase match1 = js "data" /\ starts_ci (js "data:") s = true
  | matcherIpfs => toLowerCase match1 = js "ipfs"
  | matcherEip155 => exists d, toLowerCase match1 = js "erc" ++ d
  end.
Proof.
  destruct m; cbn [exec]; intros H.
  - apply match_scheme_inv in H. destruct H as (-> & Hci & _).
    split; [exact (eq_ci_lower _ _ Hci)|].
    rewrite app_assoc. apply starts_ci_app.
    change (js "https://") with (js "https" ++ js "://").
    apply Forall2_app; [exact Hci|]. repeat constructor.
  - apply match_scheme_inv in H. destruct H as (-> & Hci & _).
    split; [exact (eq_ci_lower _ _ Hci)|].
    rewrite app_assoc. apply starts_ci_app.
    change (js "data:") with (js "data" ++ js ":").
    apply Forall2_app; [exact Hci|]. repeat constructor.
  - apply match_scheme_inv in H. destruct H as (_ & Hci & _).
    exact (eq_ci_lower _ _ Hci).
  - exact (match_eip155_scheme _ _ _ H).
Qed.

Lemma returns_switch_scheme plugin w owner avatar m match1 match2 :
  exec m avatar = Some (match1, match2) ->
  returns (web_url (ipfs plugin))
    (switch_scheme plugin w owner avatar (toLowerCase match1) match2).
Proof.
  intros H. pose proof (exec_scheme _ _ _ _ H) as Hs.
  destruct m.
  - destruct Hs as [-> Hp]. apply returns_result. left. exact Hp.
  - destruct Hs as [-> Hp]. apply returns_result. right. left. exact Hp.
  - rewrite Hs. unfold switch_scheme.
    change (str_eqb (js "ipfs") (js "https")) with false.
    change (str_eqb (js "ipfs") (js "data")) with false.
    change (str_eqb (js "ipfs") (js "ipfs")) with true. cbv iota.
    apply returns_bind; [apply returns_never, never_push | intro].
    intros st r st' E. cbv [bind get_linkage lift return_] in E.
    destruct (getIpfsLink avatar (Some (ipfs plugin))) as [u|msg] eqn:Hu;
      [|discriminate].
    inversion E; subst. cbn [url]. right. right. left.
    exact (getIpfsLink_web _ _ _ Hu).
  - destruct Hs as [d ->]. unfold switch_scheme.
    change (str_eqb (js "erc" ++ d) (js "https")) with false.
    change (str_eqb (js "erc" ++ d) (js "data")) with false.
    change (str_eqb (js "erc" ++ d) (js "ipfs")) with false. cbv iota.
    destruct (is_erc721 (js "erc" ++ d) || is_erc1155 (js "erc" ++ d));
      [apply returns_resolve_token | apply returns_never, never_ret].
Qed.

Lemma returns_for_matchers plugin w owner avatar ms :
  returns (web_url (ipfs plugin)) (for_matchers plugin w owner avatar ms).
Proof.
  induction ms as [|m ms IH]; cbn [for_matchers];
    [apply returns_never, never_ret|].
  destruct (exec m avatar) as [[m1 m2]|] eqn:E; [|exact IH].
  apply returns_bind; [exact (returns_switch_scheme _ _ _ _ _ _ _ E)|].
  intro. exact IH.
Qed.

Lemma returns_avatar_try plugin w this :
  returns (web_url (ipfs plugin)) (avatar_try plugin w this).
Proof.
  unfold avatar_try.
  apply returns_bind; [apply returns_never, never_lift | intros acc].
  destruct acc as [[[owner|]]|]; try apply returns_never, never_return_none.
  destruct (negb (truthy_string owner));
    [apply returns_never, never_return_none|].
  apply returns_bind; [apply returns_never, never_lift | intros recs].
  destruct recs as [|r rs]; [apply returns_never, never_return_none|].
  destruct (negb (truthy_string (value r)));
    [apply returns_never, never_return_none | apply returns_for_matchers].
Qed.

(** X19. The url of every returned result is an https link or a data
    link (in either case of the scheme), or the text made of a gateway,
    the plugin's or the default one, then /ipfs/, then a rest. *)
Theorem resolved_url_is_web_url (plugin : BitPluginAvatar) (w : World)
  (this : BitAccount) (r : ResolvedAvatar) :
  Avatar.avatar plugin w this = Return (Some r) ->
  web_url (ipfs plugin) (url r).
Proof.
  unfold Avatar.avatar. rewrite run_avatar_settle. intros H.
  apply settle_some in H.
  destruct (avatar_try plugin w this (entry_state this)) as [c st] eqn:E.
  simpl in H. subst c. exact (returns_avatar_try _ _ _ _ _ _ E).
Qed.

End ResolvedUrls.

(* ===================================================================== *)
(** ** Account names *)
(* ===================================================================== *)

Module AccountFacts.
Import JS Account.
Import StringFacts Pipeline.

(** *** Splitting at one character *)

Lemma split_length sep s :
  length (split sep s) = S (length (filter (fun c => char_eqb c sep) s)).
Proof.
  induction s as [|c s IH]; [reflexivity|].
  cbn [split filter]. destruct (char_eqb c sep).
  - cbn [length]. rewrite IH. reflexivity.
  - destruct (split sep s) as [|piece pieces]; [discriminate IH|].
    exact IH.
Qed.

(** X20. An account is a sub-account exactly when its name holds two
    dots or more, wherever they are. *)
Theorem isSubAccount_counts_dots (account : jsstring) :
  isSubAccount account = true <-> (2 <= dots account)%nat.
Proof.
  unfold isSubAccount, dots. rewrite split_length.
  rewrite Nat.leb_le. lia.
Qed.

Lemma char_eqb_refl c : char_eqb c c = true.
Proof. apply N.eqb_refl. Qed.

Lemma split_none sep s :
  forallb (fun c => negb (char_eqb c sep)) s = true -> split sep s = [s].
Proof.
  induction s as [|c s IH]; intros H; [reflexivity|].
  cbn [forallb] in H. apply andb_true_iff in H. destruct H as [Hc Hs].
  apply negb_true_iff in Hc. cbn [split]. rewrite Hc, (IH Hs). reflexivity.
Qed.

Lemma split_at sep s rest :
  forallb (fun c => negb (char_eqb c sep)) s = true ->
  split sep (s ++ sep :: rest) = s :: split sep rest.
Proof.
  induction s as [|c s IH]; intros H.
  - cbn [app split]. rewrite char_eqb_refl. reflexivity.
  - cbn [forallb] in H. apply andb_true_iff in H. destruct H as [Hc Hs].
    apply negb_true_iff in Hc. cbn [app split]. rewrite Hc, (IH Hs).
    reflexivity.
Qed.

(** *** The suffix *)

Lemma dot_bit_alone name : name ++ dot_bit = dot_bit -> name = [].
Proof.
  intros H. apply (f_equal (@length _)) in H. rewrite length_app in H.
  destruct name; [reflexivity | simpl in H; lia].
Qed.

(** X21. [trimAccountSuffix] removes one suffix .bit, and only at the
    very end: a name that ends with .bit loses these four characters,
    and every other name is returned as it is. *)
Theorem trimAccountSuffix_cuts_one_suffix (account : jsstring) :
  (exists name,
     account = name ++ js ".bit" /\ trimAccountSuffix account = name)
  \/ ((forall name, account <> name ++ js ".bit")
      /\ trimAccountSuffix account = account).
Proof.
  change (js ".bit") with dot_bit.
  induction account as [|c s IH].
  - right. split; [|reflexivity].
    intros name H. apply (f_equal (@length _)) in H.
    rewrite length_app in H. simpl in H. lia.
  - cbn [trimAccountSuffix].
    destruct (str_eqb (c :: s) dot_bit) eqn:E.
    { apply str_eqb_eq in E. left. exists []. split; [exact E | reflexivity]. }
    destruct IH as [(name & Hs & Ht) | (Hno & Ht)].
    + left. exists (c :: name). split; [rewrite Hs; reflexivity|].
      rewrite Ht. reflexivity.
    + right. split; [|rewrite Ht; reflexivity].
      intros [|c' name] H.
      * cbn [app] in H. rewrite H, str_eqb_refl in E. discriminate.
      * cbn [app] in H. inversion H; subst. exact (Hno name eq_refl).
Qed.

(** *** Labels *)

Lemma label_char_inv c :
  label_char c = true ->
  char_eqb c dot = false /\ char_eqb c hash = false
  /\ is_line_terminator c = false.
Proof.
  unfold label_char. intros H.
  apply andb_true_iff in H. destruct H as [H H3].
  apply andb_true_iff in H. destruct H as [H1 H2].
  apply negb_true_iff in H1, H2, H3. auto.
Qed.

Lemma label_no_dot s :
  forallb label_char s = true ->
  forallb (fun c => negb (char_eqb c dot)) s = true.
Proof.
  intros H. apply forallb_forall. intros c Hc.
  rewrite forallb_forall in H.
  destruct (label_char_inv _ (H c Hc)) as (-> & _ & _). reflexivity.
Qed.

Lemma label_no_hash s :
  forallb label_char s = true ->
  forallb (fun c => negb (char_eqb c hash)) s = true.
Proof.
  intros H. apply forallb_forall. intros c Hc.
  rewrite forallb_forall in H.
  destruct (label_char_inv _ (H c Hc)) as (_ & -> & _). reflexivity.
Qed.

Lemma forallb_append {A} (P : A -> bool) a b :
  forallb P a = true -> forallb P b = true -> forallb P (a ++ b) = true.
Proof.
  intros Ha Hb. apply forallb_forall. intros x Hx. apply in_app_or in Hx.
  destruct Hx as [Hx|Hx]; [revert x Hx | revert x Hx];
    apply forallb_forall; assumption.
Qed.

Lemma includes_none c s :
  forallb (fun x => negb (char_eqb x c)) s = true -> includes c s = false.
Proof.
  intros H. unfold includes. induction s as [|x s IH]; [reflexivity|].
  cbn [forallb] in H. apply andb_true_iff in H. destruct H as [Hx Hs].
  apply negb_true_iff in Hx. cbn [existsb]. rewrite Hx, (IH Hs). reflexivity.
Qed.

Lemma includes_middle c a b : includes c (a ++ c :: b) = true.
Proof.
  unfold includes. rewrite existsb_app. cbn [existsb].
  rewrite char_eqb_refl. apply orb_true_iff. right. reflexivity.
Qed.

(** *** The two tests of [isSupportedAccount] *)

Lemma test_found x c y :
  is_line_terminator c = false ->
  test_some_dot_bit (x ++ c :: dot_bit ++ y) = true.
Proof.
  intros Hc. induction x as [|c0 x IH].
  - cbn [app test_some_dot_bit]. rewrite Hc, strip_prefix_app. reflexivity.
  - cbn [app test_some_dot_bit]. rewrite IH. apply orb_true_r.
Qed.

Lemma split_char_hash_none s :
  forallb (fun c => negb (char_eqb c hash)) s = true ->
  split_char_hash s = [s].
Proof.
  induction s as [|c s IH]; intros H; [reflexivity|].
  cbn [forallb] in H. apply andb_true_iff in H. destruct H as [_ Hs].
  specialize (IH Hs). destruct s as [|h s']; [reflexivity|].
  cbn [forallb] in Hs. apply andb_true_iff in Hs. destruct Hs as [Hh _].
  apply negb_true_iff in Hh.
  change (split_char_hash (c :: h :: s'))
    with (if negb (is_line_terminator c) && char_eqb h hash
          then [] :: split_char_hash s'
          else match split_char_hash (h :: s') with
               | piece :: pieces => (c :: piece) :: pieces
               | [] => [[c]]
               end).
  rewrite Hh, andb_false_r, IH. reflexivity.
Qed.

Lemma split_char_hash_at m c rest :
  forallb (fun x => negb (char_eqb x hash)) (m ++ [c]) = true ->
  is_line_terminator c = false ->
  split_char_hash (m ++ c :: hash :: rest) = m :: split_char_hash rest.
Proof.
  intros H Hc. induction m as [|c0 m IH].
  - change (split_char_hash ([] ++ c :: hash :: rest))
      with (if negb (is_line_terminator c) && char_eqb hash hash
            then [] :: split_char_hash rest
            else match split_char_hash (hash :: rest) with
                 | piece :: pieces => (c :: piece) :: pieces
                 | [] => [[c]]
                 end).
    rewrite Hc, char_eqb_refl. reflexivity.
  - cbn [app forallb] in H. apply andb_true_iff in H. destruct H as [_ Hm].
    specialize (IH Hm).
    assert (Hhead : exists h t, m ++ c :: hash :: rest = h :: t
                                /\ char_eqb h hash = false).
    { destruct m as [|h m'].
      - exists c, (hash :: rest). split; [reflexivity|].
        cbn [app forallb] in Hm. apply andb_true_iff in Hm.
        destruct Hm as [Hm _]. apply negb_true_iff in Hm. exact Hm.
      - exists h, (m' ++ c :: hash :: rest). split; [reflexivity|].
        cbn [app forallb] in Hm. apply andb_true_iff in Hm.
        destruct Hm as [Hm _]. apply negb_true_iff in Hm. exact Hm. }
    destruct Hhead as (h & t & Ht & Hh).
    cbn [app]. rewrite Ht in *.
    change (split_char_hash (c0 :: h :: t))
      with (if negb (is_line_terminator c0) && char_eqb h hash
            then [] :: split_char_hash t
            else match split_char_hash (h :: t) with
                 | piece :: pieces => (c0 :: piece) :: pieces
                 | [] => [[c0]]
                 end).
    rewrite Hh, andb_false_r, IH. reflexivity.
Qed.

Lemma label_last s :
  label s ->
  exists m c, s = m ++ [c] /\ forallb label_char m = true
              /\ label_char c = true.
Proof.
  intros [Hne Hs]. destruct (exists_last Hne) as (m & c & ->).
  exists m, c. split; [reflexivity|].
  rewrite forallb_forall in Hs. split.
  - apply forallb_forall. intros x Hx. apply Hs. apply in_or_app. left. exact Hx.
  - apply Hs. apply in_or_app. right. left. reflexivity.
Qed.

Lemma bit_no_hash : forallb (fun c => negb (char_eqb c hash)) (js "bit") = true.
Proof. reflexivity. Qed.

Lemma bit_no_dot : forallb (fun c => negb (char_eqb c dot)) (js "bit") = true.
Proof. reflexivity. Qed.

(** A dotted name of three labels is supported and splits into them. *)
Lemma dotted_supported sub main :
  label sub -> label main ->
  isSupportedAccount (sub ++ dot :: main ++ dot :: js "bit") = true
  /\ includes hash (sub ++ dot :: main ++ dot :: js "bit") = false
  /\ split dot (sub ++ dot :: main ++ dot :: js "bit") = [sub; main; js "bit"].
Proof.
  intros Hsub Hmain.
  assert (Hfree : forallb (fun c => negb (char_eqb c hash))
                    (sub ++ dot :: main ++ dot :: js "bit") = true).
  { apply forallb_append; [exact (label_no_hash _ (proj2 Hsub))|].
    cbn [forallb]. change (negb (char_eqb dot hash)) with true. cbn [andb].
    apply forallb_append; [exact (label_no_hash _ (proj2 Hmain))|].
    reflexivity. }
  split; [|split].
  - unfold isSupportedAccount.
    rewrite (split_char_hash_none _ Hfree).
    destruct (label_last _ Hmain) as (m & c & -> & _ & Hc).
    destruct (label_char_inv _ Hc) as (_ & _ & Hlt).
    replace (sub ++ dot :: (m ++ [c]) ++ dot :: js "bit")
      with ((sub ++ dot :: m) ++ c :: dot_bit ++ []).
    2:{ rewrite <- !app_assoc. reflexivity. }
    rewrite (test_found _ _ _ Hlt). cbn [forallb andb].
    unfold nonempty. rewrite !length_app. cbn [length].
    destruct (length sub + S (length m) + _)%nat eqn:E; [lia | reflexivity].
  - exact (includes_none _ _ Hfree).
  - rewrite (split_at _ _ _ (label_no_dot _ (proj2 Hsub))).
    rewrite (split_at _ _ _ (label_no_dot _ (proj2 Hmain))).
    rewrite (split_none _ _ bit_no_dot). reflexivity.
Qed.

(** A hashed name: what the pattern "any character, then #" makes of it
    and how it splits. *)
Lemma hashed_pieces m c sub :
  forallb label_char m = true -> label_char c = true -> label sub ->
  test_some_dot_bit (m ++ c :: hash :: sub ++ dot :: js "bit") = true
  /\ split_char_hash (m ++ c :: hash :: sub ++ dot :: js "bit")
     = [m; sub ++ dot :: js "bit"]
  /\ includes hash (m ++ c :: hash :: sub ++ dot :: js "bit") = true
  /\ split dot (m ++ c :: hash :: sub ++ dot :: js "bit")
     = [m ++ c :: hash :: sub; js "bit"]
  /\ split hash (m ++ c :: hash :: sub) = [m ++ [c]; sub].
Proof.
  intros Hm Hc Hsub.
  destruct (label_char_inv _ Hc) as (Hcdot & Hchash & Hclt).
  assert (Hmc_hash : forallb (fun x => negb (char_eqb x hash)) (m ++ [c]) = true).
  { apply forallb_append; [exact (label_no_hash _ Hm)|].
    cbn [forallb]. rewrite Hchash. reflexivity. }
  assert (Hmc_dot : forallb (fun x => negb (char_eqb x dot)) (m ++ [c]) = true).
  { apply forallb_append; [exact (label_no_dot _ Hm)|].
    cbn [forallb]. rewrite Hcdot. reflexivity. }
  assert (Hrest_hash : forallb (fun x => negb (char_eqb x hash))
                         (sub ++ dot :: js "bit") = true).
  { apply forallb_append; [exact (label_no_hash _ (proj2 Hsub)) | reflexivity]. }
  split; [|split; [|split; [|split]]].
  - destruct (label_last _ Hsub) as (s0 & c' & -> & _ & Hc').
    destruct (label_char_inv _ Hc') as (_ & _ & Hlt').
    replace (m ++ c :: hash :: (s0 ++ [c']) ++ dot :: js "bit")
      with ((m ++ c :: hash :: s0) ++ c' :: dot_bit ++ []).
    2:{ rewrite <- !app_assoc. cbn [app]. rewrite <- ?app_assoc. reflexivity. }
    exact (test_found _ _ _ Hlt').
  - rewrite (split_char_hash_at _ _ _ Hmc_hash Hclt).
    rewrite (split_char_hash_none _ Hrest_hash). reflexivity.
  - replace (m ++ c :: hash :: sub ++ dot :: js "bit")
      with ((m ++ [c]) ++ hash :: sub ++ dot :: js "bit")
      by (rewrite <- app_assoc; reflexivity).
    apply includes_middle.
  - replace (m ++ c :: hash :: sub ++ dot :: js "bit")
      with ((m ++ c :: hash :: sub) ++ dot :: js "bit")
      by (rewrite <- app_assoc; reflexivity).
    rewrite split_at.
    + rewrite (split_none _ _ bit_no_dot). reflexivity.
    + replace (m ++ c :: hash :: sub) with ((m ++ [c]) ++ hash :: sub)
        by (rewrite <- app_assoc; reflexivity).
      apply forallb_append; [exact Hmc_dot|].
      cbn [forallb]. change (negb (char_eqb hash dot)) with true.
      exact (label_no_dot _ (proj2 Hsub)).
  - replace (m ++ c :: hash :: sub) with ((m ++ [c]) ++ hash :: sub)
      by (rewrite <- app_assoc; reflexivity).
    rewrite (split_at _ _ _ Hmc_hash).
    rewrite (split_none _ _ (label_no_hash _ (proj2 Hsub))). reflexivity.
Qed.

Lemma nonempty_app_r a b : b <> [] -> nonempty (a ++ b) = true.
Proof.
  intros H. unfold nonempty. rewrite length_app.
  destruct b; [congruence|]. cbn [length].
  rewrite Nat.add_succ_r. reflexivity.
Qed.

(** X22. Round trip of the two styles: a dotted name of three labels
    sub.main.bit becomes main#sub.bit in the hashed style, and the
    hashed name goes back to the dotted one when the main label has two
    characters or more. *)
Theorem hashed_dotted_round_trip (sub main : jsstring) :
  label sub -> label main -> (2 <= length main)%nat ->
  toHashedStyle (sub ++ js "." ++ main ++ js ".bit")
  = main ++ js "#" ++ sub ++ js ".bit"
  /\ toDottedStyle (main ++ js "#" ++ sub ++ js ".bit")
     = sub ++ js "." ++ main ++ js ".bit".
Proof.
  intros Hsub Hmain Hlen.
  change (sub ++ js "." ++ main ++ js ".bit")
    with (sub ++ dot :: main ++ dot :: js "bit").
  change (main ++ js "#" ++ sub ++ js ".bit")
    with (main ++ hash :: sub ++ dot :: js "bit").
  split.
  - destruct (dotted_supported sub main Hsub Hmain) as (Hs & Hi & Hsp).
    unfold toHashedStyle. rewrite Hs, Hi, Hsp. reflexivity.
  - destruct (label_last _ Hmain) as (m & c & -> & Hm & Hc).
    assert (Hne : m <> []).
    { intros ->. cbn [app length] in Hlen. lia. }
    rewrite <- app_assoc. cbn [app].
    destruct (hashed_pieces m c sub Hm Hc Hsub)
      as (Ht & Hsch & Hinc & Hsd & Hsh).
    unfold toDottedStyle, isSupportedAccount.
    rewrite Ht, Hsch, Hinc, Hsd. cbn [forallb andb].
    replace (nonempty m) with true
      by (symmetry; exact (nonempty_app_r [] m Hne)).
    rewrite (nonempty_app_r sub (dot :: js "bit")) by discriminate.
    cbv zeta. cbn [negb andb hd nth_error]. rewrite Hsh.
    cbn [nth_error template_part]. reflexivity.
Qed.

(** X23. A main label of one character is not restored: the dotted
    name becomes the hashed one, but the hashed name is not a supported
    account, because the pattern "any character, then #" cuts an empty
    piece before it, and [toDottedStyle] returns it unchanged. *)
Theorem one_letter_main_is_not_restored (sub : jsstring) (c : jschar) :
  label sub -> label_char c = true ->
  toHashedStyle (sub ++ js "." ++ [c] ++ js ".bit")
  = [c] ++ js "#" ++ sub ++ js ".bit"
  /\ isSupportedAccount ([c] ++ js "#" ++ sub ++ js ".bit") = false
  /\ toDottedStyle ([c] ++ js "#" ++ sub ++ js ".bit")
     = [c] ++ js "#" ++ sub ++ js ".bit".
Proof.
  intros Hsub Hc.
  assert (Hmain : label [c]).
  { split; [discriminate|]. cbn [forallb]. rewrite Hc. reflexivity. }
  assert (Hno : isSupportedAccount ([c] ++ js "#" ++ sub ++ js ".bit") = false).
  { change ([c] ++ js "#" ++ sub ++ js ".bit")
      with ([] ++ c :: hash :: sub ++ dot :: js "bit").
    destruct (hashed_pieces [] c sub eq_refl Hc Hsub) as (_ & Hsch & _).
    unfold isSupportedAccount. rewrite Hsch. apply andb_false_r. }
  split; [|split; [exact Hno|]].
  - change (sub ++ js "." ++ [c] ++ js ".bit")
      with (sub ++ dot :: [c] ++ dot :: js "bit").
    destruct (dotted_supported sub [c] Hsub Hmain) as (Hs & Hi & Hsp).
    unfold toHashedStyle. rewrite Hs, Hi, Hsp. reflexivity.
  - unfold toDottedStyle. rewrite Hno. reflexivity.
Qed.

End AccountFacts.

(* ===================================================================== *)
(** ** The further properties at sample inputs *)
(* ===================================================================== *)

Module MoreRuns.
Import JS Ethers Avatar Spec Further Samples MoreSamples Account.
Import StringFacts Runs PipelineFacts TokenNumbers Decoding ResolvedUrls.
Import AccountFacts.

Lemma direct_ipfs_resolves_witness :
  run_avatar custom_plugin (world1155 0)
    (jeffx owner_indexed (js "ipfs://QmImg"))
  = (Return (Some {| linkage := [step "account" (js "jeffx.bit");
                                 step "ipfs" (js "ipfs://QmImg")];
                     url := js "https://ipfs.example/ipfs/QmImg" |}),
     {| st_linkage := [step "account" (js "jeffx.bit");
                       step "ipfs" (js "ipfs://QmImg")];
        st_calls := [] |})
  /\ run_avatar custom_plugin (world1155 0)
       (jeffx owner_indexed (js "IPFS://ipfs/QmImg"))
     = (Return (Some {| linkage := [step "account" (js "jeffx.bit");
                                    step "ipfs" (js "IPFS://ipfs/QmImg")];
                        url := js "https://ipfs.example/ipfs/QmImg" |}),
        {| st_linkage := [step "account" (js "jeffx.bit");
                          step "ipfs" (js "IPFS://ipfs/QmImg")];
           st_calls := [] |}).
Proof.
  split.
  - apply (direct_ipfs_resolves custom_plugin (world1155 0)
             (jeffx owner_indexed (js "ipfs://QmImg")) owner_indexed
             (js "ipfs://QmImg") (js "ipfs") (js "QmImg")
             (sample_has_avatar owner_indexed _ eq_refl)).
    reflexivity.
  - apply (direct_ipfs_resolves custom_plugin (world1155 0)
             (jeffx owner_indexed (js "IPFS://ipfs/QmImg")) owner_indexed
             (js "IPFS://ipfs/QmImg") (js "IPFS") (js "ipfs/QmImg")
             (sample_has_avatar owner_indexed _ eq_refl)).
    reflexivity.
Defined.

Lemma direct_schemes_make_no_call_witness :
  st_calls (snd (run_avatar default_plugin (world1155 0)
                   (jeffx owner_indexed (js "data:image/png;base64,AAAA"))))
  = []
  /\ exists r,
       Avatar.avatar default_plugin (world1155 0)
         (jeffx owner_indexed (js "data:image/png;base64,AAAA"))
       = Return (Some r).
Proof.
  apply (direct_schemes_make_no_call default_plugin (world1155 0)
           (jeffx owner_indexed (js "data:image/png;base64,AAAA"))
           owner_indexed (js "data:image/png;base64,AAAA") matcherData
           (js "data", js "image/png;base64,AAAA")
           (sample_has_avatar owner_indexed _ eq_refl)).
  - discriminate.
  - reflexivity.
Defined.

Lemma result_ends_with_its_url_witness :
  closing_step default_gateway
    {| linkage := [step "account" (js "jeffx.bit");
                   step "url" (js "https://example.com/a.png")];
       url := js "https://example.com/a.png" |}.
Proof.
  apply (result_ends_with_its_url default_plugin (world1155 0)
           (jeffx owner_indexed (js "https://example.com/a.png"))).
  vm_compute. reflexivity.
Defined.

Lemma matchers_are_exclusive_witness : matcherIpfs = matcherIpfs.
Proof.
  apply (matchers_are_exclusive (js "IPFS://QmImg") matcherIpfs matcherIpfs
           (js "IPFS", js "QmImg") (js "IPFS", js "QmImg"));
    reflexivity.
Defined.

Lemma line_terminator_matches_nothing_witness :
  exec matcherHttps (js "https://example.com/a" ++ [10%N] ++ js "b") = None.
Proof.
  apply (line_terminator_matches_nothing
           (js "https://example.com/a" ++ [10%N] ++ js "b") 10%N matcherHttps).
  - apply in_or_app. right. left. reflexivity.
  - reflexivity.
Defined.

Lemma no_case_leaves_account_only_witness :
  run_avatar default_plugin (world1155 1)
    (jeffx owner_indexed (js "eip155:1/erc20:0x265385c7/5"))
  = (Return None,
     {| st_linkage := [step "account" (js "jeffx.bit")]; st_calls := [] |}).
Proof.
  apply (no_case_leaves_account_only default_plugin (world1155 1)
           (jeffx owner_indexed (js "eip155:1/erc20:0x265385c7/5"))
           owner_indexed (js "eip155:1/erc20:0x265385c7/5")
           (sample_has_avatar owner_indexed _ eq_refl)).
  right. exists (js "erc20"), (js "0x265385c7/5"). split; reflexivity.
Defined.


Lemma sample_token1155_picture balance :
  token_avatar (world1155_picture balance)
    (jeffx owner_checksum (avatar1155 (js "5")))
    owner_checksum (avatar1155 (js "5")) (js "erc1155") contract (js "5")
    contract (number_word 5).
Proof.
  apply (sample_token_avatar balance template expanded5
           picture_document owner_checksum (js "erc1155") (js "5")
           (number_word 5));
    vm_compute; reflexivity.
Defined.

Lemma erc1155_end_to_end_witness :
  run_avatar default_plugin (world1155_picture 3)
    (jeffx owner_checksum (avatar1155 (js "5")))
  = (Return (Some
       {| linkage :=
            [step "account" (js "jeffx.bit");
             step "erc1155" (avatar1155 (js "5"));
             step "balance" (js "3");
             step "metadata-url-base" template;
             step "metadata-url-expanded" expanded5;
             step "metadata-url" expanded5;
             step "metadata" (stringify picture_document);
             step "url" picture];
          url := picture |}),
     {| st_linkage :=
          [step "account" (js "jeffx.bit");
           step "erc1155" (avatar1155 (js "5"));
           step "balance" (js "3");
           step "metadata-url-base" template;
           step "metadata-url-expanded" expanded5;
           step "metadata-url" expanded5;
           step "metadata" (stringify picture_document);
           step "url" picture];
        st_calls := [balanceOf_tx contract owner32 (number_word 5);
                     metadata_tx (js "erc1155") contract (number_word 5)] |}).
Proof.
  apply (proj1 (erc1155_end_to_end default_plugin (world1155_picture 3)
                  (jeffx owner_checksum (avatar1155 (js "5")))
                  owner_checksum (avatar1155 (js "5")) contract (js "5")
                  contract (number_word 5) owner32 (number_word 3)
                  (abi_encode_string template) template expanded5 picture
                  (mkBigNumber (js "0x03")) 3%Z picture_document
                  (sample_token1155_picture 3)
                  eq_refl eq_refl eq_refl eq_refl
                  (fun H : 3%Z = 0%Z => Z.neq_sym _ _ (Z.lt_neq 0 3 eq_refl) H)
                  eq_refl eq_refl eq_refl eq_refl eq_refl eq_refl)).
Defined.

Lemma token_word_of_numeral_witness :
  token_word (js "255")
  = Ok (js "0x00000000000000000000000000000000000000000000000000000000000000ff")
  /\ token_word (js "0x0ff")
     = Ok (js "0x00000000000000000000000000000000000000000000000000000000000000ff").
Proof.
  split.
  - apply (proj1 (token_word_of_numeral (js "255") 255%N
                    (or_introl (conj (fun H => nil_cons (eq_sym H))
                                  (conj eq_refl eq_refl))))).
    reflexivity.
  - apply (proj1 (token_word_of_numeral (js "0x0ff") 255%N
                    (or_intror
                       (ex_intro _ (js "0ff")
                          (conj eq_refl
                             (conj (fun H => nil_cons (eq_sym H))
                                (conj eq_refl eq_refl))))))).
    reflexivity.
Defined.

Lemma negative_token_number_refused_witness :
  (exists bn, BigNumber_from (js "-5") = Ok bn)
  /\ token_word (js "-5") = Err "invalid hex string".
Proof.
  apply (negative_token_number_refused (js "-5") 5%N).
  exists (js "5"). split; [reflexivity|]. split; [discriminate|].
  split; [reflexivity|]. split; [reflexivity | discriminate].
Defined.

Lemma parseBytes_declared_length_witness :
  _parseBytes (abi_layout [] 5 [1%N; 2%N]) 0 = Ok (Some (js "0x0102"))
  /\ _parseBytes (abi_layout [] 1 [1%N; 2%N]) 0 = Ok (Some (js "0x01")).
Proof.
  split.
  - apply (parseBytes_declared_length [] [1%N; 2%N] 5%N).
    + constructor.
    + repeat constructor.
    + reflexivity.
    + reflexivity.
  - apply (parseBytes_declared_length [] [1%N; 2%N] 1%N).
    + constructor.
    + repeat constructor.
    + reflexivity.
    + reflexivity.
Defined.

Lemma parseString_stray_byte_witness :
  _parseString (abi_encode_dynamic [] (utf8_bytes (js "ab") ++ [128%N; 99%N]) [])
    0
  = Ok None.
Proof.
  apply (parseString_stray_byte (js "ab") 128%N [99%N] [] []).
  - repeat constructor.
  - left. split; [discriminate | reflexivity].
  - repeat constructor.
  - constructor.
  - constructor.
  - reflexivity.
  - reflexivity.
Defined.

Lemma parseString_cut_character_witness :
  _parseString
    (abi_encode_dynamic []
       (utf8_bytes (js "ab") ++ firstn 2 (utf8_of_code_point 8364)) []) 0
  = Ok None.
Proof.
  apply (parseString_cut_character (js "ab") 8364%N 2 [] []).
  - repeat constructor.
  - left. reflexivity.
  - apply Nat.lt_0_succ.
  - apply Nat.lt_succ_diag_r.
  - constructor.
  - constructor.
  - reflexivity.
  - reflexivity.
Defined.

Lemma sample_verified721 :
  verified (world721 default_gateway) (jeffx owner_checksum avatar721)
    owner_checksum avatar721 (js "erc721") contract (js "7") contract token7
    (with_step (with_call (token_state (jeffx owner_checksum avatar721)
                             (js "erc721") avatar721)
                  (ownerOf_tx contract token7))
       (step "owner" owner_checksum)).
Proof.
  split.
  - apply (sample_token_avatar 0 (js "ipfs://Qm123")
             (default_gateway ++ js "/ipfs/Qm123") image_document
             owner_checksum (js "erc721") (js "7") token7);
      vm_compute; reflexivity.
  - vm_compute. reflexivity.
Defined.

Lemma metadata_call_follows_ownership_witness :
  st_calls (snd (run_avatar default_plugin (world721 default_gateway)
                   (jeffx owner_checksum avatar721)))
  = [ownerOf_tx contract token7; metadata_tx (js "erc721") contract token7]
  /\ tx_to (metadata_tx (js "erc721") contract token7) = contract
  /\ tx_data (metadata_tx (js "erc721") contract token7)
     = js "0xc87b56dd" ++ skipn 2 (toLowerCase token7).
Proof.
  apply (metadata_call_follows_ownership default_plugin
           (world721 default_gateway) (jeffx owner_checksum avatar721)
           owner_checksum avatar721 (js "erc721") contract (js "7")
           contract token7 _ sample_verified721).
Defined.


Lemma plugin_gateway_never_empty_witness :
  ipfs (new_BitPluginAvatar
          (Some {| ipfsGateway := Some (js "https://ipfs.example") |}))
  = js "https://ipfs.example"
  /\ ipfs (new_BitPluginAvatar (Some {| ipfsGateway := Some [] |}))
     = default_gateway.
Proof.
  split.
  - apply (proj1 (proj2 (plugin_gateway_never_empty
                           (Some {| ipfsGateway :=
                                      Some (js "https://ipfs.example") |})))
             (js "https://ipfs.example") eq_refl).
    discriminate.
  - apply (proj2 (proj2 (plugin_gateway_never_empty
                           (Some {| ipfsGateway := Some [] |})))).
    intros g H. inversion H. reflexivity.
Defined.

Lemma resolved_url_is_web_url_witness :
  web_url (js "https://ipfs.example") (js "https://ipfs.example/ipfs/QmImg").
Proof.
  apply (resolved_url_is_web_url custom_plugin (world1155 0)
           (jeffx owner_indexed (js "ipfs://QmImg"))
           {| linkage := [step "account" (js "jeffx.bit");
                          step "ipfs" (js "ipfs://QmImg")];
              url := js "https://ipfs.example/ipfs/QmImg" |}).
  vm_compute. reflexivity.
Defined.

Lemma sample_label_001 : label (js "001").
Proof. split; [discriminate | reflexivity]. Defined.

Lemma hashed_dotted_round_trip_witness :
  toHashedStyle (js "001.imac.bit") = js "imac#001.bit"
  /\ toDottedStyle (js "imac#001.bit") = js "001.imac.bit".
Proof.
  apply (hashed_dotted_round_trip (js "001") (js "imac") sample_label_001).
  - split; [discriminate | reflexivity].
  - cbn [js list_ascii_of_string map length]. apply le_S, le_S, le_n.
Defined.

Lemma one_letter_main_is_not_restored_witness :
  toHashedStyle (js "001.x.bit") = js "x#001.bit"
  /\ isSupportedAccount (js "x#001.bit") = false
  /\ toDottedStyle (js "x#001.bit") = js "x#001.bit".
Proof.
  apply (one_letter_main_is_not_restored (js "001") 120%N sample_label_001).
  reflexivity.
Defined.

End MoreRuns.
